(* ===== verification/_CoqProject ===== *)
-Q . S2P
Prelude.v
PyDict.v
PyFloat.v
PyStr.v
FloatError.v
Probability.v
RangeAllocator.v
RangeSpec.v
DrawResolver.v
RandomSource.v
MersenneTwister.v
SimulationRunner.v
RunnerSpec.v
SimulationStats.v
FloatStats.v
App.v
Display.v
