(* ===== verification/Prelude.v ===== *)
(** * Monte Carlo job simulation (src/app.py): a verification development

    ** The program

    [src/app.py] is a Streamlit app in three layers.  The core, which this
    development models, is three pure functions:
    - [create_ranges(job_data)] (lines 16-33), the Range Allocator: turns
      an insertion-ordered dict of job frequencies into one range
      [(start, end)] per job on the scale [1..99], sized
      [round(freq / total * 99)] (binary64), with a cursor, a clip at 99
      and the last range forced to end at 99;
    - [get_job_from_random(ranges, n)] (lines 36-40), the Draw Resolver:
      the first job whose range contains [n], or [None];
    - [run_simulations(ranges, total_range, N, M)] (lines 43-68), the
      Simulation Runner: [N] simulations of [M] draws of
      [random.randint(1, total_range)], each resolved to a job whose count
      is incremented ([job_counts[job] += 1]) and recorded with the running
      total [sum(count / (N * M))]; then the probability table
      [count / (N * M)] and its prefix sums.
    Around it, [get_job_data_ui] (lines 6-13) builds [job_data] from the
    form, [main] (lines 92-136) keeps the ranges and results in
    [st.session_state] across Streamlit's reruns and calls the core when
    a button is clicked, and [display_results] (lines 71-89) renders the
    results, looking up [ranges[j]] for every drawn job.

    ** Files, and what they model

    - [Prelude] (this file): Python exceptions ([py_exc]) and the error
      monad [res] with its [let!] notation (scope [res_scope]), Python list
      indexing [py_list_index] (negative indices, [IndexError]), [sum] on
      ints ([sum_Z]), the shared lemmas, the hint databases [sim] and
      [sim_rw], and the tactics [z_cases] and [inv_res].
    - [PyDict]: Python dicts (insertion order kept) as association lists:
      [d.get], [d[k]] with [KeyError], [d[k] = v] in place or appended,
      [keys], [values], and dict comprehensions ([dict_of_items]).
    - [PyFloat]: CPython floats as IEEE 754 binary64 with the Standard
      Library's [SpecFloat] (executable, axiom-free): int true division
      ([py_int_truediv], correctly rounded, [ZeroDivisionError],
      [OverflowError]), [float * int], [float + float] and [round()]
      (ties to even).  Bit-exact: [3 / 22] evaluates to
      [0x1.1745d1745d174p-3] as in CPython.  Its second half bounds the
      magnitudes: a quotient [a / b] with [0 <= a <= b], scaled by 99, is
      always finite, so [round] never raises; rounding half to even to a
      multiple of [2^k] is off by at most half a unit.
    - [FloatError]: the rounding error of binary64: SpecFloat's
      shift-and-location rounding given its meaning in [Q] ([shr_ok]),
      one rounding within three units in the last place
      ([binary_round_aux_error]), [a / b] on ints and [x + y] below 2
      within [3 * 2^-52], a left-to-right sum of [n] quotients within
      [n * 3 * 2^-51]; [float_Q] is the exact value of a double.
    - [PyStr]: Python's [str] of an int (stdpp's [pretty]) and a reader
      for what it prints ([read_int], [read_decimal]), proved to read back
      every printed integer and zero-padded field.
    - [Probability]: the interface [ProbArith] (division of ints, addition,
      the starting [0]) with its law, and the program's instance
      [float_prob] (binary64).
    - [RangeAllocator] (Module [RangeAllocator]): [range_size],
      [create_ranges_loop] (the [for] loop, state = the ranges dict and the
      cursor [start]) and [create_ranges]; the invariant [tiles] and the
      loop invariant [chain].
    - [RangeSpec] (Module [RangeSpec]): the closed-form reference
      [create_ranges_ref] (each range from the prefix sums of the rounded
      sizes, clipped with [min]) against which [create_ranges] is proved
      equal.
    - [DrawResolver] (Module [DrawResolver]): [get_job_from_random] and its
      specification [owns].
    - [RandomSource]: the interface to [random.randint] (class
      [RandomSource] with its law class [RandomSourceLaws]), the library's
      [ValueError] on an empty range, a replay stub and a lawful LCG.
    - [MersenneTwister] (Module [MersenneTwister]): CPython's generator
      bit for bit: the state [RandomObject] (624 words and an index),
      [init_genrand], [init_by_array], the seeding at [import random]
      ([random_seed_urandom]) and by [random.seed(n)] ([random_seed]),
      [genrand_uint32] with [twist] and [temper], [getrandbits],
      [_randbelow_with_getrandbits] (its rejection loop as
      [randbelow_loop] with fuel), [randrange] and [randint]; the
      invariant [mt_wf].  This is library code the program calls at line
      52, modelled from CPython's sources, not code of the repository.
    - [SimulationRunner] (Module [SimulationRunner]): [draw_once] (one inner
      iteration), [inner_loop], [outer_loop] and [run_simulations], with the
      loop state [loop_state] (the counts dict and the generator, threaded
      explicitly); the invariant that the counts are the [tally] of the
      drawn jobs; generic in the generator and the arithmetic.
    - [RunnerSpec] (Module [RunnerSpec]): the declarative specification
      [run_spec] of [run_simulations] (draw all numbers, resolve them, the
      running total of every prefix, cut into simulations) and the flat
      loop [flat_loop] through which the nested loops are proved equal
      to it.
    - [SimulationStats] (Module [SimulationStats]): the cumulative table's
      specification [prefix_sums], the running total and the tables as
      left folds of the same quotients, and the exact share
      [drawn_mass] the running total approximates.
    - [FloatStats] (Module [FloatStats]): the two totals of a run at any
      arithmetic, Python's [sum] of floats in both CPython readings
      ([py_sum_left] up to 3.11, the compensated [py_sum_compensated]
      from 3.12), the binary64 error bounds of the running total and the
      normalisation, and [allocate_and_run] (allocation then simulation,
      as [main] chains them).
    - [App] (Module [App]): the widget values of one rerun ([form], with
      Streamlit's bounds [form_ok]), [get_job_data_ui], the session state
      [session] (one [option] field per key of [st.session_state];
      reading an unset key is [attr], [AttributeError]), the two button
      branches [generate] and [run], [show_step], the [Range] column of
      [display_results] ([range_column]), and one rerun of [main] as the
      function [main_run]; the states a browser session reaches are the
      inductive [reachable], and [session_inv] is their invariant.
    - [Display] (Module [Display]): the strings the page shows:
      ['{:.4f}'] as [format_fixed4] (the exact binary value rounded half
      to even to four decimals, as CPython's correctly rounded [dtoa]),
      the labels [f"{start}–{end}"] ([range_label]) and lines
      [f"{job}: {start}–{end}"] ([range_line], [ranges_listing]), the
      probability table [prob_table], a simulation's rows [detail_rows],
      the titles ["Simulation {i+1} Details"] and ["Sim {i+1}"], all of
      [display_results] as [render_results] and step 3 of [main] as
      [render_session].

    ** What is proved

    The numbered claims C1-C27 are the theorems whose doc comments carry
    the ids; the [Example]s that are not numbered evaluate the model on
    concrete inputs and back the findings.
    - Allocation: for distinct jobs with non-negative frequencies the
      ranges tile [1..99] in input order (C1), and with a positive total
      [create_ranges] returns normally (C9); its errors are Python's
      (C8); every size [round(freq / total * 99)] computed in binary64 is
      within [1/2 + 2^-40] of the exact [99 * freq / total] (C10);
      [create_ranges] equals its closed form, errors included (C15).
    - Resolution: on a tiling the resolver refines [owns] (C2) and answers
      [None] exactly off the scale (C6); a job other than the last whose
      frequency is at most half a percent of the total gets an empty range
      and is never drawn (C7).
    - Simulation: [run_simulations] equals its declarative specification
      for every generator and lawful arithmetic, exceptions included
      (C20); the final counts are the tally of the sequences and sum
      to [N * M] (C3); with a lawful generator and arithmetic the run
      raises nothing (C4); the sequences, records and numbers are
      consistent (C5); both tables are keyed by the jobs of [ranges] in
      order (C17) and the running total of the last draw is the last
      cumulative value, for [sum] as CPython up to 3.11 runs it (C16).
    - Floats: the spec's normalisation in binary64: the float
      probabilities sum, left to right, to the last cumulative value,
      within [n * 3 * 2^-51] of 1 for [n] jobs, inside the spec's [1e-9]
      (C24); the running total of the [i]-th draw is within as much of
      [i / (N * M)] (C26).
    - Session: "Generate Ranges" on valid widget values stores a tiling
      for exactly [J1 .. Jn] and clears [simulations_ran] (C14); every
      reachable state satisfies [session_inv] (C11), by rule induction on
      [reachable]; from a reachable state no rerun raises, whatever is
      clicked (C12); the [Range] column shows every draw record with
      the stored range that contains its number (C13); looking up [J{i}]
      in the form's table returns the [i]-th frequency (C18); and
      "Generate Ranges" followed by "Run Simulations" always displays the
      results (C19).
    - Display: every probability cell reads as a decimal within
      [0.00005 + 3 * 2^-52] of the job's exact share [count / (N * M)]
      (C21), and the last cumulative cell is exactly [1.0000] (C25);
      every line of the ranges listing reads back as its job's range
      (C22); from every reachable state with results the tables render,
      and every row, read back cell by cell, shows its draw record and a
      [Range] label that parses to the range its job owns, which
      contains its number (C23).
    - Generator: [randint(a, b)] on a well-formed state returns a number
      in [a..b] or raises [ValueError] exactly when [b < a] (C27); the
      state stays 624 words of 32 bits through seeding and drawing.

    ** Bounds, fuel and modelling choices

    The program's own loops need no fuel: every one is
    [for ... in range(n)] or over a dict, modelled by structural recursion
    on [Z.to_nat n] or on the list, which is the exact iteration count
    ([range(n)] is empty for [n <= 0]).  The one loop with fuel is the
    library's rejection loop [while r >= n: r = getrandbits(k)] in
    [random.randint], whose number of turns depends on the generator's
    output: [randbelow_loop] takes a [fuel] bound and answers [None] when
    it runs out; C27 is stated for every outcome it returns.  The
    examples use 100 turns per call; each turn accepts with probability
    99/128 for [randint(1, 99)], and evaluation shows the fuel suffices.
    Integers are Python ints, hence unbounded [Z].  Floats are
    binary64 bit for bit; the runner reads [sum()] of floats as the
    left-to-right addition of CPython up to 3.11; the compensated [sum]
    of 3.12 is modelled beside it ([FloatStats]) and changes only the
    running totals of the float instance (the example
    [allocate_and_run_sum_versions]: 0.9999999999999999 against 1.0).
    The spec's real-number reading of the expressions is the exact value
    [float_Q] of the doubles in the error bounds.  The
    global generator is an explicit state; when [run_simulations] raises,
    the model discards the generator's progress, which no theorem depends
    on (the run raises nothing on valid input, C4).  A Streamlit rerun is
    atomic in the model: a rerun that raises keeps the session state as it
    was at the exception, and the widget values are those of the rerun
    (Streamlit keeps them across reruns by their keys).

    ** Not modelled

    The runner is generic in the [RandomSource] interface rather than run
    on the Mersenne Twister directly: an instance needs a total draw, and
    the termination of the rejection loop from an arbitrary state depends
    on the generator's output, which is not provable; the twister is
    connected to the runner by replaying its draws.  The 624 words
    the OS supplies at [import random] are a parameter, and [random.seed]
    of str, bytes or None is not modelled (the program never seeds).
    Streamlit's widgets, titles, emoji headers and the
    drawing of the DataFrames (their contents are modelled in [Display];
    the floats of the detail tables are kept as doubles, as pandas'
    default display is not part of the code); the error of the inner
    cumulative values (the probabilities, the final sum and the running
    totals are bounded, C21, C24, C26). *)

From Stdlib Require Import ZArith Lia.
From stdpp Require Import base list strings decidable.

(** ** Python exceptions and the error monad

    The program threads Python exceptions through ordinary calls.  Every
    fallible operation of the model returns [res A]: either a value or the
    exception class CPython would raise at that point. *)

Inductive py_exc : Type :=
| ZeroDivisionError
| IndexError
| KeyError
| OverflowError
| ValueError
| AttributeError.

#[export] Instance py_exc_eq_dec : EqDecision py_exc.
Proof. solve_decision. Defined.

Inductive res (A : Type) : Type :=
| Ok (a : A)
| Err (e : py_exc).
Arguments Ok {A} a.
Arguments Err {A} e.

Definition res_bind {A B : Type} (m : res A) (k : A -> res B) : res B :=
  match m with
  | Ok a => k a
  | Err e => Err e
  end.

Definition res_map {A B : Type} (f : A -> B) (m : res A) : res B :=
  res_bind m (fun a => Ok (f a)).

Declare Scope res_scope.
Delimit Scope res_scope with res.
Notation "'let!' x ':=' m 'in' k" := (res_bind m (fun x => k))
  (at level 10, x name, m at level 100, k at level 200) : res_scope.
Notation "'let!' ' p ':=' m 'in' k" := (res_bind m (fun x => match x with p => k end))
  (at level 10, p pattern, m at level 100, k at level 200) : res_scope.
Open Scope res_scope.

(** [is_ok m] holds when [m] raised nothing. *)
Definition is_ok {A : Type} (m : res A) : bool :=
  match m with Ok _ => true | Err _ => false end.

Lemma res_bind_Ok {A B : Type} (m : res A) (k : A -> res B) (b : B) :
  res_bind m k = Ok b <-> exists a, m = Ok a /\ k a = Ok b.
Proof.
  destruct m as [a|e]; simpl; split.
  - intros H. eauto.
  - intros (a' & [= ->] & H). exact H.
  - discriminate.
  - intros (a' & ? & _). discriminate.
Qed.

Lemma res_bind_Err {A B : Type} (m : res A) (k : A -> res B) (e : py_exc) :
  m = Err e -> res_bind m k = Err e.
Proof. intros ->. reflexivity. Qed.

Lemma res_bind_ret {A B : Type} (a : A) (k : A -> res B) :
  res_bind (Ok a) k = k a.
Proof. reflexivity. Qed.

(** Apply a fallible function to each element in order, stopping at the
    first exception (a comprehension whose body may raise). *)
Fixpoint res_traverse {A B : Type} (f : A -> res B) (l : list A) : res (list B) :=
  match l with
  | [] => Ok []
  | x :: l' => let! y := f x in let! ys := res_traverse f l' in Ok (y :: ys)
  end.

Lemma res_traverse_Ok {A B : Type} (f : A -> res B) (l : list A) (ys : list B) :
  res_traverse f l = Ok ys <-> Forall2 (fun x y => f x = Ok y) l ys.
Proof.
  revert ys. induction l as [|x l IH]; intros ys; simpl.
  - split; [intros [= <-]; constructor | intros H; inversion H; reflexivity].
  - split.
    + intros H. apply res_bind_Ok in H as (y & Hy & H).
      apply res_bind_Ok in H as (ys' & Hys & [= <-]).
      constructor; [exact Hy | apply IH, Hys].
    + intros H. inversion H as [|? y ? ys' Hy Hys]; subst.
      rewrite Hy. simpl. apply IH in Hys. rewrite Hys. reflexivity.
Qed.

Lemma res_traverse_length {A B : Type} (f : A -> res B) l ys :
  res_traverse f l = Ok ys -> length ys = length l.
Proof. intros H%res_traverse_Ok. symmetry. by eapply Forall2_length. Qed.

Lemma res_traverse_ext {A B : Type} (f g : A -> res B) (l : list A) :
  (forall x, In x l -> f x = g x) -> res_traverse f l = res_traverse g l.
Proof.
  induction l as [|x l IH]; intros Hfg; simpl; [reflexivity|].
  rewrite Hfg by (left; reflexivity). rewrite IH by (intros; apply Hfg; right; assumption).
  reflexivity.
Qed.

Lemma res_traverse_map {A B C : Type} (f : B -> res C) (h : A -> B) (l : list A) :
  res_traverse f (map h l) = res_traverse (fun x => f (h x)) l.
Proof. induction l as [|x l IH]; simpl; [reflexivity|]. by rewrite IH. Qed.

Lemma length_concat_uniform {A : Type} (ls : list (list A)) (m : nat) :
  Forall (fun l => length l = m) ls -> length (concat ls) = (length ls * m)%nat.
Proof. induction 1; simpl; [reflexivity|]. rewrite length_app. lia. Qed.

(** ** Integer helpers shared by the components *)

Open Scope Z_scope.

(** [l[i]] on a Python list: a negative index counts from the end, and an
    index outside the list raises [IndexError]. *)
Definition py_list_index {A : Type} (l : list A) (i : Z) : res A :=
  let j := if Z.ltb i 0 then Z.of_nat (length l) + i else i in
  if Z.ltb j 0 then Err IndexError
  else match nth_error l (Z.to_nat j) with
       | Some a => Ok a
       | None => Err IndexError
       end.

Lemma py_list_index_last {A : Type} (l : list A) (a : A) :
  py_list_index (l ++ [a]) (-1) = Ok a.
Proof.
  unfold py_list_index. rewrite length_app. simpl.
  replace (Z.of_nat (length l + 1) + -1) with (Z.of_nat (length l)) by lia.
  rewrite (proj2 (Z.ltb_ge _ _)) by lia.
  rewrite Nat2Z.id, nth_error_app2, Nat.sub_diag by lia. reflexivity.
Qed.

Lemma py_list_index_nil {A : Type} (i : Z) :
  py_list_index (@nil A) i = Err IndexError.
Proof.
  unfold py_list_index.
  destruct (Z.ltb i 0), (Z.ltb _ 0); try reflexivity.
  all: destruct (Z.to_nat _); reflexivity.
Qed.

(** Python's [sum] over a list of ints. *)
Definition sum_Z (l : list Z) : Z := fold_right Z.add 0 l.

Lemma sum_Z_app (l1 l2 : list Z) : sum_Z (l1 ++ l2) = sum_Z l1 + sum_Z l2.
Proof. induction l1 as [|x l1 IH]; simpl; lia. Qed.

Lemma sum_Z_map_add {A : Type} (f g : A -> Z) (l : list A) :
  sum_Z (map (fun x => f x + g x) l) = sum_Z (map f l) + sum_Z (map g l).
Proof. induction l as [|x l IH]; simpl; lia. Qed.

Lemma sum_Z_nonneg (l : list Z) : Forall (fun x => 0 <= x) l -> 0 <= sum_Z l.
Proof. induction 1; simpl; lia. Qed.

Lemma sum_Z_elem_le (l : list Z) (x : Z) :
  Forall (fun y => 0 <= y) l -> In x l -> x <= sum_Z l.
Proof.
  induction 1 as [|y l Hy Hl IH]; simpl; [tauto|].
  intros [->|Hin]; [pose proof (sum_Z_nonneg l Hl); lia | specialize (IH Hin); lia].
Qed.

(** A property kept by every turn of a loop holds after it, for the two
    loop shapes of the development: [foldl] over the loop's indices and
    [Nat.iter] of a body [n] times. *)
Lemma foldl_inv {A B : Type} (P : A -> Prop) (f : A -> B -> A) (a : A) (l : list B) :
  P a -> (forall a b, P a -> P (f a b)) -> P (foldl f a l).
Proof. intros Ha Hf. revert a Ha. induction l as [|b l IH]; intros a Ha; simpl; auto. Qed.

Lemma Nat_iter_inv {A : Type} (P : A -> Prop) (f : A -> A) (n : nat) (a : A) :
  P a -> (forall a, P a -> P (f a)) -> P (Nat.iter n f a).
Proof. intros Ha Hf. induction n as [|n IH]; simpl; auto. Qed.

(** ** Automation *)

Create HintDb sim discriminated.
Create Rewrite HintDb sim_rw.
#[export] Hint Resolve sum_Z_nonneg : sim.
#[export] Hint Rewrite @res_bind_ret sum_Z_app : sim_rw.

(** [z_cases] splits on every integer comparison of the goal and the
    hypotheses, keeping the comparison's meaning as a hypothesis. *)
Ltac z_cases :=
  repeat match goal with
  | |- context [Z.leb ?a ?b] => destruct (Z.leb_spec a b)
  | |- context [Z.ltb ?a ?b] => destruct (Z.ltb_spec a b)
  | _ : context [Z.leb ?a ?b] |- _ => destruct (Z.leb_spec a b)
  | _ : context [Z.ltb ?a ?b] |- _ => destruct (Z.ltb_spec a b)
  end.

(** [inv_res H] splits a hypothesis [res_bind m k = Ok b] into the value
    [m] produced and the remaining computation. *)
Ltac inv_res H :=
  let a := fresh "a" in
  let Ha := fresh "Ha" in
  apply res_bind_Ok in H as (a & Ha & H).
