(* ===== verification/PyDict.v ===== *)
(** * Insertion-ordered Python dictionaries

    [src/app.py] keeps every table in a [dict]: the job frequencies
    ([job_data]), the ranges ([ranges]), the running counts ([job_counts])
    and the two probability tables.  Since Python 3.7 a dict iterates in
    insertion order, and the program relies on that order (the last job
    absorbs the rounding drift; cumulative probabilities are prefix sums in
    that order).  A dict is therefore an association list: [d[k] = v]
    replaces the value in place when [k] is present and appends otherwise,
    and [d[k]] raises [KeyError] when [k] is absent. *)

From Stdlib Require Import ZArith Lia.
From stdpp Require Import base list decidable.
From S2P Require Import Prelude.

Definition dict (K V : Type) : Type := list (K * V).

Lemma NoDup_app_cons_notin {A : Type} (l1 l2 : list A) (x : A) :
  NoDup (l1 ++ x :: l2) -> ~ In x l1.
Proof.
  intros Hnd Hin. apply list.NoDup_app in Hnd as (_ & Hdisj & _).
  apply (Hdisj x); apply list_elem_of_In; [exact Hin | left; reflexivity].
Qed.

Section PyDict.
Context {K V : Type} `{EqDecision K}.
Implicit Types (d : dict K V) (k : K) (v : V).

(** [d.get(k)] *)
Fixpoint dict_get (d : dict K V) (k : K) : option V :=
  match d with
  | [] => None
  | (k', v') :: d' => if decide (k = k') then Some v' else dict_get d' k
  end.

(** [d[k]]: [KeyError] when the key is missing. *)
Definition dict_getitem (d : dict K V) (k : K) : res V :=
  match dict_get d k with
  | Some v => Ok v
  | None => Err KeyError
  end.

(** [d[k] = v]: in place when present, appended at the end otherwise. *)
Fixpoint dict_set (d : dict K V) (k : K) (v : V) : dict K V :=
  match d with
  | [] => [(k, v)]
  | (k', v') :: d' =>
      if decide (k = k') then (k', v) :: d' else (k', v') :: dict_set d' k v
  end.

(** [d.keys()], [d.values()] *)
Definition dict_keys (d : dict K V) : list K := map fst d.
Definition dict_values (d : dict K V) : list V := map snd d.

Lemma dict_get_set_eq d k v : dict_get (dict_set d k v) k = Some v.
Proof.
  induction d as [|[k' v'] d IH]; simpl; [by rewrite decide_True|].
  case_decide as Hk; simpl; [subst; by rewrite decide_True|].
  rewrite decide_False by done. exact IH.
Qed.

Lemma dict_get_set_ne d k k2 v :
  k <> k2 -> dict_get (dict_set d k v) k2 = dict_get d k2.
Proof.
  intros Hne. induction d as [|[k' v'] d IH]; simpl.
  - by rewrite decide_False.
  - case_decide as Hk; simpl; subst.
    + case_decide; [congruence|reflexivity].
    + case_decide; [reflexivity|exact IH].
Qed.

Lemma dict_keys_set_in d k v :
  In k (dict_keys d) -> dict_keys (dict_set d k v) = dict_keys d.
Proof.
  induction d as [|[k' v'] d IH]; simpl; [tauto|].
  intros Hin. case_decide as Hk; simpl; [reflexivity|].
  f_equal. apply IH. destruct Hin as [->|Hin]; [congruence|exact Hin].
Qed.

Lemma dict_set_notin d k v :
  ~ In k (dict_keys d) -> dict_set d k v = d ++ [(k, v)].
Proof.
  induction d as [|[k' v'] d IH]; simpl; [reflexivity|].
  intros Hnin. rewrite decide_False by (intros ->; tauto).
  f_equal. apply IH. tauto.
Qed.

Lemma dict_get_In d k v : dict_get d k = Some v -> In (k, v) d.
Proof.
  induction d as [|[k' v'] d IH]; simpl; [discriminate|].
  case_decide; [intros [= ->]; subst; left; reflexivity|].
  intros H'. right. exact (IH H').
Qed.

Lemma dict_get_NoDup_In d k v :
  NoDup (dict_keys d) -> In (k, v) d -> dict_get d k = Some v.
Proof.
  induction d as [|[k' v'] d IH]; simpl; [tauto|].
  intros Hnd Hin. inversion Hnd as [|? ? Hk' Hnd']; subst.
  destruct Hin as [[= -> ->]|Hin].
  - by rewrite decide_True.
  - rewrite decide_False; [exact (IH Hnd' Hin)|].
    intros ->. apply Hk', list_elem_of_In. apply (in_map fst _ _ Hin).
Qed.

Lemma dict_get_keys d k : is_Some (dict_get d k) <-> In k (dict_keys d).
Proof.
  induction d as [|[k' v'] d IH]; simpl.
  - split; [intros [? ?]; discriminate | tauto].
  - case_decide as Hk.
    + subst. split; [intros _; left; reflexivity | intros _; eexists; reflexivity].
    + rewrite IH. split; [intros Hin; right; exact Hin|].
      intros [->|Hin]; [congruence | exact Hin].
Qed.
Lemma dict_set_app_last d k v v' :
  ~ In k (dict_keys d) -> dict_set (d ++ [(k, v)]) k v' = d ++ [(k, v')].
Proof.
  induction d as [|[k1 v1] d IH]; simpl; intros Hnin.
  - by rewrite decide_True.
  - rewrite decide_False by (intros ->; tauto). f_equal. apply IH. tauto.
Qed.

Lemma dict_get_app_last d k v :
  ~ In k (dict_keys d) -> dict_get (d ++ [(k, v)]) k = Some v.
Proof.
  intros Hnin. rewrite <- (dict_set_notin d k v Hnin). apply dict_get_set_eq.
Qed.

Lemma dict_keys_app d1 d2 : dict_keys (d1 ++ d2) = dict_keys d1 ++ dict_keys d2.
Proof. apply map_app. Qed.
(** [dict(items)] and dict comprehensions: insert the pairs in order. *)
Definition dict_of_items (items : list (K * V)) : dict K V :=
  fold_left (fun d kv => dict_set d kv.1 kv.2) items [].

Lemma dict_of_items_fold acc items :
  NoDup (dict_keys acc ++ dict_keys items) ->
  fold_left (fun d kv => dict_set d kv.1 kv.2) items acc = acc ++ items.
Proof.
  revert acc. induction items as [|[k v] items IH]; simpl; intros acc Hnd.
  - by rewrite app_nil_r.
  - rewrite dict_set_notin by exact (NoDup_app_cons_notin _ _ _ Hnd).
    rewrite IH, <- app_assoc; [reflexivity|].
    rewrite dict_keys_app, <- app_assoc. exact Hnd.
Qed.

Lemma dict_of_items_NoDup items :
  NoDup (dict_keys items) -> dict_of_items items = items.
Proof. intros Hnd. apply (dict_of_items_fold []). exact Hnd. Qed.
End PyDict.

#[export] Hint Rewrite @dict_get_set_eq : sim_rw.
#[export] Hint Resolve dict_get_In dict_get_NoDup_In : sim.
