(* ===== verification/PyFloat.v ===== *)
(** * Python floats as IEEE 754 binary64

    [create_ranges] computes [round(freq / total_frequency * 99)] and
    [run_simulations] computes probabilities as [count / (n * m)]; both are
    CPython float operations.  The rounding of binary64 changes the range
    sizes (for [freq = 3], [total = 22] the float product is
    [13.499999999999998] and [round] gives [13], where the exact quotient
    [13.5] would round to [14]), so floats are modelled bit-exactly with the
    Standard Library's [SpecFloat] (the executable specification of IEEE 754
    used by the primitive floats), at [prec = 53], [emax = 1024], rounding
    to nearest, ties to even.

    - [float_of_int]: [float(n)] (PyLong_AsDouble), [OverflowError] past
      the largest double;
    - [py_int_truediv]: [a / b] on ints (long_true_divide), correctly
      rounded quotient of the exact integers, [ZeroDivisionError] on [b = 0],
      [OverflowError] past the largest double, a signed zero for [0 / b];
    - [py_float_mul_int]: [x * n] for a float [x] and an int [n];
    - [py_float_add]: [x + y];
    - [py_round]: [round(x)] with no [ndigits] (float.__round__): ties to
      even on the exact value of the double, [ValueError] on NaN,
      [OverflowError] on infinities. *)

From Stdlib Require Import ZArith Lia SpecFloat.
From stdpp Require Import base decidable.
From S2P Require Import Prelude.

Open Scope Z_scope.

Definition prec : Z := 53.
Definition emax : Z := 1024.

(** A Python float. *)
Abbreviation float := spec_float.

(** The exact value of an integer, as an (unnormalised) finite float. *)
Definition float_exact_of_Z (z : Z) : spec_float :=
  match z with
  | Z0 => S754_zero false
  | Zpos p => S754_finite false p 0
  | Zneg p => S754_finite true p 0
  end.

(** Infinity is where CPython raises [OverflowError]. *)
Definition check_overflow (f : float) : res float :=
  match f with
  | S754_infinity _ => Err OverflowError
  | _ => Ok f
  end.

Definition float_of_int (n : Z) : res float :=
  check_overflow (binary_normalize prec emax n 0 false).

Definition py_int_truediv (a b : Z) : res float :=
  if Z.eqb b 0 then Err ZeroDivisionError
  else if Z.eqb a 0 then Ok (S754_zero (Z.ltb b 0))
  else check_overflow (SFdiv prec emax (float_exact_of_Z a) (float_exact_of_Z b)).

Definition py_float_mul_int (x : float) (n : Z) : res float :=
  let! y := float_of_int n in Ok (SFmul prec emax x y).

Definition py_float_add (x y : float) : float := SFadd prec emax x y.

(** [m / 2^k] rounded to nearest, ties to even, for [0 <= m]. *)
Definition round_half_even_shift (m : Z) (k : positive) : Z :=
  let q := Z.shiftr m (Zpos k) in
  let r := m - Z.shiftl q (Zpos k) in
  let half := Z.shiftl 1 (Zpos k - 1) in
  if Z.ltb r half then q
  else if Z.ltb half r then q + 1
  else if Z.even q then q else q + 1.

Definition py_round (x : float) : res Z :=
  match x with
  | S754_zero _ => Ok 0
  | S754_infinity _ => Err OverflowError
  | S754_nan => Err ValueError
  | S754_finite s m e =>
      let mag :=
        match e with
        | Z0 => Zpos m
        | Zpos _ => Z.shiftl (Zpos m) e
        | Zneg k => round_half_even_shift (Zpos m) k
        end in
      Ok (if s then - mag else mag)
  end.

(** ** Signs

    A non-negative operand stays non-negative through division,
    multiplication and rounding: every finite, zero or infinite result of
    the operations on non-negative inputs carries the sign bit [false]. *)

Definition sign_nonneg (f : float) : bool :=
  match f with
  | S754_zero s | S754_infinity s | S754_finite s _ _ => negb s
  | S754_nan => true
  end.

Lemma binary_round_aux_nonneg mx ex lx :
  sign_nonneg (binary_round_aux prec emax false mx ex lx) = true.
Proof.
  unfold binary_round_aux.
  repeat match goal with |- context [let '(_, _) := ?p in _] => destruct p end.
  destruct (shr_m _); [reflexivity| |reflexivity].
  destruct (Z.leb _ _); reflexivity.
Qed.

Lemma float_of_int_nonneg n f :
  0 <= n -> float_of_int n = Ok f -> sign_nonneg f = true.
Proof.
  intros Hn. unfold float_of_int, check_overflow, binary_normalize, binary_round.
  destruct n as [|p|p]; [intros [= <-]; reflexivity| |lia].
  destruct (shl_align _ _ _) as [mz ez].
  pose proof (binary_round_aux_nonneg (Zpos mz) ez loc_Exact) as H.
  destruct (binary_round_aux _ _ _ _ _ _); try discriminate; intros [= <-]; exact H.
Qed.

Lemma py_int_truediv_nonneg a b f :
  0 <= a -> 0 <= b -> py_int_truediv a b = Ok f -> sign_nonneg f = true.
Proof.
  intros Ha Hb. unfold py_int_truediv, check_overflow.
  destruct (Z.eqb_spec b 0); [discriminate|].
  destruct (Z.eqb_spec a 0).
  - intros [= <-]. simpl. destruct (Z.ltb_spec b 0); [lia|reflexivity].
  - destruct a as [|pa|pa]; [lia| |lia]. destruct b as [|pb|pb]; [lia| |lia].
    unfold SFdiv. simpl. destruct (SFdiv_core_binary _ _ _ _ _ _) as [[mz ez] lz].
    pose proof (binary_round_aux_nonneg mz ez lz) as H.
    destruct (binary_round_aux _ _ _ _ _ _); try discriminate; intros [= <-]; exact H.
Qed.

Lemma SFmul_nonneg x y :
  sign_nonneg x = true -> sign_nonneg y = true -> sign_nonneg (SFmul prec emax x y) = true.
Proof.
  destruct x as [sx|sx| |sx mx ex], y as [sy|sy| |sy my ey]; simpl;
    try destruct sx; try destruct sy; try discriminate; intros _ _;
    try reflexivity; apply binary_round_aux_nonneg.
Qed.

Lemma py_float_mul_int_nonneg x n y :
  sign_nonneg x = true -> 0 <= n -> py_float_mul_int x n = Ok y -> sign_nonneg y = true.
Proof.
  intros Hx Hn. unfold py_float_mul_int.
  destruct (float_of_int n) as [f|] eqn:Hf; [|discriminate].
  intros [= <-]. apply SFmul_nonneg; [exact Hx | exact (float_of_int_nonneg n f Hn Hf)].
Qed.

Lemma round_half_even_shift_nonneg m k : 0 <= m -> 0 <= round_half_even_shift m k.
Proof.
  intros Hm. unfold round_half_even_shift.
  pose proof (Z.shiftr_nonneg m (Zpos k)) as Hq.
  repeat (destruct (Z.ltb _ _) || destruct (Z.even _)); lia.
Qed.

(** Rounding half to even to a multiple of [2^k] is off by at most half
    a unit: [|m - round(m / 2^k) * 2^k| <= 2^k / 2]. *)
Lemma round_half_even_shift_error m k :
  0 <= m -> 2 * Z.abs (m - round_half_even_shift m k * 2 ^ Zpos k) <= 2 ^ Zpos k.
Proof.
  intros Hm. unfold round_half_even_shift. cbv zeta.
  rewrite Z.shiftr_div_pow2, Z.shiftl_mul_pow2, Z.shiftl_1_l by lia.
  assert (Hp : 2 ^ Zpos k = 2 * 2 ^ (Zpos k - 1)).
  { rewrite <- Z.pow_succ_r by lia. f_equal. lia. }
  pose proof (Z.div_mod m (2 ^ Zpos k) ltac:(lia)).
  pose proof (Z.mod_pos_bound m (2 ^ Zpos k) ltac:(lia)).
  remember (m / 2 ^ Zpos k) as q. remember (m mod 2 ^ Zpos k) as r.
  remember (2 ^ Zpos k) as P. remember (2 ^ (Zpos k - 1)) as h.
  assert (E0 : m - q * P = r) by (rewrite H; ring).
  assert (E1 : m - (q + 1) * P = r - P) by (rewrite H; ring).
  rewrite E0.
  destruct (r <? h) eqn:Ha; [apply Z.ltb_lt in Ha; cbv iota; rewrite E0; lia | apply Z.ltb_ge in Ha].
  destruct (h <? r) eqn:Hb; [apply Z.ltb_lt in Hb; cbv iota; rewrite E1; lia | apply Z.ltb_ge in Hb].
  destruct (Z.even q); cbv iota; rewrite ?E0, ?E1; lia.
Qed.

Lemma py_round_nonneg x k : sign_nonneg x = true -> py_round x = Ok k -> 0 <= k.
Proof.
  destruct x as [s|s| |s m e]; simpl; try discriminate.
  - intros _ [= <-]. lia.
  - destruct s; [discriminate|]. intros _ [= <-].
    destruct e as [|e|e]; [lia| |apply round_half_even_shift_nonneg; lia].
    apply Z.shiftl_nonneg. lia.
Qed.

(** ** Magnitudes

    [Zdigits2 m + e] bounds the magnitude of [m * 2^e] by a power of two.
    Rounding raises it by at most one, and the exponent it produces is
    bounded by the input's; so the floats of the program (quotients of a
    count by a larger total, times 99) stay far from the overflow
    threshold, and the operations return finite values. *)

Lemma digits2_pos_size p : digits2_pos p = Pos.size p.
Proof. induction p as [p IH|p IH|]; simpl; rewrite ?IH; reflexivity. Qed.

Lemma Zdigits2_log2 m : 0 < m -> Zdigits2 m = Z.log2 m + 1.
Proof.
  destruct m as [|p|p]; try lia. intros _. simpl. rewrite digits2_pos_size.
  destruct p as [p|p|]; simpl; lia.
Qed.

Lemma Zdigits2_nonneg m : 0 <= Zdigits2 m.
Proof. destruct m; simpl; lia. Qed.

Lemma Zdigits2_mono a b : 0 <= a <= b -> Zdigits2 a <= Zdigits2 b.
Proof.
  intros Hab. destruct (Z.eq_dec a 0) as [->|Ha]; [apply Zdigits2_nonneg|].
  rewrite !Zdigits2_log2 by lia. pose proof (Z.log2_le_mono a b). lia.
Qed.

Lemma Zdigits2_succ a : 0 <= a -> Zdigits2 (a + 1) <= Zdigits2 a + 1.
Proof.
  intros Ha. destruct (Z.eq_dec a 0) as [->|Ha']; [reflexivity|].
  rewrite !Zdigits2_log2 by lia. replace (a + 1) with (Z.succ a) by lia.
  pose proof (Z.log2_succ_le a). lia.
Qed.

Lemma Zdigits2_shiftr m n :
  0 <= m -> 0 <= n -> Zdigits2 (Z.shiftr m n) <= Z.max 0 (Zdigits2 m - n).
Proof.
  intros Hm Hn. destruct (Z.eq_dec m 0) as [->|Hm']; [rewrite Z.shiftr_0_l; change (Zdigits2 0) with 0; lia|].
  destruct (Z_lt_le_dec (Z.log2 m) n) as [Hlt|Hge].
  - rewrite Z.shiftr_eq_0 by lia. change (Zdigits2 0) with 0. lia.
  - assert (0 < Z.shiftr m n).
    { rewrite Z.shiftr_div_pow2 by lia. apply Z.div_str_pos.
      pose proof (Z.pow_le_mono_r 2 n (Z.log2 m) ltac:(lia) Hge).
      pose proof (Z.log2_spec m ltac:(lia)). lia. }
    rewrite !Zdigits2_log2, Z.log2_shiftr by lia. lia.
Qed.

Lemma Zdigits2_mul a b : 0 <= a -> 0 <= b -> Zdigits2 (a * b) <= Zdigits2 a + Zdigits2 b.
Proof.
  intros Ha Hb. pose proof (Zdigits2_nonneg a). pose proof (Zdigits2_nonneg b).
  destruct (Z.eq_dec a 0) as [->|Ha']; [simpl; lia|].
  destruct (Z.eq_dec b 0) as [->|Hb']; [rewrite Z.mul_0_r; simpl Zdigits2 at 1; lia|].
  rewrite !Zdigits2_log2 by nia. pose proof (Z.log2_mul_above a b Ha Hb). lia.
Qed.

Lemma Zdigits2_le_pow a k : 0 <= k -> 0 <= a <= 2 ^ k -> Zdigits2 a <= k + 1.
Proof.
  intros Hk Ha. destruct (Z.eq_dec a 0) as [->|Ha']; [change (Zdigits2 0) with 0; lia|].
  rewrite Zdigits2_log2 by lia. pose proof (Z.log2_le_mono a (2 ^ k) ltac:(lia)).
  rewrite Z.log2_pow2 in * by lia. lia.
Qed.

(** [shr_1] halves the mantissa; [iter_pos shr_1 p] shifts it right by [p]. *)
Lemma shr_1_div2 mrs : 0 <= shr_m mrs -> shr_m (shr_1 mrs) = Z.div2 (shr_m mrs).
Proof. destruct mrs as [m r s]. simpl. destruct m as [|[p|p|]|p]; simpl; reflexivity || lia. Qed.

Lemma iter_pos_iter {A : Type} (f : A -> A) p x : iter_pos f p x = Pos.iter f x p.
Proof.
  revert x. induction p as [p IH|p IH|]; intros x; simpl; rewrite ?IH; [|reflexivity|reflexivity].
  rewrite !Pos.iter_swap. reflexivity.
Qed.

Lemma iter_shr_1 p mrs :
  0 <= shr_m mrs -> shr_m (iter_pos shr_1 p mrs) = Z.shiftr (shr_m mrs) (Zpos p).
Proof.
  intros Hm. rewrite iter_pos_iter. induction p as [|p IH] using Pos.peano_ind.
  - simpl. rewrite shr_1_div2 by exact Hm. apply Z.div2_spec.
  - assert (0 <= shr_m (Pos.iter shr_1 mrs p)) by (rewrite IH; apply Z.shiftr_nonneg; exact Hm).
    rewrite Pos.iter_succ, shr_1_div2, IH, Z.div2_spec, Z.shiftr_shiftr by (assumption || lia).
    f_equal. lia.
Qed.

Lemma shr_spec mrs e n :
  0 <= shr_m mrs ->
  0 <= shr_m (fst (shr mrs e n)) /\ snd (shr mrs e n) = Z.max e (e + n) /\
  Zdigits2 (shr_m (fst (shr mrs e n))) + snd (shr mrs e n)
    <= Z.max (snd (shr mrs e n)) (Zdigits2 (shr_m mrs) + e).
Proof.
  intros Hm. destruct n as [|p|p]; simpl; try lia.
  rewrite iter_shr_1 by exact Hm.
  pose proof (Zdigits2_shiftr (shr_m mrs) (Zpos p) Hm ltac:(lia)).
  split; [apply Z.shiftr_nonneg; exact Hm | lia].
Qed.

Lemma shr_fexp_spec m e l :
  0 <= m ->
  0 <= shr_m (fst (shr_fexp prec emax m e l)) /\
  snd (shr_fexp prec emax m e l) = Z.max e (fexp prec emax (Zdigits2 m + e)) /\
  Zdigits2 (shr_m (fst (shr_fexp prec emax m e l))) + snd (shr_fexp prec emax m e l)
    <= Z.max (snd (shr_fexp prec emax m e l)) (Zdigits2 m + e).
Proof.
  intros Hm. unfold shr_fexp.
  assert (Hr : shr_m (shr_record_of_loc m l) = m) by (destruct l as [|[]]; reflexivity).
  pose proof (shr_spec (shr_record_of_loc m l) e (fexp prec emax (Zdigits2 m + e) - e)) as H.
  rewrite Hr in H. destruct (H Hm) as (H1 & H2 & H3). split; [exact H1|]. split; [rewrite H2; lia | exact H3].
Qed.

Lemma round_nearest_even_bounds m l : m <= round_nearest_even m l <= m + 1.
Proof. destruct l as [|[]]; simpl; try destruct (Z.even m); lia. Qed.

(** A zero, or a finite float of exponent at most [E] and magnitude at
    most [B]; the sign is not constrained. *)
Definition finite_within (f : float) (E B : Z) : Prop :=
  match f with
  | S754_zero _ => True
  | S754_finite _ m e => e <= E /\ Zdigits2 (Zpos m) + e <= B
  | _ => False
  end.

(** Rounding a non-negative mantissa of magnitude [M]: the result is a zero
    or a finite float (never an infinity or a NaN) as long as the exponent
    bound stays below [emax - prec], it keeps the sign, and its magnitude is
    at most [max(ex, emin, M) + 1]. *)
Lemma binary_round_aux_within sx mx ex lx :
  0 <= mx ->
  Z.max ex (Z.max (-1074) (Zdigits2 mx + ex - 52)) <= emax - prec ->
  sign_nonneg (binary_round_aux prec emax sx mx ex lx) = negb sx /\
  finite_within (binary_round_aux prec emax sx mx ex lx)
    (Z.max ex (Z.max (-1074) (Zdigits2 mx + ex - 52)))
    (Z.max ex (Z.max (-1074) (Zdigits2 mx + ex)) + 1).
Proof.
  intros Hm Hb. unfold binary_round_aux.
  destruct (shr_fexp_spec mx ex lx Hm) as (H1 & He1 & Hd1).
  destruct (shr_fexp prec emax mx ex lx) as [mrs1 e1]. simpl in H1, He1, Hd1.
  set (r := round_nearest_even (shr_m mrs1) (loc_of_shr_record mrs1)).
  pose proof (round_nearest_even_bounds (shr_m mrs1) (loc_of_shr_record mrs1)) as Hr.
  fold r in Hr.
  assert (Hdr : Zdigits2 r <= Zdigits2 (shr_m mrs1) + 1).
  { pose proof (Zdigits2_mono r (shr_m mrs1 + 1) ltac:(lia)).
    pose proof (Zdigits2_succ (shr_m mrs1) H1). lia. }
  destruct (shr_fexp_spec r e1 loc_Exact ltac:(lia)) as (H2 & He2 & Hd2).
  destruct (shr_fexp prec emax r e1 loc_Exact) as [mrs2 e2]. simpl in H2, He2, Hd2.
  unfold fexp, emin, prec, emax in *.
  destruct (shr_m mrs2) as [|m|m] eqn:Hm2; [split; [destruct sx|]; reflexivity| |lia].
  destruct (Z.leb_spec e2 (1024 - 53)); [|lia].
  split; [destruct sx; reflexivity|]. cbn [finite_within].
  change IntDef.Z.max with Z.max in *. lia.
Qed.

(** The quotient core of [SFdiv] on integers [pa <= pb]: a non-negative
    mantissa of magnitude at most 1 at an exponent below [-52]. *)
Lemma SFdiv_core_ratio pa pb : Zpos pa <= Zpos pb ->
  let '(q, e, l) := SFdiv_core_binary prec emax (Zpos pa) 0 (Zpos pb) 0 in
  0 <= q /\ e <= -53 /\ Zdigits2 q + e <= 1.
Proof.
  intros Hab. unfold SFdiv_core_binary.
  rewrite !Z.add_0_r, Z.sub_0_r.
  pose proof (Zdigits2_mono (Zpos pa) (Zpos pb) ltac:(lia)) as Hd.
  try change IntDef.Z.min with Z.min. try change IntDef.Z.shiftl with Z.shiftl.
  try change IntDef.Z.div_eucl with Z.div_eucl.
  set (e' := Z.min (fexp prec emax (Zdigits2 (Zpos pa) - Zdigits2 (Zpos pb))) 0).
  assert (He' : -1074 <= e' <= -53).
  { subst e'. unfold fexp, emin, prec, emax. try change IntDef.Z.max with Z.max. lia. }
  replace (0 - e') with (Zpos (Z.to_pos (- e'))) by lia.
  rewrite Z.shiftl_mul_pow2 by lia.
  destruct (Z.div_eucl _ _) as [q r] eqn:Hdiv.
  set (s := Zpos (Z.to_pos (- e'))) in *.
  assert (Hs : s = - e') by (subst s; lia).
  assert (Hq : q = Zpos pa * 2 ^ s / Zpos pb) by (unfold Z.div; rewrite Hdiv; reflexivity).
  pose proof (Z.pow_pos_nonneg 2 s ltac:(lia) ltac:(lia)) as Hp.
  assert (Hq0 : 0 <= q) by (rewrite Hq; apply Z.div_pos; nia).
  assert (Hqs : q <= 2 ^ s) by (rewrite Hq; apply Z.div_le_upper_bound; nia).
  pose proof (Zdigits2_le_pow q s ltac:(lia) (conj Hq0 Hqs)). lia.
Qed.

(** [a / b] for [0 <= a <= b] and [0 < b] never raises: it is a
    non-negative zero or a finite float of magnitude at most 2 and a
    non-positive exponent. *)
Lemma py_int_truediv_ratio a b :
  0 <= a <= b -> 0 < b ->
  exists f, py_int_truediv a b = Ok f /\ sign_nonneg f = true /\ finite_within f 0 2.
Proof.
  intros Ha Hb. unfold py_int_truediv.
  destruct (Z.eqb_spec b 0); [lia|].
  destruct (Z.eqb_spec a 0).
  { exists (S754_zero (Z.ltb b 0)). destruct (Z.ltb_spec b 0); [lia|]. repeat split. }
  destruct a as [|pa|pa]; [lia| |lia]. destruct b as [|pb|pb]; [lia| |lia].
  unfold float_exact_of_Z, SFdiv. change (xorb false false) with false.
  pose proof (SFdiv_core_ratio pa pb ltac:(lia)) as Hc.
  destruct (SFdiv_core_binary _ _ _ _ _ _) as [[q e] l].
  destruct Hc as (Hq & He & Hqe).
  destruct (binary_round_aux_within false q e l Hq ltac:(unfold prec, emax; lia)) as [Hs Hw].
  destruct (binary_round_aux prec emax false q e l) as [s|s| |s m e0];
    cbn [finite_within] in Hw; try contradiction.
  - exists (S754_zero s). repeat split. exact Hs.
  - exists (S754_finite s m e0). split; [reflexivity|]. split; [exact Hs|].
    cbn [finite_within]. lia.
Qed.

Lemma float_of_int_99 : float_of_int 99 = Ok (S754_finite false 6966505673588736 (-46)).
Proof. vm_compute. reflexivity. Qed.

(** Scaling such a quotient by 99 stays finite and non-negative. *)
Lemma py_float_mul_99_within x :
  sign_nonneg x = true -> finite_within x 0 2 ->
  exists y, py_float_mul_int x 99 = Ok y /\ sign_nonneg y = true /\ finite_within y 0 10.
Proof.
  intros Hs Hw. unfold py_float_mul_int. rewrite float_of_int_99. simpl res_bind.
  destruct x as [sx|sx| |sx m e]; cbn [finite_within] in Hw; try contradiction.
  - exists (S754_zero (xorb sx false)). destruct sx; [discriminate|]. repeat split.
  - destruct sx; [discriminate|]. unfold SFmul. change (xorb false false) with false.
    assert (Hc : Zdigits2 (Zpos 6966505673588736) = 53) by reflexivity.
    pose proof (Zdigits2_mul (Zpos m) (Zpos 6966505673588736) ltac:(lia) ltac:(lia)) as Hmul.
    change (Zpos m * Zpos 6966505673588736) with (Zpos (m * 6966505673588736)) in Hmul.
    destruct (binary_round_aux_within false (Zpos (m * 6966505673588736)) (e + -46) loc_Exact
                ltac:(lia) ltac:(unfold prec, emax; lia)) as [Hs' Hw'].
    destruct (binary_round_aux prec emax false _ _ loc_Exact) as [s|s| |s m' e'];
      cbn [finite_within] in Hw'; try contradiction.
    + exists (S754_zero s). repeat split. exact Hs'.
    + exists (S754_finite s m' e'). split; [reflexivity|]. split; [exact Hs'|].
      cbn [finite_within]. lia.
Qed.

Lemma py_round_within x E B : finite_within x E B -> exists k, py_round x = Ok k.
Proof. destruct x; cbn [finite_within]; try contradiction; intros _; simpl; eauto. Qed.
