(* ===== verification/PyStr.v ===== *)
(** * Python's [str] of integers, and a reader for what it prints

    [str(n)] of a Python int is stdpp's [pretty] on [Z]: the decimal
    digits, most significant first, no leading zeros, a [-] before a
    negative number.  This file gives a reader for such strings
    ([read_int], and [read_decimal] for ["123.4567"]) and proves that it
    reads back what [pretty] writes, followed by any text that does not
    start with a digit ([read_int_pretty]).  The display's theorems use it
    to say what a printed cell denotes. *)

From Stdlib Require Import ZArith QArith Lia Ascii.
From stdpp Require Import base list strings pretty decidable.
From S2P Require Import Prelude.

Open Scope N_scope.

(** ** The reader *)

Definition digit_value (c : ascii) : option N :=
  let n := N_of_ascii c in if (48 <=? n) && (n <=? 57) then Some (n - 48) else None.

(** The longest run of digits: the value [acc] extended by it, the
    count [len] extended by its length, and the text after it. *)
Fixpoint read_digits (acc : N) (len : nat) (s : string) : N * nat * string :=
  match s with
  | String c s' =>
      match digit_value c with
      | Some d => read_digits (acc * 10 + d) (S len) s'
      | None => (acc, len, s)
      end
  | EmptyString => (acc, len, EmptyString)
  end.

(** A non-empty run of digits. *)
Definition read_nat (s : string) : option (N * nat * string) :=
  let '(v, n, rest) := read_digits 0 0 s in
  if (n =? 0)%nat then None else Some (v, n, rest).

(** An optional [-] and a run of digits. *)
Definition read_int (s : string) : option (Z * string) :=
  match read_nat s with
  | Some (v, _, rest) => Some (Z.of_N v, rest)
  | None =>
      match s with
      | String c s' =>
          if Ascii.eqb c "-" then option_map (fun '(v, _, rest) => (- Z.of_N v, rest)%Z) (read_nat s')
          else None
      | EmptyString => None
      end
  end.

(** [s] with the prefix [p] removed. *)
Fixpoint strip_prefix (p s : string) : option string :=
  match p with
  | EmptyString => Some s
  | String c p' =>
      match s with
      | String c' s' => if Ascii.eqb c c' then strip_prefix p' s' else None
      | EmptyString => None
      end
  end.

(** A string [ddd.ddd] read as the rational it denotes. *)
Definition read_unsigned (s : string) : option Q :=
  match read_nat s with
  | Some (a, _, String c frac) =>
      if Ascii.eqb c "." then
        match read_nat frac with
        | Some (b, k, EmptyString) =>
            Some (inject_Z (Z.of_N a) + inject_Z (Z.of_N b) / inject_Z (10 ^ Z.of_nat k))%Q
        | _ => None
        end
      else None
  | _ => None
  end.

(** The same with an optional [-]. *)
Definition read_decimal (s : string) : option Q :=
  match read_unsigned s with
  | Some q => Some q
  | None =>
      match s with
      | String c s' => if Ascii.eqb c "-" then option_map Qopp (read_unsigned s') else None
      | EmptyString => None
      end
  end.

(** [k] zeros, as the padding of a fixed-width field. *)
Fixpoint zeros (k : nat) : string :=
  match k with O => EmptyString | S k => String "0" (zeros k) end.

(** The text does not start with a digit. *)
Definition nondigit_head (s : string) : Prop :=
  match s with String c _ => digit_value c = None | EmptyString => True end.

(** ** What [pretty] writes *)

Lemma string_app_nil_r s : s +:+ "" = s.
Proof.
  induction s as [|c s IH]; [done|]. change (String c s +:+ "") with (String c (s +:+ "")).
  by rewrite IH.
Qed.

Lemma string_length_app s t : String.length (s +:+ t) = (String.length s + String.length t)%nat.
Proof.
  induction s as [|c s IH]; [done|]. change (String c s +:+ t) with (String c (s +:+ t)).
  cbn [String.length]. by rewrite IH.
Qed.

Lemma digit_value_char d : d < 10 -> digit_value (pretty_N_char d) = Some d.
Proof.
  intros Hd. assert (d = 0 \/ d = 1 \/ d = 2 \/ d = 3 \/ d = 4 \/ d = 5 \/ d = 6 \/ d = 7
                     \/ d = 8 \/ d = 9) as H by lia.
  repeat (destruct H as [->|H]; [reflexivity|]). subst. reflexivity.
Qed.

Lemma read_digits_stop acc len s : nondigit_head s -> read_digits acc len s = (acc, len, s).
Proof. destruct s as [|c s]; cbn; [done|]. by intros ->. Qed.

Lemma pretty_N_go_app x s t : pretty_N_go x (s +:+ t) = pretty_N_go x s +:+ t.
Proof.
  revert s. induction (N.lt_wf_0 x) as [x _ IH]; intros s.
  destruct (decide (x = 0)) as [->|Hx]; [by rewrite !pretty_N_go_0|].
  rewrite !(pretty_N_go_step x) by lia.
  rewrite <- IH by (apply N.div_lt; lia). reflexivity.
Qed.

(** Reading the digits of [x] shifts the value read so far by their
    number [L] and adds [x]. *)
Lemma read_digits_pretty_N_go x s acc len :
  exists L, String.length (pretty_N_go x s) = (L + String.length s)%nat /\
    (0 < x -> (0 < L)%nat) /\ x < 10 ^ N.of_nat L /\
    read_digits acc len (pretty_N_go x s) = read_digits (acc * 10 ^ N.of_nat L + x) (len + L) s.
Proof.
  revert s acc len. induction (N.lt_wf_0 x) as [x _ IH]; intros s acc len.
  destruct (decide (x = 0)) as [->|Hx].
  { exists 0%nat. rewrite pretty_N_go_0, N.mul_1_r, N.add_0_r, Nat.add_0_r. split_and!; done || lia. }
  rewrite pretty_N_go_step by lia.
  destruct (IH (x `div` 10) ltac:(apply N.div_lt; lia) (String (pretty_N_char (x `mod` 10)) s) acc len)
    as (L & Hlen & _ & Hlt & ->).
  exists (S L). cbn [read_digits]. rewrite digit_value_char by (apply N.mod_lt; lia).
  rewrite Nat2N.inj_succ, N.pow_succ_r', <- Nat.add_succ_comm. cbn [String.length] in Hlen.
  pose proof (N.div_mod x 10 ltac:(lia)). pose proof (N.mod_lt x 10 ltac:(lia)).
  split_and!; [lia | lia | nia |]. f_equal.
  remember (x `div` 10) as q. remember (x `mod` 10) as r. rewrite H. ring.
Qed.

Lemma pretty_N_go_length_le k x s :
  x < 10 ^ N.of_nat k -> (String.length (pretty_N_go x s) <= k + String.length s)%nat.
Proof.
  revert x s. induction k as [|k IH]; intros x s Hx.
  { replace x with 0 by (cbn in Hx; lia). by rewrite pretty_N_go_0. }
  destruct (decide (x = 0)) as [->|?]; [rewrite pretty_N_go_0; lia|].
  rewrite pretty_N_go_step by lia. rewrite Nat2N.inj_succ, N.pow_succ_r' in Hx.
  etrans; [apply IH; apply N.Div0.div_lt_upper_bound; lia|]. cbn. lia.
Qed.

(** [pretty] of a positive [z] is [pretty_N_go] of it. *)
Lemma pretty_Z_pos z : (0 < z)%Z -> pretty z = pretty_N_go (Z.to_N z) "".
Proof. intros Hz. destruct z as [|p|p]; [lia| |lia]. reflexivity. Qed.

Lemma read_nat_pretty z s :
  (0 <= z)%Z -> nondigit_head s -> exists L, read_nat (pretty z +:+ s) = Some (Z.to_N z, L, s).
Proof.
  intros Hz Hs. unfold read_nat. destruct (Z.eq_dec z 0%Z) as [->|Hz0].
  { exists 1%nat. change (read_digits 0 0 (pretty 0%Z +:+ s)) with (read_digits 0 1 s).
    rewrite (read_digits_stop 0 1 s Hs). reflexivity. }
  rewrite pretty_Z_pos, <- pretty_N_go_app by lia. change ("" +:+ s) with s.
  destruct (read_digits_pretty_N_go (Z.to_N z) s 0 0) as (L & _ & HL & _ & ->).
  rewrite read_digits_stop by done. cbn [N.mul N.add]. exists L.
  destruct L; [specialize (HL ltac:(lia)); lia|]. reflexivity.
Qed.

(** [read_int] reads back [str(z)] of every integer. *)
Lemma read_int_pretty z s : nondigit_head s -> read_int (pretty z +:+ s) = Some (z, s).
Proof.
  intros Hs. destruct (decide (0 <= z)%Z) as [Hz|Hz].
  - destruct (read_nat_pretty z s Hz Hs) as [L HL]. unfold read_int. rewrite HL.
    by rewrite Z2N.id.
  - destruct z as [|p|p]; [lia..|]. unfold read_int.
    change (pretty (Zneg p) +:+ s) with (String "-" (pretty (Zpos p) +:+ s)).
    destruct (read_nat_pretty (Zpos p) s ltac:(lia) Hs) as [L HL].
    assert (Hneg : read_nat (String "-" (pretty (Zpos p) +:+ s)) = None) by reflexivity.
    rewrite Hneg. cbn [Ascii.eqb Bool.eqb andb]. rewrite HL. reflexivity.
Qed.

Lemma strip_prefix_app p s : strip_prefix p (p +:+ s) = Some s.
Proof.
  induction p as [|c p IH]; [done|]. change (String c p +:+ s) with (String c (p +:+ s)).
  cbn [strip_prefix]. by rewrite Ascii.eqb_refl.
Qed.

Lemma read_digits_zeros k acc len s :
  read_digits acc len (zeros k +:+ s) = read_digits (acc * 10 ^ N.of_nat k) (len + k) s.
Proof.
  revert acc len. induction k as [|k IH]; intros acc len.
  - by rewrite N.mul_1_r, Nat.add_0_r.
  - change (read_digits acc len (zeros (S k) +:+ s))
      with (read_digits (acc * 10 + 0) (S len) (zeros k +:+ s)).
    rewrite IH, Nat2N.inj_succ, N.pow_succ_r'.
    f_equal; [ring | lia].
Qed.

(** A number printed in a field of [w] digits padded with zeros reads
    back, with its width. *)
Lemma read_nat_padded w z s :
  (0 < w)%nat -> (0 <= z < 10 ^ Z.of_nat w)%Z -> nondigit_head s ->
  read_nat (zeros (w - String.length (pretty z)) +:+ pretty z +:+ s) = Some (Z.to_N z, w, s).
Proof.
  intros Hw Hz Hs. unfold read_nat. rewrite read_digits_zeros, N.mul_0_l, Nat.add_0_l.
  destruct (Z.eq_dec z 0%Z) as [->|Hz0].
  { change (String.length (pretty 0%Z)) with 1%nat.
    change (read_digits 0 (w - 1) (pretty 0%Z +:+ s)) with (read_digits 0 (S (w - 1)) s).
    rewrite read_digits_stop by done. replace (S (w - 1)) with w by lia.
    destruct w; [lia|]. reflexivity. }
  rewrite pretty_Z_pos by lia. set (x := Z.to_N z).
  assert (Hx : x < 10 ^ N.of_nat w).
  { subst x. apply N2Z.inj_lt. rewrite N2Z.inj_pow, Z2N.id, nat_N_Z by lia. lia. }
  pose proof (pretty_N_go_length_le w x "" Hx) as Hle.
  assert (Happ : pretty_N_go x s = pretty_N_go x "" +:+ s) by exact (pretty_N_go_app x "" s).
  rewrite <- Happ.
  destruct (read_digits_pretty_N_go x s 0 (w - String.length (pretty_N_go x "")))
    as (L & HL & _ & _ & ->).
  rewrite Happ, string_length_app in HL. cbn [String.length] in Hle.
  rewrite read_digits_stop by done.
  replace (w - _ + L)%nat with w by lia. destruct w as [|w]; [lia|].
  cbn [Nat.eqb]. by rewrite N.mul_0_l, N.add_0_l.
Qed.
