(* ===== verification/FloatError.v ===== *)
(** * Rounding errors of CPython's float operations

    [PyFloat] computes with the Standard Library's [SpecFloat], which
    implements IEEE 754 rounding by shifting the mantissa right while
    recording where the discarded bits put the exact value (a
    [location]: exactly on the grid, below, at or above the midpoint),
    then rounding to nearest, ties to even.  This file gives that
    mechanism its meaning in [Q] ([loc_ok], [shr_ok]) and derives the
    error of one rounding ([binary_round_aux_error]): the result is
    within three units of the last place of the exact value.  From it:
    the error of [a / b] on ints ([py_int_truediv_error]) and of [x + y]
    on non-negative doubles ([py_float_add_error]).  [float_Q] is the
    exact value of a double. *)

From Stdlib Require Import ZArith QArith Qfield Qabs Qpower Lqa Lia SpecFloat.
From stdpp Require Import base tactics decidable.
From S2P Require Import Prelude PyFloat.

Open Scope Z_scope.

(** ** The value of a double *)

Definition sign_Q (s : bool) : Q := if s then -1 else 1.

Definition mag_Q (m : positive) (e : Z) : Q :=
  inject_Z (Zpos m) * (if Z.leb 0 e then inject_Z (2 ^ e) else / inject_Z (2 ^ (- e))).

(** [math.isfinite(x)]. *)
Definition is_finite (x : float) : bool :=
  match x with S754_zero _ | S754_finite _ _ _ => true | _ => false end.

(** The exact value of a double: the sign and [m * 2^e]; [0] for the
    zeros, infinities and NaN. *)
Definition float_Q (x : float) : Q :=
  match x with
  | S754_finite s m e => sign_Q s * mag_Q m e
  | _ => 0
  end.

(** ** What a location means

    With the exact value [x = (m + d) * 2^e], [0 <= d < 1], the location
    says where [d] lies with respect to [0] and [1/2]. *)

Definition loc_ok (l : location) (d : Q) : Prop :=
  match l with
  | loc_Exact => d == 0
  | loc_Inexact Lt => 0 < d /\ d < 1 # 2
  | loc_Inexact Eq => d == 1 # 2
  | loc_Inexact Gt => 1 # 2 < d /\ d < 1
  end%Q.

(** The shift record [mrs] at exponent [e] describes [x]. *)
Definition shr_ok (x : Q) (mrs : shr_record) (e : Z) : Prop :=
  exists d, (x == (inject_Z (shr_m mrs) + d) * 2 ^ e)%Q /\ loc_ok (loc_of_shr_record mrs) d.

Lemma loc_ok_range l d : loc_ok l d -> (0 <= d /\ d < 1)%Q.
Proof. destruct l as [|[]]; cbn; intros; lra. Qed.

Lemma loc_of_record_of_loc m l : loc_of_shr_record (shr_record_of_loc m l) = l.
Proof. by destruct l as [|[]]. Qed.

Lemma shr_m_record_of_loc m l : shr_m (shr_record_of_loc m l) = m.
Proof. by destruct l as [|[]]. Qed.

Lemma pow2_pos e : (0 < 2 ^ e)%Q.
Proof. apply Qpower_0_lt. lra. Qed.

Lemma pow2_succ e : (2 ^ (e + 1) == 2 * 2 ^ e)%Q.
Proof. rewrite Qpower_plus by lra. change (2 ^ 1)%Q with 2%Q. ring. Qed.

Lemma pow2_le e e' : e <= e' -> (2 ^ e <= 2 ^ e')%Q.
Proof. intros He. apply Qpower_le_compat_l; [exact He | lra]. Qed.

Lemma pow2_le_scaled c e e' : (0 <= c)%Q -> e <= e' -> (c * 2 ^ e <= c * 2 ^ e')%Q.
Proof.
  intros Hc He. rewrite !(Qmult_comm c). apply Qmult_le_compat_r; [apply pow2_le|]; assumption.
Qed.

(** [mag_Q] is [m * 2^e]. *)
Lemma mag_Q_pow m e : (mag_Q m e == inject_Z (Zpos m) * 2 ^ e)%Q.
Proof.
  unfold mag_Q. destruct (Z.leb_spec 0 e).
  - by rewrite Zpower_Qpower.
  - rewrite Zpower_Qpower by lia. change (inject_Z 2) with 2%Q.
    rewrite <- Qpower_opp, Z.opp_involutive. reflexivity.
Qed.

(** An error bound scales with the unit. *)
Lemma Qabs_scaled a c e : (Qabs a <= c -> Qabs (a * 2 ^ e) <= c * 2 ^ e)%Q.
Proof.
  intros Ha. rewrite Qabs_Qmult, (Qabs_pos (2 ^ e)) by (apply Qlt_le_weak, pow2_pos).
  apply Qmult_le_compat_r; [exact Ha | apply Qlt_le_weak, pow2_pos].
Qed.

(** ** Shifting right keeps the description *)

Lemma shr_1_fields mrs :
  0 <= shr_m mrs ->
  shr_1 mrs = {| shr_m := Z.div2 (shr_m mrs); shr_r := Z.odd (shr_m mrs);
                 shr_s := shr_r mrs || shr_s mrs |}.
Proof. destruct mrs as [m r s]. cbn. intros Hm. destruct m as [|[p|p|]|p]; reflexivity || lia. Qed.

Lemma shr_1_ok x mrs e :
  0 <= shr_m mrs -> shr_ok x mrs e -> shr_ok x (shr_1 mrs) (e + 1).
Proof.
  intros Hm (d & Hx & Hd). rewrite shr_1_fields by exact Hm.
  destruct mrs as [m r s]. cbn [shr_m shr_r shr_s] in *.
  pose proof (Z.div2_odd m) as Hdiv. pose proof (loc_ok_range _ _ Hd) as Hd01.
  exists ((inject_Z (Z.b2z (Z.odd m)) + d) * (1 # 2))%Q. split.
  - assert (Hm' : (inject_Z m == 2 * inject_Z (Z.div2 m) + inject_Z (Z.b2z (Z.odd m)))%Q).
    { rewrite Hdiv at 1. rewrite inject_Z_plus, inject_Z_mult. reflexivity. }
    rewrite Hx, pow2_succ, Hm'. cbn [shr_m]. generalize (2 ^ e)%Q. intros P. field.
  - destruct (Z.odd m), r, s; cbn in Hd |- *; unfold inject_Z; lra.
Qed.

Lemma iter_shr_1_ok x p mrs e :
  0 <= shr_m mrs -> shr_ok x mrs e -> shr_ok x (iter_pos shr_1 p mrs) (e + Zpos p).
Proof.
  intros Hm Hx. rewrite iter_pos_iter. induction p as [|p IH] using Pos.peano_ind.
  - exact (shr_1_ok x mrs e Hm Hx).
  - rewrite Pos.iter_succ. replace (e + Zpos (Pos.succ p)) with (e + Zpos p + 1) by lia.
    apply shr_1_ok; [|exact IH].
    rewrite <- iter_pos_iter, iter_shr_1 by exact Hm. apply Z.shiftr_nonneg. exact Hm.
Qed.

Lemma shr_ok_shr x mrs e n :
  0 <= shr_m mrs -> shr_ok x mrs e -> shr_ok x (fst (shr mrs e n)) (snd (shr mrs e n)).
Proof. intros Hm Hx. destruct n as [|p|p]; [exact Hx| |exact Hx]. exact (iter_shr_1_ok x p mrs e Hm Hx). Qed.

Lemma shr_fexp_ok x m e l :
  0 <= m -> shr_ok x (shr_record_of_loc m l) e ->
  shr_ok x (fst (shr_fexp prec emax m e l)) (snd (shr_fexp prec emax m e l)).
Proof.
  intros Hm Hx. unfold shr_fexp. apply shr_ok_shr; [|exact Hx].
  by destruct l as [|[]].
Qed.

(** Rounding to nearest, ties to even, is off by at most half a unit. *)
Lemma round_nearest_even_error x mrs e :
  shr_ok x mrs e ->
  (Qabs (inject_Z (round_nearest_even (shr_m mrs) (loc_of_shr_record mrs)) * 2 ^ e - x)
   <= (1 # 2) * 2 ^ e)%Q.
Proof.
  intros (d & Hx & Hd).
  assert (Hgen : forall k, (Qabs (inject_Z k - (inject_Z (shr_m mrs) + d)) <= 1 # 2)%Q ->
                 (Qabs (inject_Z k * 2 ^ e - x) <= (1 # 2) * 2 ^ e)%Q).
  { intros k Hk. rewrite Hx.
    setoid_replace (inject_Z k * 2 ^ e - (inject_Z (shr_m mrs) + d) * 2 ^ e)%Q
      with ((inject_Z k - (inject_Z (shr_m mrs) + d)) * 2 ^ e)%Q using relation Qeq by ring.
    by apply Qabs_scaled. }
  destruct mrs as [m r s]. cbn [shr_m] in *. apply Hgen.
  destruct r, s; cbn [loc_of_shr_record round_nearest_even loc_ok] in Hd |- *;
    try destruct (Z.even m); rewrite ?inject_Z_plus; change (inject_Z 1) with 1%Q;
    apply Qabs_Qle_condition; split; lra.
Qed.

(** ** The error of one rounding *)

(** Rounding the exact value [x], described by [mx] at [ex] with the
    location [lx], gives a double within three units of the place
    [max(ex, fexp(digits))] where rounding cuts (a half unit from rounding
    to nearest, at most two from renormalising after a carry), as long
    as the exponent stays below the overflow threshold. *)
Lemma binary_round_aux_error mx ex lx x :
  0 <= mx -> shr_ok x (shr_record_of_loc mx lx) ex ->
  Z.max ex (Z.max (-1074) (Zdigits2 mx + ex - 52)) <= emax - prec ->
  (Qabs (float_Q (binary_round_aux prec emax false mx ex lx) - x)
   <= 3 * 2 ^ (Z.max ex (fexp prec emax (Zdigits2 mx + ex))))%Q.
Proof.
  intros Hm Hx Hb.
  destruct (binary_round_aux_within false mx ex lx Hm Hb) as [_ Hw].
  unfold binary_round_aux in *.
  pose proof (shr_fexp_ok x mx ex lx Hm Hx) as Hx1.
  destruct (shr_fexp_spec mx ex lx Hm) as (H1 & He1 & Hd1).
  destruct (shr_fexp prec emax mx ex lx) as [mrs1 e1]. cbn [fst snd] in *.
  set (r := round_nearest_even (shr_m mrs1) (loc_of_shr_record mrs1)) in *.
  pose proof (round_nearest_even_error x mrs1 e1 Hx1) as Hr. fold r in Hr.
  pose proof (round_nearest_even_bounds (shr_m mrs1) (loc_of_shr_record mrs1)) as Hrb.
  fold r in Hrb.
  assert (Hx2 : shr_ok (inject_Z r * 2 ^ e1) (shr_record_of_loc r loc_Exact) e1).
  { exists 0%Q. split; [cbn [shr_m shr_record_of_loc]; ring | reflexivity]. }
  pose proof (shr_fexp_ok _ r e1 loc_Exact ltac:(lia) Hx2) as Hx3.
  destruct (shr_fexp_spec r e1 loc_Exact ltac:(lia)) as (H2 & He2 & _).
  destruct (shr_fexp prec emax r e1 loc_Exact) as [mrs2 e2]. cbn [fst snd] in *.
  destruct Hx3 as (d2 & Hv2 & Hl2). pose proof (loc_ok_range _ _ Hl2) as Hd2.
  assert (He21 : e2 <= e1 + 1).
  { pose proof (Zdigits2_mono r (shr_m mrs1 + 1) ltac:(lia)).
    pose proof (Zdigits2_succ (shr_m mrs1) H1).
    unfold fexp, emin, prec, emax in *. change IntDef.Z.max with Z.max in *. lia. }
  assert (HB : (Qabs (inject_Z (shr_m mrs2) * 2 ^ e2 - inject_Z r * 2 ^ e1) <= 2 * 2 ^ e1)%Q).
  { rewrite Hv2.
    setoid_replace (inject_Z (shr_m mrs2) * 2 ^ e2 - (inject_Z (shr_m mrs2) + d2) * 2 ^ e2)%Q
      with (- (d2 * 2 ^ e2))%Q using relation Qeq by ring.
    pose proof (pow2_pos e2). rewrite Qabs_opp, Qabs_pos by (apply Qmult_le_0_compat; lra).
    rewrite <- pow2_succ. apply (Qle_trans _ (1 * 2 ^ e2)); [|rewrite Qmult_1_l; apply pow2_le; lia].
    apply Qmult_le_compat_r; lra. }
  assert (Hval : (Qabs (inject_Z (shr_m mrs2) * 2 ^ e2 - x) <= 3 * 2 ^ e1)%Q).
  { setoid_replace (inject_Z (shr_m mrs2) * 2 ^ e2 - x)%Q
      with ((inject_Z (shr_m mrs2) * 2 ^ e2 - inject_Z r * 2 ^ e1)
            + (inject_Z r * 2 ^ e1 - x))%Q using relation Qeq by ring.
    eapply Qle_trans; [apply Qabs_triangle|]. pose proof (pow2_pos e1). lra. }
  rewrite He1 in Hval.
  destruct (shr_m mrs2) as [|p|p] eqn:Hm2; [| |lia].
  - cbn [float_Q]. setoid_replace (0 - x)%Q with (inject_Z 0 * 2 ^ e2 - x)%Q
      using relation Qeq by ring. exact Hval.
  - destruct (Z.leb e2 (emax - prec)); [|contradiction].
    cbn [float_Q sign_Q]. rewrite mag_Q_pow, Qmult_1_l. exact Hval.
Qed.

(** ** Division of ints *)

Lemma inject_Z_neq0 z : z <> 0 -> ~ (inject_Z z == 0)%Q.
Proof. intros Hz H. apply Hz. apply inject_Z_injective. exact H. Qed.

(** The location [SFdiv] computes from the remainder [r] of a division by
    [n] says where [r / n] lies. *)
Lemma new_location_ok n r : 0 <= r < Zpos n -> loc_ok (new_location (Zpos n) r) (r # n).
Proof.
  intros Hr. unfold new_location, new_location_even, new_location_odd.
  try change IntDef.Z.even with Z.even. try change IntDef.Z.eqb with Z.eqb.
  try change IntDef.Z.compare with Z.compare. try change IntDef.Z.mul with Z.mul.
  try change IntDef.Z.add with Z.add.
  destruct (Z.even (Zpos n)) eqn:Hev; cbv beta;
    (destruct (Z.eqb_spec r 0) as [->|Hr0]; [reflexivity|]).
  - destruct (Z.compare_spec (2 * r) (Zpos n)); cbn [loc_ok];
      unfold Qlt, Qeq; cbn [Qnum Qden]; lia.
  - assert (Hodd : exists k, Zpos n = 2 * k + 1).
    { apply Z.odd_spec. rewrite <- Z.negb_even, Hev. reflexivity. }
    destruct Hodd as [k Hk].
    destruct (Z.compare_spec (2 * r + 1) (Zpos n)); cbn [loc_ok];
      unfold Qlt, Qeq; cbn [Qnum Qden]; lia.
Qed.

(** The quotient core of [SFdiv] describes [pa / pb]. *)
Lemma SFdiv_core_ok pa pb :
  Zpos pa <= Zpos pb ->
  let '(q, e, l) := SFdiv_core_binary prec emax (Zpos pa) 0 (Zpos pb) 0 in
  shr_ok (inject_Z (Zpos pa) / inject_Z (Zpos pb)) (shr_record_of_loc q l) e.
Proof.
  intros Hab. unfold SFdiv_core_binary.
  rewrite !Z.add_0_r, Z.sub_0_r.
  try change IntDef.Z.min with Z.min. try change IntDef.Z.shiftl with Z.shiftl.
  try change IntDef.Z.div_eucl with Z.div_eucl.
  set (e' := Z.min (fexp prec emax (Zdigits2 (Zpos pa) - Zdigits2 (Zpos pb))) 0).
  assert (He' : e' <= -53).
  { pose proof (Zdigits2_mono (Zpos pa) (Zpos pb) ltac:(lia)).
    subst e'. unfold fexp, emin, prec, emax. try change IntDef.Z.max with Z.max. lia. }
  replace (0 - e') with (Zpos (Z.to_pos (- e'))) by lia.
  rewrite Z.shiftl_mul_pow2 by lia.
  set (s := Zpos (Z.to_pos (- e'))).
  pose proof (Z_div_mod (Zpos pa * 2 ^ s) (Zpos pb) ltac:(lia)) as Hdm.
  destruct (Z.div_eucl _ _) as [q r]. destruct Hdm as [Heq Hr].
  exists (r # pb). rewrite loc_of_record_of_loc. split; [|exact (new_location_ok pb r Hr)].
  cbn [shr_m shr_record_of_loc].
  assert (Hs : e' = - s) by (subst s; lia). rewrite Hs, Qpower_opp.
  rewrite <- (Zpower_Qpower 2 s) by lia.
  assert (HP : ~ (inject_Z (2 ^ s) == 0)%Q) by (apply inject_Z_neq0; lia).
  assert (Hpb : ~ (inject_Z (Zpos pb) == 0)%Q) by (apply inject_Z_neq0; lia).
  assert (Hpa : (inject_Z (Zpos pa) == (inject_Z (Zpos pb) * inject_Z q + inject_Z r) / inject_Z (2 ^ s))%Q).
  { rewrite <- inject_Z_mult, <- inject_Z_plus, <- Heq, inject_Z_mult. field. exact HP. }
  rewrite Hpa, Qmake_Qdiv, shr_m_record_of_loc. field. split; [exact HP | exact Hpb].
Qed.

(** [a / b] for [0 <= a <= b], [0 < b]: within [3 * 2^-52] of the
    quotient. *)
Lemma py_int_truediv_error a b f :
  0 <= a <= b -> 0 < b -> py_int_truediv a b = Ok f ->
  (Qabs (float_Q f - inject_Z a / inject_Z b) <= 3 * 2 ^ (-52))%Q.
Proof.
  intros Hab Hb. unfold py_int_truediv.
  destruct (Z.eqb_spec b 0); [lia|].
  destruct (Z.eqb_spec a 0) as [->|Ha].
  { intros [= <-]. cbn [float_Q]. unfold Qdiv. rewrite Qmult_0_l.
    apply Qle_bool_imp_le. reflexivity. }
  destruct a as [|pa|pa]; [lia| |lia]. destruct b as [|pb|pb]; [lia| |lia].
  unfold float_exact_of_Z, SFdiv. change (xorb false false) with false.
  pose proof (SFdiv_core_ok pa pb ltac:(lia)) as Hok.
  pose proof (SFdiv_core_ratio pa pb ltac:(lia)) as Hc.
  destruct (SFdiv_core_binary _ _ _ _ _ _) as [[q e] l].
  destruct Hc as (Hq & He & Hqe).
  pose proof (binary_round_aux_error q e l _ Hq Hok ltac:(unfold prec, emax; lia)) as Herr.
  assert (Hexp : Z.max e (fexp prec emax (Zdigits2 q + e)) <= -52).
  { unfold fexp, emin, prec, emax. try change IntDef.Z.max with Z.max. lia. }
  destruct (binary_round_aux prec emax false q e l); cbn [check_overflow]; intros [= <-];
    (eapply Qle_trans; [exact Herr|]);
    (apply pow2_le_scaled; [lra | exact Hexp]).
Qed.

(** ** Addition of non-negative doubles *)

Lemma Pos_iter_xO m d : Zpos (Pos.iter xO m d) = Zpos m * 2 ^ Zpos d.
Proof.
  induction d as [|d IH] using Pos.peano_ind; [cbn; lia|].
  rewrite Pos.iter_succ, Pos2Z.inj_xO, IH, Pos2Z.inj_succ, Z.pow_succ_r by lia. ring.
Qed.

(** Aligning [m * 2^e] to the exponent [e'] shifts it left exactly. *)
Lemma shl_align_spec m e e' :
  snd (shl_align m e e') = Z.min e e' /\
  Zpos (fst (shl_align m e e')) = Zpos m * 2 ^ (e - snd (shl_align m e e')).
Proof.
  unfold shl_align. try change IntDef.Z.sub with Z.sub.
  destruct (e' - e) as [|d|d] eqn:Hd; cbn [fst snd].
  - split; [lia|]. rewrite Z.sub_diag. lia.
  - split; [lia|]. rewrite Z.sub_diag. lia.
  - rewrite Pos_iter_xO. split; [lia|]. do 2 f_equal. lia.
Qed.

Lemma Zdigits2_mul_pow2 m k : 0 < m -> 0 <= k -> Zdigits2 (m * 2 ^ k) = Zdigits2 m + k.
Proof.
  intros Hm Hk. assert (0 < m * 2 ^ k) by (pose proof (Z.pow_pos_nonneg 2 k); nia).
  rewrite !Zdigits2_log2, Z.log2_mul_pow2 by lia. lia.
Qed.

(** A mantissa whose value is below [2^B] has at most [B - e] digits. *)
Lemma Zdigits2_of_value (m : positive) e B :
  (inject_Z (Zpos m) * 2 ^ e < 2 ^ B)%Q -> Zdigits2 (Zpos m) + e <= B.
Proof.
  intros Hv. rewrite Zdigits2_log2 by lia.
  destruct (Z_le_gt_dec (Z.log2 (Zpos m) + 1 + e) B) as [|Hgt]; [lia|exfalso].
  pose proof (Z.log2_spec (Zpos m) ltac:(lia)) as [Hlo _].
  assert (Hle : (2 ^ B <= inject_Z (Zpos m) * 2 ^ e)%Q).
  { apply (Qle_trans _ (inject_Z (2 ^ Z.log2 (Zpos m)) * 2 ^ e)).
    - rewrite Zpower_Qpower by (apply Z.log2_nonneg). change (inject_Z 2) with 2%Q.
      rewrite <- Qpower_plus by lra. apply pow2_le. lia.
    - apply Qmult_le_compat_r; [|apply Qlt_le_weak, pow2_pos].
      rewrite <- Zle_Qle. exact Hlo. }
  lra.
Qed.

(** [binary_round] of an exact positive value: a finite or zero
    non-negative double within three units of the place [fexp] gives. *)
Lemma binary_round_error (M : positive) ez :
  Zdigits2 (Zpos M) + ez <= 1000 ->
  is_finite (binary_round prec emax false M ez) = true /\
  sign_nonneg (binary_round prec emax false M ez) = true /\
  (Qabs (float_Q (binary_round prec emax false M ez) - inject_Z (Zpos M) * 2 ^ ez)
   <= 3 * 2 ^ (fexp prec emax (Zdigits2 (Zpos M) + ez)))%Q.
Proof.
  intros HD. unfold binary_round.
  change (Zpos (digits2_pos M)) with (Zdigits2 (Zpos M)).
  set (E := fexp prec emax (Zdigits2 (Zpos M) + ez)).
  destruct (shl_align_spec M ez E) as [Hez Hmz].
  destruct (shl_align M ez E) as [mz ez']. cbn [fst snd] in *.
  assert (HE : E <= 971) by (subst E; unfold fexp, emin, prec, emax; lia).
  assert (Hd : Zdigits2 (Zpos mz) + ez' = Zdigits2 (Zpos M) + ez).
  { rewrite Hmz, Zdigits2_mul_pow2 by lia. lia. }
  assert (Hx : shr_ok (inject_Z (Zpos M) * 2 ^ ez) (shr_record_of_loc (Zpos mz) loc_Exact) ez').
  { exists 0%Q. split; [|reflexivity]. cbn [shr_m shr_record_of_loc].
    rewrite Hmz, inject_Z_mult, Zpower_Qpower by lia. change (inject_Z 2) with 2%Q.
    rewrite Qplus_0_r, <- Qmult_assoc, <- Qpower_plus by lra.
    replace (ez - ez' + ez') with ez by lia. reflexivity. }
  assert (Hb : Z.max ez' (Z.max (-1074) (Zdigits2 (Zpos mz) + ez' - 52)) <= emax - prec)
    by (unfold emax, prec; lia).
  pose proof (binary_round_aux_error (Zpos mz) ez' loc_Exact _ ltac:(lia) Hx Hb) as Herr.
  destruct (binary_round_aux_within false (Zpos mz) ez' loc_Exact ltac:(lia) Hb) as [_ Hw].
  pose proof (binary_round_aux_nonneg (Zpos mz) ez' loc_Exact) as Hs.
  rewrite Hd in Herr. replace (Z.max ez' (fexp prec emax (Zdigits2 (Zpos M) + ez))) with E in Herr
    by (subst E; lia).
  split; [|split; [exact Hs | exact Herr]].
  destruct (binary_round_aux prec emax false (Zpos mz) ez' loc_Exact); cbn in Hw |- *;
    done || contradiction.
Qed.

Lemma float_Q_finite_pos m e : (float_Q (S754_finite false m e) == inject_Z (Zpos m) * 2 ^ e)%Q.
Proof. cbn [float_Q sign_Q]. rewrite mag_Q_pow. ring. Qed.

Lemma float_Q_nonneg x : sign_nonneg x = true -> (0 <= float_Q x)%Q.
Proof.
  destruct x as [s|s| |s m e]; try (intros; apply Qle_refl).
  destruct s; [discriminate|]. intros _. rewrite float_Q_finite_pos.
  apply Qmult_le_0_compat; [|apply Qlt_le_weak, pow2_pos].
  change 0%Q with (inject_Z 0). rewrite <- Zle_Qle. lia.
Qed.

(** [x + y] on non-negative finite doubles whose sum is below 2: a finite
    non-negative double within [3 * 2^-52] of the sum. *)
Lemma py_float_add_error x y :
  is_finite x = true -> is_finite y = true -> sign_nonneg x = true -> sign_nonneg y = true ->
  (float_Q x + float_Q y < 2)%Q ->
  is_finite (py_float_add x y) = true /\ sign_nonneg (py_float_add x y) = true /\
  (Qabs (float_Q (py_float_add x y) - (float_Q x + float_Q y)) <= 3 * 2 ^ (-52))%Q.
Proof.
  assert (Hpos : (0 <= 3 * 2 ^ (-52))%Q) by (pose proof (pow2_pos (-52)); lra).
  destruct x as [sx|sx| |sx mx ex], y as [sy|sy| |sy my ey]; cbn [is_finite sign_nonneg];
    try discriminate; destruct sx; try discriminate; try destruct sy; try discriminate;
    intros _ _ _ _ Hlt; unfold py_float_add; cbn [SFadd float_Q] in *;
    try (split; [reflexivity | split; [reflexivity|]];
         match goal with |- (Qabs ?a <= _)%Q =>
           setoid_replace a with 0%Q using relation Qeq by ring end;
         exact Hpos).
  try change IntDef.Z.min with Z.min. try change IntDef.Z.add with Z.add.
  set (ez := Z.min ex ey).
  destruct (shl_align_spec mx ex ez) as [Hex Hmx]. destruct (shl_align_spec my ey ez) as [Hey Hmy].
  destruct (shl_align mx ex ez) as [ax ex']. destruct (shl_align my ey ez) as [ay ey'].
  cbn [fst snd cond_Zopp] in *. replace ex' with ez in * by lia. replace ey' with ez in * by lia.
  change (Zpos ax + Zpos ay) with (Zpos (ax + ay)). cbn [binary_normalize].
  assert (Hsum : (inject_Z (Zpos (ax + ay)) * 2 ^ ez
                  == float_Q (S754_finite false mx ex) + float_Q (S754_finite false my ey))%Q).
  { rewrite !float_Q_finite_pos, Pos2Z.inj_add, inject_Z_plus, Hmx, Hmy, !inject_Z_mult.
    rewrite !Zpower_Qpower by lia. change (inject_Z 2) with 2%Q.
    rewrite Qmult_plus_distr_l, <- !Qmult_assoc, <- !Qpower_plus by lra.
    replace (ex - ez + ez) with ex by lia. replace (ey - ez + ez) with ey by lia. reflexivity. }
  assert (HD : Zdigits2 (Zpos (ax + ay)) + ez <= 1).
  { apply Zdigits2_of_value. rewrite Hsum. change (2 ^ 1)%Q with 2%Q. exact Hlt. }
  destruct (binary_round_error (ax + ay) ez ltac:(lia)) as (Hf & Hs & Herr).
  split; [exact Hf|]. split; [exact Hs|]. rewrite <- Hsum.
  eapply Qle_trans; [exact Herr|]. apply pow2_le_scaled; [lra|].
  unfold fexp, emin, prec, emax. try change IntDef.Z.max with Z.max. lia.
Qed.

(** ** A left-to-right sum of quotients *)

(** Adding the doubles [c / T] one by one to an accumulator that is
    within [E] of [A], while everything stays below 1 in exact value,
    ends within [E + n * 3 * 2^-51] of [A + sum(c) / T]: each step adds
    the error of one division and of one addition. *)
Lemma fold_add_quotients_error (cs : list Z) T ps acc (A E : Q) :
  0 < T -> Forall (fun c => 0 <= c <= T) cs ->
  res_traverse (fun c => py_int_truediv c T) cs = Ok ps ->
  is_finite acc = true -> sign_nonneg acc = true ->
  (0 <= A)%Q -> (Qabs (float_Q acc - A) <= E)%Q ->
  (A + inject_Z (sum_Z cs) / inject_Z T <= 1)%Q ->
  (E + inject_Z (Z.of_nat (length cs)) * (3 * 2 ^ (-51)) <= 1 # 2)%Q ->
  is_finite (fold_left py_float_add ps acc) = true /\
  sign_nonneg (fold_left py_float_add ps acc) = true /\
  (Qabs (float_Q (fold_left py_float_add ps acc) - (A + inject_Z (sum_Z cs) / inject_Z T))
   <= E + inject_Z (Z.of_nat (length cs)) * (3 * 2 ^ (-51)))%Q.
Proof.
  intros HT Hcs. assert (HTq : (0 < inject_Z T)%Q) by (change 0%Q with (inject_Z 0); rewrite <- Zlt_Qlt; lia).
  change (2 ^ (-51))%Q with (1 # 2251799813685248).
  revert ps acc A E. induction Hcs as [|c cs Hc Hcs IH]; intros ps acc A E Htr Hf Hs HA HE Hsum Hsmall.
  { cbn in Htr. injection Htr as <-. cbn [fold_left length sum_Z fold_right].
    split_and!; [done|done|]. setoid_replace (A + inject_Z 0 / inject_Z T)%Q with A
      using relation Qeq by (unfold Qdiv; rewrite Qmult_0_l; ring).
    change (inject_Z (Z.of_nat 0)) with 0%Q. rewrite Qmult_0_l, Qplus_0_r. exact HE. }
  cbn [res_traverse] in Htr. destruct (py_int_truediv c T) as [p|e] eqn:Hp; [|discriminate].
  cbn [res_bind] in Htr. destruct (res_traverse _ cs) as [ps'|e] eqn:Hps; [|discriminate].
  cbn [res_bind] in Htr. injection Htr as <-. cbn [fold_left].
  pose proof (py_int_truediv_error c T p Hc HT Hp) as Hperr.
  destruct (py_int_truediv_ratio c T Hc HT) as (p' & Hp' & Hpsign & Hpw). rewrite Hp in Hp'.
  injection Hp' as <-.
  assert (Hpf : is_finite p = true) by (destruct p; cbn in Hpw |- *; done || contradiction).
  change (2 ^ (-52))%Q with (1 # 4503599627370496) in Hperr.
  assert (Hsum0 : (0 <= inject_Z (sum_Z cs) / inject_Z T)%Q).
  { apply Qle_shift_div_l; [exact HTq|]. rewrite Qmult_0_l. change 0%Q with (inject_Z 0).
    rewrite <- Zle_Qle. apply sum_Z_nonneg.
    eapply Forall_impl; [|exact Hcs]. cbn. intros; lia. }
  assert (Hsplit : (inject_Z (sum_Z (c :: cs)) / inject_Z T
                    == inject_Z c / inject_Z T + inject_Z (sum_Z cs) / inject_Z T)%Q).
  { cbn [sum_Z fold_right]. change (fold_right Z.add 0 cs) with (sum_Z cs).
    rewrite inject_Z_plus. field. lra. }
  rewrite Hsplit in Hsum |- *.
  assert (Hlen : (inject_Z (Z.of_nat (length (c :: cs))) == inject_Z (Z.of_nat (length cs)) + 1)%Q).
  { cbn [length]. rewrite Nat2Z.inj_succ, <- Z.add_1_r, inject_Z_plus. reflexivity. }
  rewrite Hlen in Hsmall |- *.
  assert (Hn0 : (0 <= inject_Z (Z.of_nat (length cs)))%Q)
    by (change 0%Q with (inject_Z 0); rewrite <- Zle_Qle; lia).
  apply Qabs_Qle_condition in HE as [HE1 HE2].
  apply Qabs_Qle_condition in Hperr as [Hp1 Hp2].
  destruct (py_float_add_error acc p Hf Hpf Hs Hpsign ltac:(lra)) as (Hf' & Hs' & Haerr).
  change (2 ^ (-52))%Q with (1 # 4503599627370496) in Haerr.
  apply Qabs_Qle_condition in Haerr as [Ha1 Ha2].
  assert (HE' : (Qabs (float_Q (py_float_add acc p) - (A + inject_Z c / inject_Z T))
                 <= E + (3 # 2251799813685248))%Q).
  { apply Qabs_Qle_condition. split; lra. }
  assert (HA' : (0 <= A + inject_Z c / inject_Z T)%Q).
  { assert (0 <= inject_Z c / inject_Z T)%Q; [|lra].
    apply Qle_shift_div_l; [exact HTq|]. rewrite Qmult_0_l. change 0%Q with (inject_Z 0).
    rewrite <- Zle_Qle. lia. }
  destruct (IH ps' _ _ _ eq_refl Hf' Hs' HA' HE' ltac:(lra) ltac:(lra)) as (Hf'' & Hs'' & Herr).
  split_and!; [exact Hf'' | exact Hs''|].
  eapply Qle_trans; [|apply Qle_refl].
  setoid_replace (A + (inject_Z c / inject_Z T + inject_Z (sum_Z cs) / inject_Z T))%Q
    with (A + inject_Z c / inject_Z T + inject_Z (sum_Z cs) / inject_Z T)%Q using relation Qeq by ring.
  eapply Qle_trans; [exact Herr|]. lra.
Qed.

(** ** Multiplying by 99 and rounding to an int *)

(** [x * 99] on a non-negative double [x <= 5/4]: the product is exact
    before rounding ([SFmul] rounds [mx * my] at [ex + ey] from an exact
    location), so the result is within [3 * 2^-46] of [99 * x]: three
    units of the last place of a number below [2^7]. *)
Lemma py_float_mul_99_error x y :
  is_finite x = true -> sign_nonneg x = true -> (float_Q x <= 5 # 4)%Q ->
  py_float_mul_int x 99 = Ok y ->
  (Qabs (float_Q y - float_Q x * 99) <= 3 * 2 ^ (-46))%Q.
Proof.
  intros Hf Hs Hx. unfold py_float_mul_int. rewrite float_of_int_99. cbn [res_bind].
  intros [= <-]. assert (Hpos : (0 <= 3 * 2 ^ (-46))%Q) by (pose proof (pow2_pos (-46)); lra).
  destruct x as [sx|sx| |sx m e]; try discriminate.
  destruct sx; [discriminate|]. cbn [SFmul xorb].
  set (X := (inject_Z (Zpos m) * 2 ^ e * 99)%Q).
  assert (H99 : (99 == inject_Z 6966505673588736 * 2 ^ (-46))%Q) by reflexivity.
  assert (HX : (X == inject_Z (Zpos (m * 6966505673588736)) * 2 ^ (e + -46))%Q).
  { subst X. rewrite H99, Qpower_plus by lra. rewrite Pos2Z.inj_mul, inject_Z_mult. ring. }
  assert (Hval : (float_Q (S754_finite false m e) * 99 == X)%Q)
    by (subst X; rewrite float_Q_finite_pos; reflexivity).
  rewrite float_Q_finite_pos in Hx.
  assert (He : e <= 0).
  { destruct (Z_le_gt_dec e 0) as [|Hgt]; [done|exfalso].
    assert (H1 : (2 ^ 1 <= inject_Z (Zpos m) * 2 ^ e)%Q).
    { apply (Qle_trans _ (1 * 2 ^ e)); [rewrite Qmult_1_l; apply pow2_le; lia|].
      apply Qmult_le_compat_r; [|apply Qlt_le_weak, pow2_pos].
      change 1%Q with (inject_Z 1). rewrite <- Zle_Qle. lia. }
    change (2 ^ 1)%Q with 2%Q in H1. lra. }
  assert (HD : Zdigits2 (Zpos (m * 6966505673588736)) + (e + -46) <= 7).
  { apply Zdigits2_of_value. rewrite <- HX. subst X. change (2 ^ 7)%Q with 128%Q. lra. }
  assert (Hok : shr_ok X (shr_record_of_loc (Zpos (m * 6966505673588736)) loc_Exact) (e + -46)).
  { exists 0%Q. split; [|reflexivity]. cbn [shr_m shr_record_of_loc]. rewrite HX. ring. }
  pose proof (binary_round_aux_error (Zpos (m * 6966505673588736)) (e + -46) loc_Exact X ltac:(lia) Hok
                ltac:(unfold emax, prec; lia)) as Herr.
  rewrite Hval. eapply Qle_trans; [exact Herr|].
  apply pow2_le_scaled; [lra|]. unfold fexp, emin, prec, emax. try change IntDef.Z.max with Z.max.
  lia.
Qed.

(** Python's [round()] on a finite non-negative double is within half a
    unit of its value. *)
Lemma py_round_error y k :
  is_finite y = true -> sign_nonneg y = true -> py_round y = Ok k ->
  (Qabs (inject_Z k - float_Q y) <= 1 # 2)%Q.
Proof.
  destruct y as [s|s| |s m e]; try discriminate; intros _ Hs.
  { intros [= <-]. apply Qle_bool_imp_le. reflexivity. }
  destruct s; [discriminate|]. cbn [py_round]. intros [= <-]. rewrite float_Q_finite_pos.
  destruct e as [|p|p].
  - rewrite Qmult_1_r. unfold Qminus. rewrite Qplus_opp_r. apply Qle_bool_imp_le. reflexivity.
  - rewrite Z.shiftl_mul_pow2 by lia. rewrite inject_Z_mult, Zpower_Qpower by lia.
    change (inject_Z 2) with 2%Q. unfold Qminus. rewrite Qplus_opp_r. apply Qle_bool_imp_le. reflexivity.
  - pose proof (round_half_even_shift_error (Zpos m) p ltac:(lia)) as Hz.
    set (r := round_half_even_shift (Zpos m) p) in *.
    assert (HP : (0 < inject_Z (2 ^ Zpos p))%Q)
      by (change 0%Q with (inject_Z 0); rewrite <- Zlt_Qlt; lia).
    assert (Hpow : (2 ^ Zneg p == / inject_Z (2 ^ Zpos p))%Q).
    { rewrite Zpower_Qpower by lia. change (inject_Z 2) with 2%Q.
      change (Zneg p) with (- Zpos p). apply Qpower_opp. }
    rewrite Hpow.
    setoid_replace (inject_Z r - inject_Z (Zpos m) * / inject_Z (2 ^ Zpos p))%Q
      with (inject_Z (r * 2 ^ Zpos p - Zpos m) * / inject_Z (2 ^ Zpos p))%Q using relation Qeq
      by (unfold Z.sub; rewrite inject_Z_plus, inject_Z_opp, inject_Z_mult; field; lra).
    rewrite Qabs_Qmult, (Qabs_pos (/ _)) by (apply Qlt_le_weak, Qinv_lt_0_compat, HP).
    apply Qle_shift_div_r; [exact HP|].
    change (Qabs (inject_Z (r * 2 ^ Zpos p - Zpos m))) with (Qabs (r * 2 ^ Zpos p - Zpos m # 1)).
    rewrite <- Zabs_Qabs. unfold Qle, Qmult. cbn [Qnum Qden inject_Z]. lia.
Qed.
