(* ===== verification/Probability.v ===== *)
(** * Arithmetic on probabilities

    [run_simulations] divides counts by the number of draws
    ([count / (num_simulations * jobs_per_simulation)], an int / int true
    division) and adds the quotients ([sum(...)] and
    [cumulative_sum += prob], starting from the int [0]).  The runner is
    written once against this interface; its theorems hold at every
    lawful instance, and the program's is [float_prob]: CPython binary64
    ([py_int_truediv], [py_float_add], [0 + x] with [0.0]), [sum] being
    the left-to-right running addition of CPython before 3.12.  The
    exact value of the same expressions, the spec's real-number reading,
    is stated with [FloatError.float_Q] in the error bounds instead.

    The law [prob_div_ok] says that a division of a count by a positive
    number of draws at least as large raises nothing. *)

From Stdlib Require Import ZArith QArith Lia SpecFloat.
From stdpp Require Import base.
From S2P Require Import Prelude PyFloat.

Class ProbArith (R : Type) := {
  prob_div : Z -> Z -> res R;
  prob_add : R -> R -> R;
  prob_zero : R
}.

Class ProbArithLaws (R : Type) `{ProbArith R} := {
  prob_div_ok : forall a b, (0 <= a <= b)%Z -> (0 < b)%Z -> exists r, prob_div a b = Ok r
}.

#[export] Instance float_prob : ProbArith float := {
  prob_div := py_int_truediv;
  prob_add := py_float_add;
  prob_zero := S754_zero false
}.

#[export] Instance float_prob_laws : ProbArithLaws float.
Proof.
  constructor. intros a b Hab Hb.
  destruct (py_int_truediv_ratio a b Hab Hb) as (f & Hf & _). exists f. exact Hf.
Qed.
