(* ===== verification/RangeAllocator.v ===== *)
(** * Range Allocator: [create_ranges] (src/app.py, lines 16-33)

    Turns the frequency table [job_data] into one range [(start, end)] per
    job on the scale [1..99].  The loop walks the jobs in insertion order
    with a cursor [start]; each job gets [round(freq / total * 99)] slots,
    clipped at 99; afterwards the last job's range is forced to end at 99.

    The invariant is [tiles 1 99]: the ranges are consecutive
    ([start] of one is [end + 1] of the previous), each is a possibly empty
    interval ([start <= end + 1]), the first starts at 1 and the last ends
    at 99.  It holds whenever the frequencies are non-negative; empty ranges
    appear when a rounded size is 0 or when the cursor has already reached
    100, never gaps or overlaps.

    The size is computed in binary64 as CPython does ([py_int_truediv],
    [py_float_mul_int], [py_round]); with [FloatError] it is within
    [1/2 + 2^-40] of the exact [99 * freq / total], so a job with at
    most half a percent of the total gets size 0 ([range_size_small]).
    The examples at the end of the file are the concrete tables behind
    the findings. *)

From Stdlib Require Import ZArith QArith Qabs Lqa Lia SpecFloat.
From stdpp Require Import base list strings decidable.
From S2P Require Import Prelude PyDict PyFloat FloatError.

Open Scope Z_scope.

Module RangeAllocator.

(** The scale's upper bound, the literal [99] of the source. *)
Definition TOTAL_RANGE : Z := 99.

(** [proportion = freq / total_frequency]; [range_size = round(proportion * 99)] *)
Definition range_size (freq total_frequency : Z) : res Z :=
  let! proportion := py_int_truediv freq total_frequency in
  let! scaled := py_float_mul_int proportion 99 in
  py_round scaled.

(** The [for job, freq in job_data.items()] loop, with its two pieces of
    state: the [ranges] dict built so far and the cursor [start]. *)
Fixpoint create_ranges_loop (total_frequency : Z) (items : dict string Z)
    (ranges : dict string (Z * Z)) (start : Z) : res (dict string (Z * Z) * Z) :=
  match items with
  | [] => Ok (ranges, start)
  | (job, freq) :: rest =>
      let! size := range_size freq total_frequency in
      let end_ := start + size - 1 in
      let end_ := if Z.ltb 99 end_ then 99 else end_ in
      create_ranges_loop total_frequency rest
        (dict_set ranges job (start, end_)) (end_ + 1)
  end.

Definition create_ranges (job_data : dict string Z)
    : res (dict string (Z * Z) * Z) :=
  let total_frequency := sum_Z (dict_values job_data) in
  let! '(ranges, _) := create_ranges_loop total_frequency job_data [] 1 in
  let! last_job := py_list_index (dict_keys ranges) (-1) in
  let! r := dict_getitem ranges last_job in
  Ok (dict_set ranges last_job (fst r, 99), 99).

(** ** The partition invariant *)

(** [chain lo rs c]: the ranges [rs] follow each other from [lo], each
    possibly empty and ending at most at 99, and the cursor after the
    last one is [c]. *)
Fixpoint chain {K : Type} (lo : Z) (rs : dict K (Z * Z)) (c : Z) : Prop :=
  match rs with
  | [] => lo = c
  | (_, (s, e)) :: rs' => s = lo /\ s <= e + 1 /\ e <= 99 /\ chain (e + 1) rs' c
  end.

(** [tiles lo hi rs]: the ranges [rs] partition [lo..hi] in order. *)
Fixpoint tiles {K : Type} (lo hi : Z) (rs : dict K (Z * Z)) : Prop :=
  match rs with
  | [] => False
  | [(_, (s, e))] => s = lo /\ e = hi /\ s <= e + 1
  | (_, (s, e)) :: rs' => s = lo /\ s <= e + 1 /\ tiles (e + 1) hi rs'
  end.

(** ** Lemmas on the invariant *)

Lemma tiles_cons {K : Type} lo hi (k : K) s e (rs : dict K (Z * Z)) :
  rs <> [] -> tiles lo hi ((k, (s, e)) :: rs) <-> s = lo /\ s <= e + 1 /\ tiles (e + 1) hi rs.
Proof. destruct rs; [congruence | reflexivity]. Qed.

Lemma chain_snoc {K : Type} lo (rs : dict K (Z * Z)) j s e :
  chain lo rs s -> s <= e + 1 -> e <= 99 -> chain lo (rs ++ [(j, (s, e))]) (e + 1).
Proof.
  revert lo. induction rs as [|[k [s1 e1]] rs IH]; simpl; intros lo Hch Hs He.
  - subst. auto.
  - destruct Hch as (-> & H1 & H2 & Hch). auto.
Qed.

Lemma chain_cursor_le {K : Type} lo (rs : dict K (Z * Z)) c :
  chain lo rs c -> lo <= 100 -> c <= 100.
Proof.
  revert lo. induction rs as [|[k [s e]] rs IH]; simpl; intros lo Hch Hlo.
  - lia.
  - destruct Hch as (_ & _ & He & Hch). apply (IH _ Hch). lia.
Qed.

(** Forcing the last range to end at 99 turns a chain into a tiling. *)
Lemma chain_tiles {K : Type} lo (rs : dict K (Z * Z)) j s e c :
  chain lo (rs ++ [(j, (s, e))]) c -> tiles lo 99 (rs ++ [(j, (s, 99))]).
Proof.
  revert lo. induction rs as [|[k [s1 e1]] rs IH]; intros lo Hch; simpl in Hch.
  - destruct Hch as (-> & Hs & He & _). simpl. repeat split; lia.
  - destruct Hch as (-> & H1 & _ & Hch). rewrite <- app_comm_cons.
    rewrite tiles_cons by (intros Hn; apply app_eq_nil in Hn as [_ Hn]; discriminate).
    split; [reflexivity | split; [lia | exact (IH _ Hch)]].
Qed.

(** Non-negative frequencies give non-negative sizes. *)
Lemma range_size_nonneg f t k :
  0 <= f -> 0 <= t -> range_size f t = Ok k -> 0 <= k.
Proof.
  intros Hf Ht H. unfold range_size in H.
  apply res_bind_Ok in H as (p & Hp & H).
  apply res_bind_Ok in H as (x & Hx & H).
  eapply py_round_nonneg; [|exact H].
  eapply py_float_mul_int_nonneg; [| |exact Hx]; [|lia].
  exact (py_int_truediv_nonneg f t p Hf Ht Hp).
Qed.

(** The loop extends a chain by one range per job, in order. *)
Lemma create_ranges_loop_chain total items acc start r c :
  0 <= total ->
  Forall (fun f => 0 <= f) (dict_values items) ->
  NoDup (dict_keys acc ++ dict_keys items) ->
  chain 1 acc start -> start <= 100 ->
  create_ranges_loop total items acc start = Ok (r, c) ->
  chain 1 r c /\ c <= 100 /\ dict_keys r = dict_keys acc ++ dict_keys items.
Proof.
  revert acc start.
  induction items as [|[job freq] items IH]; simpl; intros acc start Ht Hf Hnd Hch Hs H.
  - injection H as <- <-. rewrite app_nil_r. auto.
  - apply res_bind_Ok in H as (size & Hsize & H).
    inversion Hf as [|? ? Hf0 Hf']; subst.
    pose proof (range_size_nonneg _ _ _ Hf0 Ht Hsize) as Hsz.
    rewrite dict_set_notin in H by exact (NoDup_app_cons_notin _ _ _ Hnd).
    set (e := if Z.ltb 99 (start + size - 1) then 99 else start + size - 1) in H.
    assert (start <= e + 1 /\ e <= 99) as [He1 He2]
      by (subst e; destruct (Z.ltb_spec 99 (start + size - 1)); lia).
    apply IH in H as (Hch' & Hc' & Hk'); auto.
    + split; [exact Hch'|split; [exact Hc'|]].
      rewrite Hk', dict_keys_app, <- app_assoc. reflexivity.
    + rewrite dict_keys_app, <- app_assoc. exact Hnd.
    + apply chain_snoc; assumption.
    + lia.
Qed.

(** The sizes of a valid table are computed without exception. *)
Lemma range_size_ok f t : 0 <= f <= t -> 0 < t -> exists k, range_size f t = Ok k /\ 0 <= k.
Proof.
  intros Hf Ht. unfold range_size.
  destruct (py_int_truediv_ratio f t Hf Ht) as (p & Hp & Hs & Hw). rewrite Hp. cbn [res_bind].
  destruct (py_float_mul_99_within p Hs Hw) as (y & Hy & Hs' & Hw'). rewrite Hy. cbn [res_bind].
  destruct (py_round_within y _ _ Hw') as [k Hk].
  exists k. split; [exact Hk | exact (py_round_nonneg y k Hs' Hk)].
Qed.

Lemma create_ranges_loop_ok total items acc start :
  0 < total -> Forall (fun f => 0 <= f <= total) (dict_values items) ->
  exists r, create_ranges_loop total items acc start = Ok r.
Proof.
  intros Ht. revert acc start.
  induction items as [|[job freq] items IH]; intros acc start Hf; simpl; [eauto|].
  inversion Hf as [|? ? Hf0 Hf']; subst.
  destruct (range_size_ok freq total Hf0 Ht) as (k & Hk & _). rewrite Hk. cbn [res_bind].
  apply IH. exact Hf'.
Qed.

(** The size of a job is its exact share [99 * f / t] rounded: the
    quotient, the product by 99 and [round] add at most
    [3 * 2^-52 * 99 + 3 * 2^-46 < 2^-40] to the half unit of [round]. *)
Lemma range_size_within f t :
  0 <= f <= t -> 0 < t ->
  exists k, range_size f t = Ok k /\ 0 <= k /\
    (Qabs (inject_Z k - inject_Z (99 * f) / inject_Z t) <= (1 # 2) + 2 ^ (-40))%Q.
Proof.
  intros Hf Ht. unfold range_size.
  destruct (py_int_truediv_ratio f t Hf Ht) as (p & Hp & Hs & Hw).
  pose proof (py_int_truediv_error f t p Hf Ht Hp) as Hperr.
  assert (Hpf : is_finite p = true) by (destruct p; cbn in Hw |- *; done || contradiction).
  destruct (py_float_mul_99_within p Hs Hw) as (y & Hy & Hs' & Hw').
  assert (Hyf : is_finite y = true) by (destruct y; cbn in Hw' |- *; done || contradiction).
  destruct (py_round_within y _ _ Hw') as [k Hk].
  exists k. rewrite Hp. cbn [res_bind]. rewrite Hy. cbn [res_bind].
  split; [exact Hk | split; [exact (py_round_nonneg y k Hs' Hk)|]].
  assert (Htq : (0 < inject_Z t)%Q) by (change 0%Q with (inject_Z 0); rewrite <- Zlt_Qlt; lia).
  assert (H99 : (inject_Z (99 * f) / inject_Z t == 99 * (inject_Z f / inject_Z t))%Q)
    by (rewrite inject_Z_mult; field; lra).
  assert (Hq : (inject_Z f / inject_Z t <= 1)%Q)
    by (apply Qle_shift_div_r; [exact Htq | rewrite Qmult_1_l, <- Zle_Qle; lia]).
  rewrite H99. set (q := (inject_Z f / inject_Z t)%Q) in *.
  change (2 ^ (-52))%Q with (1 # 4503599627370496) in Hperr.
  apply Qabs_Qle_condition in Hperr as [Hp1 Hp2].
  pose proof (py_float_mul_99_error p y Hpf Hs ltac:(lra) Hy) as Hmerr.
  pose proof (py_round_error y k Hyf Hs' Hk) as Hrerr.
  change (2 ^ (-46))%Q with (1 # 70368744177664) in Hmerr.
  change (2 ^ (-40))%Q with (1 # 1099511627776).
  apply Qabs_Qle_condition in Hmerr as [Hm1 Hm2]. apply Qabs_Qle_condition in Hrerr as [Hr1 Hr2].
  apply Qabs_Qle_condition. split; lra.
Qed.

(** A frequency of at most half a percent of the total gets the size 0:
    its share [99 * f / t <= 0.495] is rounded down. *)
Lemma range_size_small f t : 0 <= f -> 0 < t -> 200 * f <= t -> range_size f t = Ok 0.
Proof.
  intros Hf Ht Hs. destruct (range_size_within f t ltac:(lia) Ht) as (k & Hk & Hk0 & Hb).
  rewrite Hk. f_equal. apply Qabs_Qle_condition in Hb as [_ Hb].
  assert (Hq : (inject_Z (99 * f) / inject_Z t <= 99 # 200)%Q).
  { apply Qle_shift_div_r; [change 0%Q with (inject_Z 0); rewrite <- Zlt_Qlt; lia|].
    unfold Qle, Qmult. cbn [Qnum Qden inject_Z]. lia. }
  change (2 ^ (-40))%Q with (1 # 1099511627776) in Hb.
  assert (Hlt : (inject_Z k < inject_Z 1)%Q) by (change (inject_Z 1) with 1%Q; lra).
  rewrite <- Zlt_Qlt in Hlt. lia.
Qed.

(** The loop over [pre ++ items] runs over [pre], then over [items]. *)
Lemma create_ranges_loop_app total pre items acc start r c :
  create_ranges_loop total (pre ++ items) acc start = Ok (r, c) ->
  exists acc' start', create_ranges_loop total pre acc start = Ok (acc', start') /\
    create_ranges_loop total items acc' start' = Ok (r, c).
Proof.
  revert acc start. induction pre as [|[job freq] pre IH]; intros acc start H; [eauto|].
  cbn [create_ranges_loop app] in H |- *. apply res_bind_Ok in H as (size & Hs & H).
  rewrite Hs. cbn [res_bind]. exact (IH _ _ H).
Qed.

(** The loop writes only the keys of the jobs it walks. *)
Lemma create_ranges_loop_get_other total items acc start r c k :
  ~ In k (dict_keys items) -> create_ranges_loop total items acc start = Ok (r, c) ->
  dict_get r k = dict_get acc k.
Proof.
  revert acc start. induction items as [|[job freq] items IH]; intros acc start Hk H;
    cbn [create_ranges_loop] in H; [by injection H as <- _|].
  apply res_bind_Ok in H as (size & _ & H). cbn [dict_keys map fst] in Hk.
  rewrite (IH _ _ (fun Hin => Hk (or_intror Hin)) H).
  apply dict_get_set_ne. intros ->. apply Hk. left. reflexivity.
Qed.

(** What follows the loop: the last job's range is rewritten to end at 99. *)
Lemma create_ranges_last (r0 : dict string (Z * Z)) j s e :
  ~ In j (dict_keys r0) ->
  (let! last_job := py_list_index (dict_keys (r0 ++ [(j, (s, e))])) (-1) in
   let! r := dict_getitem (r0 ++ [(j, (s, e))]) last_job in
   Ok (dict_set (r0 ++ [(j, (s, e))]) last_job (fst r, 99), 99))
  = Ok (r0 ++ [(j, (s, 99))], 99).
Proof.
  intros Hj. rewrite dict_keys_app. change (dict_keys [(j, (s, e))]) with [j].
  rewrite py_list_index_last. simpl.
  unfold dict_getitem. rewrite dict_get_app_last by exact Hj. simpl.
  rewrite dict_set_app_last by exact Hj. reflexivity.
Qed.

(** A run of the loop over a non-empty table ends [create_ranges] with
    the last range forced to end at 99. *)
Lemma create_ranges_after_loop job_data r c :
  NoDup (dict_keys job_data) -> Forall (fun f => 0 <= f) (dict_values job_data) -> job_data <> [] ->
  create_ranges_loop (sum_Z (dict_values job_data)) job_data [] 1 = Ok (r, c) ->
  exists r0 jl s e, r = r0 ++ [(jl, (s, e))] /\ dict_keys r = dict_keys job_data /\
    create_ranges job_data = Ok (r0 ++ [(jl, (s, 99))], 99).
Proof.
  intros Hnd Hf Hne Hloop. unfold create_ranges. rewrite Hloop. cbn [res_bind].
  apply create_ranges_loop_chain in Hloop as (_ & _ & Hk);
    [| apply sum_Z_nonneg, Hf | exact Hf | exact Hnd | reflexivity | lia].
  cbn [dict_keys map app] in Hk. change (map fst job_data) with (dict_keys job_data) in Hk.
  destruct r as [|[j [s e]] r0 _] using rev_ind.
  { destruct job_data; [done | discriminate]. }
  assert (~ In j (dict_keys r0)) as Hj.
  { apply (NoDup_app_cons_notin _ [] j). rewrite <- Hk, dict_keys_app in Hnd. exact Hnd. }
  rewrite create_ranges_last by exact Hj. exists r0, j, s, e. done.
Qed.

(** The range of a job followed by others: [(s, s + k - 1)] from the
    cursor [s <= 100] and its size [k], clipped at 99. *)
Lemma create_ranges_entry pre j f post :
  NoDup (dict_keys (pre ++ (j, f) :: post)) ->
  Forall (fun f => 0 <= f) (dict_values (pre ++ (j, f) :: post)) ->
  0 < sum_Z (dict_values (pre ++ (j, f) :: post)) -> post <> [] ->
  exists ranges s k, create_ranges (pre ++ (j, f) :: post) = Ok (ranges, 99) /\
    range_size f (sum_Z (dict_values (pre ++ (j, f) :: post))) = Ok k /\ s <= 100 /\
    dict_get ranges j = Some (s, if Z.ltb 99 (s + k - 1) then 99 else s + k - 1).
Proof.
  set (job_data := pre ++ (j, f) :: post). set (t := sum_Z (dict_values job_data)).
  intros Hnd Hf Ht Hpost.
  assert (Hle : Forall (fun f => 0 <= f <= t) (dict_values job_data)).
  { apply Forall_forall. intros g Hin. pose proof (sum_Z_elem_le _ g Hf Hin).
    rewrite Forall_forall in Hf. pose proof (Hf g Hin). lia. }
  destruct (create_ranges_loop_ok t job_data [] 1 Ht Hle) as ([r c] & Hloop).
  destruct (create_ranges_after_loop job_data r c Hnd Hf ltac:(by destruct pre) Hloop)
    as (r0 & jl & s0 & e0 & -> & Hk & Hcr).
  destruct (create_ranges_loop_app _ _ _ _ _ _ _ Hloop) as (acc & st & Hpre & Hrest).
  unfold job_data in Hnd, Hf. rewrite dict_keys_app in Hnd. unfold dict_values in Hf. rewrite map_app in Hf.
  apply Forall_app in Hf as [Hfpre Hfj].
  pose proof (proj1 (list.NoDup_app _ _) Hnd) as (Hnd1 & _ & Hnd2).
  destruct (create_ranges_loop_chain t pre [] 1 acc st ltac:(lia) Hfpre
              Hnd1 eq_refl ltac:(lia) Hpre) as (Hch & Hst & Hkacc).
  cbn [create_ranges_loop] in Hrest. apply res_bind_Ok in Hrest as (k & Hsz & Hrest).
  cbn [dict_keys map fst] in Hnd2. change (map fst post) with (dict_keys post) in Hnd2.
  apply list.NoDup_cons in Hnd2 as [Hjpost _]. rewrite list_elem_of_In in Hjpost.
  pose proof (create_ranges_loop_get_other _ _ _ _ _ _ _ Hjpost Hrest) as Hget.
  rewrite dict_get_set_eq in Hget.
  exists (r0 ++ [(jl, (s0, 99))]), st, k. split_and!; [exact Hcr | exact Hsz | exact Hst|].
  assert (Hkeys : dict_keys (r0 ++ [(jl, (s0, e0))]) = dict_keys pre ++ j :: dict_keys post)
    by (rewrite Hk; unfold job_data; rewrite dict_keys_app; reflexivity).
  apply dict_get_In in Hget. apply in_app_or in Hget as [Hin|Hin].
  - apply dict_get_NoDup_In; [|apply in_or_app; left; exact Hin].
    replace (dict_keys (r0 ++ [(jl, (s0, 99))])) with (dict_keys (r0 ++ [(jl, (s0, e0))]))
      by (rewrite !dict_keys_app; reflexivity).
    rewrite Hkeys. exact Hnd.
  - exfalso. destruct Hin as [Hin|[]]. injection Hin as Hjl _.
    assert (Hne : dict_keys post <> []) by (destruct post; [done | discriminate]).
    destruct (exists_last Hne) as (l' & x & Hl).
    rewrite dict_keys_app, Hl in Hkeys. cbn [dict_keys map fst] in Hkeys.
    change (map fst r0) with (dict_keys r0) in Hkeys.
    rewrite app_comm_cons, app_assoc in Hkeys. apply app_inj_tail in Hkeys as [_ Hx].
    apply Hjpost. rewrite Hl. apply in_or_app. right. left. congruence.
Qed.

(** ** Properties of [create_ranges] *)

(** The ranges of a successful run, by the loop's invariant. *)
Lemma create_ranges_tiles job_data ranges total :
  NoDup (dict_keys job_data) ->
  Forall (fun f => 0 <= f) (dict_values job_data) ->
  create_ranges job_data = Ok (ranges, total) ->
  total = TOTAL_RANGE /\ dict_keys ranges = dict_keys job_data /\ tiles 1 99 ranges.
Proof.
  intros Hnd Hf H. unfold create_ranges in H.
  apply res_bind_Ok in H as ([r c] & Hloop & H).
  apply create_ranges_loop_chain in Hloop as (Hch & _ & Hk);
    [| apply sum_Z_nonneg, Hf | exact Hf | exact Hnd | reflexivity | lia].
  simpl in Hk.
  destruct r as [|[j [s e]] r0 _] using rev_ind.
  { unfold dict_keys in H. simpl in H. discriminate. }
  assert (~ In j (dict_keys r0)) as Hj.
  { apply (NoDup_app_cons_notin _ [] j). rewrite <- Hk, dict_keys_app in Hnd. exact Hnd. }
  rewrite create_ranges_last in H by exact Hj. injection H as <- <-.
  split; [reflexivity | split].
  - rewrite <- Hk, !dict_keys_app. reflexivity.
  - exact (chain_tiles _ _ _ _ _ _ Hch).
Qed.


(** C1 (partition invariant).  For a frequency table with distinct jobs
    and non-negative frequencies, whatever [create_ranges] returns covers
    the scale exactly: the returned scale is 99, the ranges are keyed by
    the jobs in their input order, and they tile [1..99] consecutively
    (the first starts at 1, each starts right after the previous one, each
    is empty or proper, and the last ends at 99). *)
Theorem create_ranges_partition job_data ranges total :
  NoDup (dict_keys job_data) ->
  Forall (fun f => 0 <= f) (dict_values job_data) ->
  create_ranges job_data = Ok (ranges, total) ->
  total = TOTAL_RANGE /\ dict_keys ranges = dict_keys job_data /\ tiles 1 99 ranges.
Proof.
  intros Hnd Hf H. destruct (create_ranges_tiles _ _ _ Hnd Hf H) as (-> & Hk & Ht).
  split; [reflexivity|]. split; assumption.
Qed.

Lemma create_ranges_partition_witness :
  tiles 1 99 [("J1", (1, 10)); ("J2", (11, 30)); ("J3", (31, 99))]%string.
Proof.
  apply (create_ranges_partition [("J1", 10); ("J2", 20); ("J3", 70)]%string _ 99).
  - apply (bool_decide_unpack _). vm_compute. reflexivity.
  - repeat constructor; simpl; lia.
  - vm_compute. reflexivity.
Defined.

(** C9 (termination without exception).  On a non-empty table with
    distinct jobs, non-negative frequencies and a positive total (as the
    form produces: every frequency is at least 1), [create_ranges] returns
    normally, with the scale 99: the binary64 quotient and product never
    overflow and [round] never meets an infinity or a NaN. *)
Theorem create_ranges_ok job_data :
  NoDup (dict_keys job_data) ->
  Forall (fun f => 0 <= f) (dict_values job_data) ->
  0 < sum_Z (dict_values job_data) ->
  exists ranges, create_ranges job_data = Ok (ranges, 99).
Proof.
  intros Hnd Hf Hpos.
  assert (Hle : Forall (fun f => 0 <= f <= sum_Z (dict_values job_data)) (dict_values job_data)).
  { apply Forall_forall. intros f Hin. pose proof (sum_Z_elem_le _ f Hf Hin).
    rewrite Forall_forall in Hf. pose proof (Hf f Hin). lia. }
  destruct (create_ranges_loop_ok _ job_data [] 1 Hpos Hle) as ([r c] & Hloop).
  assert (Hne : job_data <> []) by (intros ->; cbn in Hpos; lia).
  destruct (create_ranges_after_loop job_data r c Hnd Hf Hne Hloop) as (r0 & jl & s & e & _ & _ & H).
  eauto.
Qed.

Lemma create_ranges_ok_witness :
  exists ranges, create_ranges [("J1", 3); ("J2", 19)]%string = Ok (ranges, 99).
Proof.
  apply create_ranges_ok.
  - apply (bool_decide_unpack _). vm_compute. reflexivity.
  - repeat constructor; simpl; lia.
  - vm_compute. reflexivity.
Defined.

(** C10 (bounds).  The size [round(freq / total * 99)] that binary64
    gives a job is its exact share [99 * freq / total] rounded to an
    integer: within half a unit plus [2^-40] of it, for every frequency
    between 0 and the total.  The float computation can therefore differ
    from rounding the exact share only where the share lies within
    [2^-40] of a half-integer (as [3 / 22 * 99 = 13.5], computed as
    [13.499999999999998] and rounded to 13). *)
Theorem range_size_accuracy f t :
  0 <= f <= t -> 0 < t ->
  exists k, range_size f t = Ok k /\
    (Qabs (inject_Z k - inject_Z (99 * f) / inject_Z t) <= (1 # 2) + 2 ^ (-40))%Q.
Proof.
  intros Hf Ht. destruct (range_size_within f t Hf Ht) as (k & Hk & _ & Hb). eauto.
Qed.

Lemma range_size_accuracy_witness :
  range_size 3 22 = Ok 13 /\
  exists k, range_size 3 22 = Ok k /\
    (Qabs (inject_Z k - inject_Z (99 * 3) / inject_Z 22) <= (1 # 2) + 2 ^ (-40))%Q.
Proof. split; [vm_compute; reflexivity | apply range_size_accuracy; lia]. Defined.

(** C8 (input errors).  [create_ranges] validates nothing itself; its
    failures are Python's: an empty table raises [IndexError] at
    [list(ranges.keys())[-1]], and a non-empty table whose frequencies add
    up to 0 raises [ZeroDivisionError] at [freq / total_frequency]. *)
Theorem create_ranges_errors job_data :
  (job_data = [] -> create_ranges job_data = Err IndexError) /\
  (job_data <> [] -> sum_Z (dict_values job_data) = 0 ->
   create_ranges job_data = Err ZeroDivisionError).
Proof.
  split.
  - intros ->. reflexivity.
  - intros Hne Hsum. unfold create_ranges. rewrite Hsum.
    destruct job_data as [|[job freq] rest]; [congruence|]. reflexivity.
Qed.

Lemma create_ranges_errors_witness :
  create_ranges [("J1", 0); ("J2", 0)]%string = Err ZeroDivisionError.
Proof. apply (create_ranges_errors [("J1", 0); ("J2", 0)]%string); [discriminate | reflexivity]. Defined.

(** ** Examples behind the findings *)

(** Eight equal frequencies: the first seven jobs get 12 numbers each and
    the last one 15, a difference of 3 between equal frequencies. *)
Example create_ranges_equal_frequencies :
  create_ranges [("J1", 1); ("J2", 1); ("J3", 1); ("J4", 1);
                 ("J5", 1); ("J6", 1); ("J7", 1); ("J8", 1)]%string
  = Ok ([("J1", (1, 12)); ("J2", (13, 24)); ("J3", (25, 36)); ("J4", (37, 48));
         ("J5", (49, 60)); ("J6", (61, 72)); ("J7", (73, 84)); ("J8", (85, 99))]%string, 99).
Proof. vm_compute. reflexivity. Qed.

(** A negative frequency (which the form forbids but [create_ranges]
    accepts) produces overlapping ranges. *)
Example create_ranges_negative_frequency :
  create_ranges [("J1", -5); ("J2", 10); ("J3", 10)]%string
  = Ok ([("J1", (1, -33)); ("J2", (-32, 33)); ("J3", (34, 99))]%string, 99).
Proof. vm_compute. reflexivity. Qed.
End RangeAllocator.
