(* ===== verification/RangeSpec.v ===== *)
(** * A closed form of [create_ranges] (src/app.py, lines 16-33)

    The loop of [create_ranges] threads a clipped cursor from job to job.
    Its reference here computes every range directly from the sizes: with
    [P k] the sum of the first [k] sizes, job [k] gets
    [(min 100 (1 + P k), min 99 (P (k+1)))], and the last job ends at 99.
    The sizes are [round(freq / total * 99)], computed per job.  The
    theorem [create_ranges_closed_form] shows that [create_ranges] and the
    reference agree on every table with distinct jobs and non-negative
    frequencies, the error cases included: the cursor's clipping never
    accumulates, a job's range depends only on the sizes before it. *)

From Stdlib Require Import ZArith Lia.
From stdpp Require Import base list strings decidable.
From S2P Require Import Prelude PyDict PyFloat RangeAllocator.

Open Scope Z_scope.

Module RangeSpec.
Import RangeAllocator.

(** The sum of the first [k] sizes. *)
Definition prefix (sizes : list Z) (k : nat) : Z := sum_Z (firstn k sizes).

(** The range of the [k]-th job, after [p] numbers already handed out. *)
Definition range_bound (p : Z) (sizes : list Z) (k : nat) : Z * Z :=
  (Z.min 100 (1 + (p + prefix sizes k)), Z.min 99 (p + prefix sizes (S k))).

(** The reference: sizes per job, ranges in closed form, the last one
    ending at 99; [IndexError] on an empty table, as [list(...)[-1]]. *)
Definition create_ranges_ref (job_data : dict string Z) : res (dict string (Z * Z) * Z) :=
  let total_frequency := sum_Z (dict_values job_data) in
  let! sizes := res_traverse (fun f => range_size f total_frequency) (dict_values job_data) in
  let n := length job_data in
  if (n =? 0)%nat then Err IndexError
  else Ok (imap (fun k '(job, _) =>
                   let r := range_bound 0 sizes k in
                   (job, if (S k =? n)%nat then (r.1, 99) else r)) job_data, 99).

(** ** The loop against the closed form *)

Lemma range_bound_cons p s sizes k :
  range_bound p (s :: sizes) (S k) = range_bound (p + s) sizes k.
Proof. unfold range_bound, prefix. simpl. f_equal; f_equal; lia. Qed.

(** From a cursor [min 100 (1 + p)], the loop appends the closed-form
    ranges, or fails with the first failing size. *)
Lemma create_ranges_loop_closed total items ranges p :
  0 <= p -> 0 <= total -> Forall (fun f => 0 <= f) (dict_values items) ->
  NoDup (dict_keys ranges ++ dict_keys items) ->
  create_ranges_loop total items ranges (Z.min 100 (1 + p))
  = res_map (fun sizes => (ranges ++ imap (fun k '(job, _) => (job, range_bound p sizes k)) items,
                           Z.min 100 (1 + (p + sum_Z sizes))))
            (res_traverse (fun f => range_size f total) (dict_values items)).
Proof.
  revert ranges p. induction items as [|[job freq] items IH]; intros ranges p Hp Ht Hf Hnd.
  - simpl. rewrite app_nil_r. do 2 f_equal. lia.
  - inversion Hf as [|? ? Hf0 Hf']; subst.
    change (dict_values ((job, freq) :: items)) with (freq :: dict_values items).
    cbn [create_ranges_loop res_traverse].
    destruct (range_size freq total) as [s|e] eqn:Hs; cbn [res_bind res_map]; [|reflexivity].
    pose proof (range_size_nonneg _ _ _ Hf0 Ht Hs) as Hs0.
    rewrite dict_set_notin by exact (NoDup_app_cons_notin _ _ _ Hnd).
    replace (if Z.ltb 99 (Z.min 100 (1 + p) + s - 1) then 99 else Z.min 100 (1 + p) + s - 1)
      with (Z.min 99 (p + s)) by (z_cases; lia).
    replace (Z.min 99 (p + s) + 1) with (Z.min 100 (1 + (p + s))) by lia.
    rewrite IH by (lia || exact Hf' || (rewrite dict_keys_app, <- app_assoc; exact Hnd)).
    destruct (res_traverse _ (dict_values items)) as [sizes|e]; cbn; [|reflexivity].
    rewrite <- app_assoc. f_equal. f_equal; [|unfold sum_Z; lia].
    f_equal. cbn [app]. f_equal.
    + unfold range_bound, prefix. cbn. rewrite firstn_O. cbn. f_equal. f_equal; lia.
    + apply imap_ext. intros k [j f] _. cbv beta iota delta [compose]. by rewrite range_bound_cons.
Qed.

Lemma imap_keys (l : dict string Z) (h : nat -> Z * Z) :
  dict_keys (imap (fun k '(job, _) => (job, h k)) l) = dict_keys l.
Proof.
  revert h. induction l as [|[j f] l IH]; intros h; [reflexivity|].
  rewrite imap_cons. unfold dict_keys in *. cbn. f_equal. exact (IH (fun k => h (S k))).
Qed.

(** C15 (equivalence).  On a table with distinct jobs and non-negative
    frequencies, [create_ranges] computes the closed form: job [k] gets
    [(min 100 (1 + P k), min 99 (P (k+1)))] for the prefix sums [P] of the
    rounded sizes, the last job ends at 99, and the errors are the same
    ([IndexError] on an empty table, [ZeroDivisionError] on a zero
    total). *)
Theorem create_ranges_closed_form job_data :
  NoDup (dict_keys job_data) -> Forall (fun f => 0 <= f) (dict_values job_data) ->
  create_ranges job_data = create_ranges_ref job_data.
Proof.
  intros Hnd Hf. unfold create_ranges, create_ranges_ref.
  assert (Ht : 0 <= sum_Z (dict_values job_data)) by exact (sum_Z_nonneg _ Hf).
  change 1 with (Z.min 100 (1 + 0)) at 1.
  rewrite (create_ranges_loop_closed _ job_data [] 0 ltac:(lia) Ht Hf Hnd).
  destruct (res_traverse _ (dict_values job_data)) as [sizes|e]; cbn [res_map res_bind];
    [|reflexivity].
  rewrite app_nil_l. cbn [res_bind].
  destruct job_data as [|[j f] init _] using rev_ind; [reflexivity|].
  rewrite length_app. simpl length. rewrite Nat.add_1_r. cbn [Nat.eqb].
  rewrite !imap_app. cbn [imap].
  destruct (range_bound 0 sizes (length init + 0)) as [s e].
  rewrite dict_keys_app in Hnd.
  rewrite create_ranges_last
    by (rewrite imap_keys; exact (NoDup_app_cons_notin _ [] _ Hnd)).
  rewrite Nat.add_0_r, Nat.eqb_refl. cbn. do 3 f_equal.
  apply imap_ext. intros k [j' f'] Hk%lookup_lt_Some. cbn.
  by rewrite (proj2 (Nat.eqb_neq k (length init))) by lia.
Qed.

Lemma create_ranges_closed_form_witness :
  create_ranges [("J1", 1); ("J2", 1); ("J3", 0)]%string
  = create_ranges_ref [("J1", 1); ("J2", 1); ("J3", 0)]%string.
Proof.
  apply create_ranges_closed_form.
  - apply (bool_decide_unpack _). vm_compute. reflexivity.
  - repeat constructor; simpl; lia.
Defined.

End RangeSpec.
