(* ===== verification/DrawResolver.v ===== *)
(** * Draw Resolver: [get_job_from_random] (src/app.py, lines 36-40)

    Scans the ranges in insertion order and returns the first job whose
    [(start, end)] contains the drawn number, or [None].  Its abstract
    specification is [owns]: the job owning a number is the one whose range
    contains it.  On a tiling of [lo..hi] (the invariant of
    [RangeAllocator]) the scan refines [owns] exactly: it answers [Some j]
    iff [n] lies in [lo..hi] and [j] owns [n], and [None] iff [n] is
    outside the scale.  With the allocator's rounding this shows that a
    job other than the last whose frequency is at most half a percent of
    the total is never drawn. *)

From Stdlib Require Import ZArith Lia.
From stdpp Require Import base list strings decidable.
From S2P Require Import Prelude PyDict RangeAllocator.

Open Scope Z_scope.

Module DrawResolver.
Import RangeAllocator.

Section Resolver.
Context {K : Type}.
Implicit Types (rs : dict K (Z * Z)).

Fixpoint get_job_from_random (ranges : dict K (Z * Z)) (rand_num : Z) : option K :=
  match ranges with
  | [] => None
  | (job, (start, end_)) :: rest =>
      if (Z.leb start rand_num && Z.leb rand_num end_)%bool then Some job
      else get_job_from_random rest rand_num
  end.

(** The specification: [j] owns [n] when one of [j]'s ranges contains it. *)
Definition owns rs (j : K) (n : Z) : Prop :=
  exists s e, In (j, (s, e)) rs /\ s <= n <= e.

Lemma get_job_from_random_sound rs n j :
  get_job_from_random rs n = Some j -> owns rs j n.
Proof.
  induction rs as [|[k [s e]] rs IH]; simpl; [discriminate|].
  intros Hget. z_cases; simpl in Hget;
    first [ injection Hget as <-; exists s, e; split; [left; reflexivity | lia]
          | destruct (IH Hget) as (s' & e' & Hin & Hn); exists s', e';
            split; [right; exact Hin | exact Hn] ].
Qed.

Lemma get_job_from_random_none rs n :
  (forall j s e, In (j, (s, e)) rs -> n < s \/ e < n) ->
  get_job_from_random rs n = None.
Proof.
  induction rs as [|[k [s e]] rs IH]; simpl; intros Hout; [reflexivity|].
  destruct (Hout k s e (or_introl eq_refl)); z_cases; simpl;
    first [exfalso; lia | apply IH; eauto].
Qed.

(** Every range of a tiling of [lo..hi] lies after [lo] and ends by [hi]. *)
Lemma tiles_in_bounds lo hi rs j s e :
  tiles lo hi rs -> In (j, (s, e)) rs -> lo <= s /\ e <= hi /\ s <= e + 1.
Proof.
  revert lo j s e.
  induction rs as [|[k [s1 e1]] rs IH]; intros lo j s e Ht Hin; [destruct Hin|].
  destruct rs as [|r rs'].
  - destruct Hin as [[= -> -> ->]|[]]. simpl in Ht. lia.
  - apply tiles_cons in Ht as (-> & Hs1 & Ht); [|discriminate].
    destruct Hin as [[= -> -> ->]|Hin]; [|specialize (IH _ _ _ _ Ht Hin); lia].
    destruct r as [k' [s' e']].
    pose proof (IH _ _ _ _ Ht (or_introl eq_refl)). lia.
Qed.

Lemma get_job_from_random_total lo hi rs n :
  tiles lo hi rs -> lo <= n <= hi -> exists j, get_job_from_random rs n = Some j.
Proof.
  revert lo. induction rs as [|[k [s e]] rs IH]; intros lo Ht Hn; [destruct Ht|].
  simpl. z_cases; simpl; eauto.
  all: destruct rs as [|r rs']; [simpl in Ht; lia|].
  all: apply tiles_cons in Ht as (-> & _ & Ht); [|discriminate].
  all: apply (IH (e + 1)); [exact Ht | lia].
Qed.

(** Two ranges of a tiling that contain the same number are the same
    entry: the tiling has no overlap. *)
Lemma tiles_disjoint lo hi rs j1 s1 e1 j2 s2 e2 n :
  tiles lo hi rs -> In (j1, (s1, e1)) rs -> In (j2, (s2, e2)) rs ->
  s1 <= n <= e1 -> s2 <= n <= e2 -> (j1, (s1, e1)) = (j2, (s2, e2)).
Proof.
  revert lo. induction rs as [|[k [s e]] rs IH]; intros lo Ht H1 H2 Hn1 Hn2; [destruct H1|].
  destruct rs as [|r rs'].
  { destruct H1 as [<-|[]], H2 as [<-|[]]. reflexivity. }
  apply tiles_cons in Ht as (-> & _ & Ht); [|discriminate].
  destruct H1 as [[= <- <- <-]|H1], H2 as [[= <- <- <-]|H2].
  - reflexivity.
  - pose proof (tiles_in_bounds _ _ _ _ _ _ Ht H2). lia.
  - pose proof (tiles_in_bounds _ _ _ _ _ _ Ht H1). lia.
  - exact (IH _ Ht H1 H2 Hn1 Hn2).
Qed.
End Resolver.

(** ** Properties of [get_job_from_random] *)

(** C2 (resolver refines ownership).  On ranges that tile [lo..hi], the
    resolver returns [Some j] exactly when the number lies in [lo..hi]
    and [j]'s range contains it: the first match of the scan is the only
    one. *)
Theorem get_job_from_random_refines {K : Type} lo hi (rs : dict K (Z * Z)) n j :
  tiles lo hi rs ->
  get_job_from_random rs n = Some j <-> lo <= n <= hi /\ owns rs j n.
Proof.
  intros Ht. split.
  - intros H. pose proof (get_job_from_random_sound _ _ _ H) as (s & e & Hin & Hn).
    pose proof (tiles_in_bounds _ _ _ _ _ _ Ht Hin).
    split; [lia | exists s, e; auto].
  - intros [Hn (s & e & Hin & Hse)].
    destruct (get_job_from_random_total _ _ _ _ Ht Hn) as [j' Hj'].
    destruct (get_job_from_random_sound _ _ _ Hj') as (s' & e' & Hin' & Hse').
    pose proof (tiles_disjoint _ _ _ _ _ _ _ _ _ n Ht Hin Hin' Hse Hse') as Heq.
    injection Heq as <- _ _. exact Hj'.
Qed.

Lemma get_job_from_random_refines_witness :
  get_job_from_random [("J1", (1, 10)); ("J2", (11, 30)); ("J3", (31, 99))]%string 15
    = Some "J2"%string.
Proof.
  apply (get_job_from_random_refines 1 99); [simpl; lia|].
  split; [lia|]. exists 11, 30. split; [right; left; reflexivity | lia].
Defined.

(** C6 (no-match signal).  On ranges that tile [lo..hi], the resolver
    answers [None] exactly for the numbers outside [lo..hi]. *)
Theorem get_job_from_random_None_iff {K : Type} lo hi (rs : dict K (Z * Z)) n :
  tiles lo hi rs -> get_job_from_random rs n = None <-> n < lo \/ hi < n.
Proof.
  intros Ht. split.
  - intros H. destruct (Z_lt_le_dec n lo) as [?|Hlo]; [left; exact l|].
    destruct (Z_lt_le_dec hi n) as [?|Hhi]; [right; exact l|].
    destruct (get_job_from_random_total _ _ _ n Ht (conj Hlo Hhi)) as [j Hj]. congruence.
  - intros Hout. apply get_job_from_random_none.
    intros j s e Hin. pose proof (tiles_in_bounds _ _ _ _ _ _ Ht Hin). lia.
Qed.

Lemma get_job_from_random_None_iff_witness :
  get_job_from_random [("J1", (1, 10)); ("J2", (11, 30)); ("J3", (31, 99))]%string 100 = None.
Proof. apply (get_job_from_random_None_iff 1 99); [simpl; lia | right; lia]. Defined.

(** C7 (functional).  A job whose frequency is at most half a percent of
    the total, and which is not the last job, is never drawn: its share
    [99 * f / t] is rounded to the size 0, so [create_ranges] gives it the
    empty range [(s, s - 1)] (with no overflow of the cursor), and
    [get_job_from_random] never returns it, whatever the number.  The
    program keeps such a job in every table with the probability 0. *)
Theorem small_frequency_never_drawn pre j f post :
  NoDup (dict_keys (pre ++ (j, f) :: post)) ->
  Forall (fun f => 0 <= f) (dict_values (pre ++ (j, f) :: post)) ->
  post <> [] -> 0 < sum_Z (dict_values (pre ++ (j, f) :: post)) ->
  200 * f <= sum_Z (dict_values (pre ++ (j, f) :: post)) ->
  exists ranges s, create_ranges (pre ++ (j, f) :: post) = Ok (ranges, 99) /\
    dict_get ranges j = Some (s, s - 1) /\ forall n, get_job_from_random ranges n <> Some j.
Proof.
  intros Hnd Hf Hpost Ht Hsmall.
  destruct (create_ranges_entry pre j f post Hnd Hf Ht Hpost) as (ranges & s & k & Hcr & Hk & Hs & Hget).
  assert (Hf0 : 0 <= f).
  { rewrite Forall_forall in Hf. apply Hf. unfold dict_values. rewrite map_app.
    apply in_or_app. right. left. reflexivity. }
  rewrite (range_size_small f _ Hf0 Ht Hsmall) in Hk. injection Hk as <-.
  replace (s + 0 - 1) with (s - 1) in Hget by lia.
  destruct (Z.ltb_spec 99 (s - 1)); [lia|].
  exists ranges, s. split_and!; [exact Hcr | exact Hget|]. intros n Hn.
  destruct (get_job_from_random_sound _ _ _ Hn) as (s' & e' & Hin & Hse).
  destruct (create_ranges_tiles _ _ _ Hnd Hf Hcr) as (_ & Hkeys & _).
  rewrite <- Hkeys in Hnd. rewrite (dict_get_NoDup_In _ _ _ Hnd Hin) in Hget.
  injection Hget as -> ->. lia.
Qed.

Lemma small_frequency_never_drawn_witness :
  exists ranges s, create_ranges ([] ++ ("J1"%string, 1) :: [("J2"%string, 1000)]) = Ok (ranges, 99) /\
    dict_get ranges "J1"%string = Some (s, s - 1) /\
    forall n, get_job_from_random ranges n <> Some "J1"%string.
Proof.
  apply small_frequency_never_drawn.
  - apply (bool_decide_unpack _). vm_compute. reflexivity.
  - repeat constructor; simpl; lia.
  - discriminate.
  - vm_compute. reflexivity.
  - vm_compute. discriminate.
Defined.
End DrawResolver.
