(* ===== verification/RandomSource.v ===== *)
(** * The random source: [random.randint] (called at src/app.py, line 52)

    The program draws with the process-wide generator of Python's [random]
    module.  The runner uses it through an interface: a generator state
    [G] and a draw function.  The library's own guard is modelled:
    [randint(a, b)] raises [ValueError] when the range is empty ([b < a]).
    The law a generator must satisfy is [rng_draw_range]: a draw from
    [a..b] lies in [a..b].  Two instances:

    - [replay]: the deterministic stub of the spec's tests, which returns a
      fixed sequence of numbers (and [a] once it is exhausted); it is lawful
      only on sequences that stay in range, so it has no law instance;
    - [lcg]: a linear congruential generator reduced into the range, which
      satisfies the law.
    CPython's own algorithm is modelled in [MersenneTwister], whose
    [randint] raises the same [ValueError] and otherwise returns a number
    in the range, the law of this interface. *)

From Stdlib Require Import ZArith Lia.
From stdpp Require Import base list.
From S2P Require Import Prelude.

Open Scope Z_scope.

Class RandomSource (G : Type) := {
  rng_draw : Z -> Z -> G -> Z * G
}.

Class RandomSourceLaws (G : Type) `{RandomSource G} := {
  rng_draw_range : forall a b g, a <= b -> a <= fst (rng_draw a b g) <= b
}.

(** [random.randint(a, b)] on the generator state [g]. *)
Definition randint {G : Type} `{RandomSource G} (a b : Z) (g : G) : res (Z * G) :=
  if Z.ltb b a then Err ValueError else Ok (rng_draw a b g).

Lemma randint_range {G : Type} `{RandomSourceLaws G} a b g x g' :
  randint a b g = Ok (x, g') -> a <= x <= b.
Proof.
  unfold randint. destruct (Z.ltb_spec b a); [discriminate|].
  intros Hd. injection Hd as Hd. pose proof (rng_draw_range a b g ltac:(lia)) as Hr.
  rewrite Hd in Hr. exact Hr.
Qed.

Lemma randint_ok {G : Type} `{RandomSource G} a b g :
  a <= b -> randint a b g = Ok (rng_draw a b g).
Proof. unfold randint. destruct (Z.ltb_spec b a); [lia | reflexivity]. Qed.

(** The replayed sequence of the spec's deterministic tests. *)
Record replay := Replay { replay_rest : list Z }.

#[export] Instance replay_source : RandomSource replay := {
  rng_draw a _ g :=
    match replay_rest g with
    | x :: rest => (x, Replay rest)
    | [] => (a, Replay [])
    end
}.

(** A linear congruential generator (the constants of the C standard's
    example [rand]), reduced into the requested range. *)
Record lcg := Lcg { lcg_seed : Z }.

Definition lcg_next (s : Z) : Z := (s * 1103515245 + 12345) mod 2147483648.

#[export] Instance lcg_source : RandomSource lcg := {
  rng_draw a b g := (a + lcg_seed g mod (b - a + 1), Lcg (lcg_next (lcg_seed g)))
}.

#[export] Instance lcg_laws : RandomSourceLaws lcg.
Proof.
  constructor. intros a b g Hab. simpl.
  pose proof (Z.mod_pos_bound (lcg_seed g) (b - a + 1) ltac:(lia)). lia.
Qed.

#[export] Hint Resolve randint_range : sim.
