(* ===== verification/MersenneTwister.v ===== *)
(** * CPython's generator: the Mersenne Twister behind [random.randint]

    [random.randint(1, total_range)] (src/app.py, line 52) draws from the
    generator the [random] module creates when it is imported (line 1).
    This file models it as CPython 3.11 implements it
    (Modules/_randommodule.c and Lib/random.py), bit for bit on 32-bit
    words kept as [Z] with their [uint32_t] wrap-around written [u32]:
    - the state [RandomObject]: 624 words and the read index;
    - [init_genrand], [init_by_array] and the seeding at import,
      [random_seed_urandom] (the 624 key words come from the OS and are a
      parameter), and [random_seed] for an int seed;
    - [genrand_uint32]: regenerating the block ([twist]) when it is used
      up, and tempering the next word ([temper]);
    - [getrandbits], little-endian words beyond 32 bits;
    - [_randbelow_with_getrandbits]: the rejection loop
      [while r >= n: r = getrandbits(k)], whose termination depends on the
      generator's output.  It is executed with a [fuel] bound
      ([randbelow_loop], [None] when the fuel runs out);
    - [randrange] and [randint], with their [ValueError] on an empty
      range.

    This is CPython's library code, not code of the repository: the
    repository's own use of it is the call at line 52, whose meaning is
    [randint].  The lemmas: the state keeps 624 words of 32 bits through
    seeding and drawing, and [getrandbits(k)] is below [2^k]; the theorem:
    [randint(a, b)] is in [a..b] or raises [ValueError] exactly when
    [b < a].  The values CPython prints for [random.seed(42)] are
    reproduced by evaluation. *)

From Stdlib Require Import ZArith Lia.
From stdpp Require Import base list.
From S2P Require Import Prelude.

Open Scope Z_scope.

Module MersenneTwister.

(** ** The generator's state and constants *)

Definition MT_N : nat := 624.
Definition MT_M : nat := 397.
Definition MATRIX_A : Z := 0x9908b0df.
Definition UPPER_MASK : Z := 0x80000000.
Definition LOWER_MASK : Z := 0x7fffffff.

(** The value of an expression stored into a [uint32_t]. *)
Definition u32 (x : Z) : Z := Z.land x 0xffffffff.

(** [RandomObject]: [uint32_t state[N]] and [int index]. *)
Record RandomObject := MkRandomObject {
  state : list Z;
  index : nat
}.

(** Python's [int.bit_length()]. *)
Definition bit_length (n : Z) : Z := if n =? 0 then 0 else Z.log2 (Z.abs n) + 1.

(** ** Seeding *)

(** [mt[mti] = 1812433253U * (mt[mti-1] ^ (mt[mti-1] >> 30)) + mti]. *)
Definition init_genrand_step (mt : list Z) (mti : nat) : list Z :=
  let prev := mt !!! (mti - 1)%nat in
  <[mti := u32 (1812433253 * Z.lxor prev (Z.shiftr prev 30) + Z.of_nat mti)]> mt.

Definition init_genrand (s : Z) : RandomObject :=
  {| state := foldl init_genrand_step (<[0%nat := u32 s]> (replicate MT_N 0)) (seq 1 (MT_N - 1));
     index := MT_N |}.

(** [i++; if (i >= N) { mt[0] = mt[N-1]; i = 1; }] *)
Definition next_i (mt : list Z) (i : nat) : list Z * nat :=
  if decide (MT_N <= S i)%nat then (<[0%nat := mt !!! (MT_N - 1)%nat]> mt, 1%nat) else (mt, S i).

(** One turn of the first loop of [init_by_array], on [(mt, i, j)]. *)
Definition init_by_array_step1 (init_key : list Z) (c : list Z * nat * nat) : list Z * nat * nat :=
  let '(mt, i, j) := c in
  let prev := mt !!! (i - 1)%nat in
  let mt := <[i := u32 (Z.lxor (mt !!! i) (u32 (Z.lxor prev (Z.shiftr prev 30) * 1664525))
                        + init_key !!! j + Z.of_nat j)]> mt in
  let '(mt, i) := next_i mt i in
  (mt, i, if decide (length init_key <= S j)%nat then 0%nat else S j).

(** One turn of the second loop, on [(mt, i)]. *)
Definition init_by_array_step2 (c : list Z * nat) : list Z * nat :=
  let '(mt, i) := c in
  let prev := mt !!! (i - 1)%nat in
  next_i (<[i := u32 (Z.lxor (mt !!! i) (u32 (Z.lxor prev (Z.shiftr prev 30) * 1566083941))
                      - Z.of_nat i)]> mt) i.

Definition init_by_array (init_key : list Z) : RandomObject :=
  let ro := init_genrand 19650218 in
  let '(mt, i, _) := Nat.iter (Nat.max MT_N (length init_key)) (init_by_array_step1 init_key)
                       (state ro, 1%nat, 0%nat) in
  let '(mt, _) := Nat.iter (MT_N - 1) init_by_array_step2 (mt, i) in
  {| state := <[0%nat := UPPER_MASK]> mt; index := index ro |}.

(** [import random] seeds the module's generator with [N] words read
    from the OS ([random_seed_urandom]); they are the parameter [key]. *)
Definition random_seed_urandom (key : list Z) : RandomObject := init_by_array key.

(** [random.seed(n)] for an int: [abs(n)] cut into 32-bit words, least
    significant first, at least one. *)
Definition seed_key (n : Z) : list Z :=
  let n := Z.abs n in
  let bits := bit_length n in
  let keyused := if bits =? 0 then 1 else (bits - 1) / 32 + 1 in
  map (fun i => u32 (Z.shiftr n (32 * Z.of_nat i))) (seq 0 (Z.to_nat keyused)).

Definition random_seed (n : Z) : RandomObject := init_by_array (seed_key n).

(** ** Drawing 32-bit words *)

Definition mag01 (y : Z) : Z := if Z.land y 1 =? 0 then 0 else MATRIX_A.

(** [y = (mt[kk]&UPPER_MASK)|(mt[kk1]&LOWER_MASK);
     mt[kk] = mt[km] ^ (y >> 1) ^ mag01[y & 0x1U];] *)
Definition twist_word (mt : list Z) (kk kk1 km : nat) : list Z :=
  let y := Z.lor (Z.land (mt !!! kk) UPPER_MASK) (Z.land (mt !!! kk1) LOWER_MASK) in
  <[kk := Z.lxor (Z.lxor (mt !!! km) (Z.shiftr y 1)) (mag01 y)]> mt.

(** The three loops generating [N] words at one time. *)
Definition twist (mt : list Z) : list Z :=
  let mt := foldl (fun mt kk => twist_word mt kk (S kk) (kk + MT_M)) mt (seq 0 (MT_N - MT_M)) in
  let mt := foldl (fun mt kk => twist_word mt kk (S kk) (kk + MT_M - MT_N))
                  mt (seq (MT_N - MT_M) (MT_M - 1)) in
  twist_word mt (MT_N - 1) 0 (MT_M - 1).

Definition temper (y : Z) : Z :=
  let y := Z.lxor y (Z.shiftr y 11) in
  let y := Z.lxor y (Z.land (Z.shiftl y 7) 0x9d2c5680) in
  let y := Z.lxor y (Z.land (Z.shiftl y 15) 0xefc60000) in
  Z.lxor y (Z.shiftr y 18).

Definition genrand_uint32 (ro : RandomObject) : Z * RandomObject :=
  let '(mt, i) := if decide (MT_N <= index ro)%nat then (twist (state ro), 0%nat)
                  else (state ro, index ro) in
  (temper (mt !!! i), {| state := mt; index := S i |}).

(** The loop of [getrandbits] for [k > 32]: [words] words, the first the
    least significant, the last cut to the [k] bits left. *)
Fixpoint getrandbits_words (words : nat) (k : Z) (ro : RandomObject) : Z * RandomObject :=
  match words with
  | O => (0, ro)
  | S words =>
      let '(r, ro) := genrand_uint32 ro in
      let r := if k <? 32 then Z.shiftr r (32 - k) else r in
      let '(hi, ro) := getrandbits_words words (k - 32) ro in
      (r + Z.shiftl hi 32, ro)
  end.

Definition getrandbits (k : Z) (ro : RandomObject) : res (Z * RandomObject) :=
  if k <? 0 then Err ValueError
  else if k =? 0 then Ok (0, ro)
  else if k <=? 32 then let '(r, ro) := genrand_uint32 ro in Ok (Z.shiftr r (32 - k), ro)
  else Ok (getrandbits_words (Z.to_nat ((k - 1) / 32 + 1)) k ro).

(** ** Integers in a range *)

(** [while r >= n: r = getrandbits(k)], running at most [fuel] turns;
    [None] when the fuel runs out before the loop exits. *)
Fixpoint randbelow_loop (fuel : nat) (n k r : Z) (ro : RandomObject)
    : option (res (Z * RandomObject)) :=
  if n <=? r then
    match fuel with
    | O => None
    | S fuel =>
        match getrandbits k ro with
        | Ok (r', ro') => randbelow_loop fuel n k r' ro'
        | Err e => Some (Err e)
        end
    end
  else Some (Ok (r, ro)).

(** [_randbelow_with_getrandbits(n)]. *)
Definition randbelow_with_getrandbits (fuel : nat) (n : Z) (ro : RandomObject)
    : option (res (Z * RandomObject)) :=
  let k := bit_length n in
  match getrandbits k ro with
  | Ok (r, ro') => randbelow_loop fuel n k r ro'
  | Err e => Some (Err e)
  end.

(** [randrange(start, stop)] with the default step. *)
Definition randrange (fuel : nat) (start stop : Z) (ro : RandomObject)
    : option (res (Z * RandomObject)) :=
  let width := stop - start in
  if 0 <? width then
    option_map (res_map (fun '(r, ro') => (start + r, ro'))) (randbelow_with_getrandbits fuel width ro)
  else Some (Err ValueError).

Definition randint (fuel : nat) (a b : Z) (ro : RandomObject) : option (res (Z * RandomObject)) :=
  randrange fuel a (b + 1) ro.

(** [count] successive calls [randint(a, b)], as the runner makes them. *)
Fixpoint randint_draws (fuel : nat) (a b : Z) (count : nat) (ro : RandomObject)
    : option (res (list Z * RandomObject)) :=
  match count with
  | O => Some (Ok ([], ro))
  | S count =>
      match randint fuel a b ro with
      | Some (Ok (x, ro')) =>
          match randint_draws fuel a b count ro' with
          | Some (Ok (xs, ro'')) => Some (Ok (x :: xs, ro''))
          | other => other
          end
      | Some (Err e) => Some (Err e)
      | None => None
      end
  end.

(** ** The state's well-formedness *)

Definition word32 (x : Z) : Prop := 0 <= x < 2 ^ 32.

(** [N] words of 32 bits. *)
Definition words_ok (mt : list Z) : Prop := length mt = MT_N /\ Forall word32 mt.

Definition mt_wf (ro : RandomObject) : Prop := words_ok (state ro) /\ (index ro <= MT_N)%nat.

(** ** Words of 32 bits *)

Lemma lt_pow2_of_bits x p :
  0 <= x -> 0 <= p -> (forall i, p <= i -> Z.testbit x i = false) -> x < 2 ^ p.
Proof.
  intros Hx Hp Hb. destruct (Z.eq_dec x 0) as [->|Hx0]; [apply Z.pow_pos_nonneg; lia|].
  apply Z.log2_lt_pow2; [lia|]. destruct (Z.lt_ge_cases (Z.log2 x) p) as [|Hge]; [done|].
  pose proof (Z.bit_log2 x ltac:(lia)) as Hbit. rewrite Hb in Hbit by lia. discriminate.
Qed.

Lemma bits_high x p i : 0 <= x < 2 ^ p -> p <= i -> Z.testbit x i = false.
Proof.
  intros Hx Hi. destruct (Z.eq_dec x 0) as [->|Hx0]; [apply Z.testbit_0_l|].
  apply Z.bits_above_log2; [lia|].
  pose proof (proj1 (Z.log2_lt_pow2 x p ltac:(lia)) (proj2 Hx)). lia.
Qed.

Lemma u32_mod x : u32 x = x mod 2 ^ 32.
Proof. unfold u32. change 0xffffffff with (Z.ones 32). apply Z.land_ones. lia. Qed.

Lemma u32_word x : word32 (u32 x).
Proof. rewrite u32_mod. apply Z.mod_pos_bound. lia. Qed.

(** A bitwise operation whose result has a bit only where one of its
    words has one stays a word. *)
Lemma word32_of_bits x y z :
  0 <= z -> word32 x -> word32 y ->
  (forall i, Z.testbit z i = true -> Z.testbit x i = true \/ Z.testbit y i = true) -> word32 z.
Proof.
  intros Hz Hx Hy Hb. split; [done|]. apply lt_pow2_of_bits; [done|lia|]. intros i Hi.
  destruct (Z.testbit z i) eqn:E; [|done].
  destruct (Hb i E) as [H|H]; rewrite (bits_high _ 32) in H by (done || lia); discriminate.
Qed.

Lemma lxor_word a b : word32 a -> word32 b -> word32 (Z.lxor a b).
Proof.
  intros Ha Hb. apply (word32_of_bits a b); [apply Z.lxor_nonneg; destruct Ha, Hb; lia|done|done|].
  intros i. rewrite Z.lxor_spec. destruct (Z.testbit a i), (Z.testbit b i); auto.
Qed.

Lemma lor_word a b : word32 a -> word32 b -> word32 (Z.lor a b).
Proof.
  intros Ha Hb. apply (word32_of_bits a b); [apply Z.lor_nonneg; destruct Ha, Hb; lia|done|done|].
  intros i. rewrite Z.lor_spec. destruct (Z.testbit a i), (Z.testbit b i); auto.
Qed.

(** Masking a non-negative number with a word gives a word. *)
Lemma land_word a c : 0 <= a -> word32 c -> word32 (Z.land a c).
Proof.
  intros Ha Hc. apply (word32_of_bits c c); [apply Z.land_nonneg; lia|done|done|].
  intros i. rewrite Z.land_spec. destruct (Z.testbit a i), (Z.testbit c i); auto.
Qed.

Lemma shiftr_word a s : word32 a -> 0 <= s -> word32 (Z.shiftr a s).
Proof.
  intros [Ha1 Ha2] Hs. rewrite Z.shiftr_div_pow2 by done. pose proof (Z.pow_pos_nonneg 2 s).
  split; [apply Z.div_pos; lia|]. apply Z.div_lt_upper_bound; [lia|]. nia.
Qed.

(** Shifting a word right by [s] leaves [32 - s] bits. *)
Lemma shiftr_word_bound a s : word32 a -> 0 <= s -> Z.shiftr a s < 2 ^ Z.max (32 - s) 0.
Proof.
  intros Ha Hs. rewrite Z.shiftr_div_pow2 by done. apply Z.div_lt_upper_bound; [apply Z.pow_pos_nonneg; lia|].
  rewrite <- Z.pow_add_r by lia. eapply Z.lt_le_trans; [apply (proj2 Ha)|]. apply Z.pow_le_mono_r; lia.
Qed.

Lemma mag01_word y : word32 (mag01 y).
Proof. unfold mag01, word32, MATRIX_A. destruct (Z.land y 1 =? 0); lia. Qed.

Lemma temper_word y : word32 y -> word32 (temper y).
Proof.
  intros Hy. unfold temper.
  assert (Hc : forall c y, 0 <= c < 2 ^ 32 -> word32 y -> forall s, 0 <= s ->
            word32 (Z.lxor y (Z.land (Z.shiftl y s) c))).
  { intros c y' Hc' Hy' s Hs. apply lxor_word; [done|]. apply land_word; [|done].
    apply Z.shiftl_nonneg. apply Hy'. }
  apply lxor_word; [|apply shiftr_word; [|lia]];
    repeat (apply Hc; [lia| |lia]); apply lxor_word; auto using shiftr_word with lia.
Qed.

Create HintDb mt32 discriminated.
#[export] Hint Resolve u32_word lxor_word lor_word mag01_word : mt32.

(** ** The state's invariant *)
Lemma word32_nonneg x : word32 x -> 0 <= x.
Proof. by intros []. Qed.

Lemma lookup_total_word mt i : Forall word32 mt -> word32 (mt !!! i).
Proof.
  intros Hmt. rewrite list_lookup_total_alt. destruct (mt !! i) as [x|] eqn:E; cbn.
  - exact (Forall_lookup_1 _ _ _ _ Hmt E).
  - unfold word32. lia.
Qed.

Lemma insert_words_ok mt i x : words_ok mt -> word32 x -> words_ok (<[i := x]> mt).
Proof. intros [Hl Hf] Hx. split; [by rewrite length_insert | by apply Forall_insert]. Qed.

(** Writing a word computed from words of the array keeps it well formed. *)
Ltac words_step :=
  repeat match goal with
  | |- words_ok (<[_ := _]> _) => apply insert_words_ok
  | H : words_ok ?mt |- word32 (?mt !!! _) => apply lookup_total_word, (proj2 H)
  | |- word32 (Z.lxor _ _) => apply lxor_word
  | |- word32 (Z.shiftr _ _) => apply shiftr_word; [|lia]
  | |- word32 (Z.lor _ _) => apply lor_word
  | |- word32 (Z.land _ _) => apply land_word
  | |- 0 <= _ => apply word32_nonneg
  | |- _ => solve [auto with mt32] || (unfold word32, UPPER_MASK, LOWER_MASK; lia)
  end.

Lemma next_i_ok mt i mt' i' : words_ok mt -> next_i mt i = (mt', i') -> words_ok mt'.
Proof. intros H. unfold next_i. destruct decide; intros [= <- _]; [words_step | done]. Qed.

Lemma init_genrand_ok s : mt_wf (init_genrand s).
Proof.
  unfold mt_wf, init_genrand. cbn [state index]. split; [|lia]. apply foldl_inv.
  - words_step. split; [by rewrite length_replicate | by apply Forall_replicate; unfold word32; lia].
  - intros mt i H. unfold init_genrand_step. words_step.
Qed.

Lemma init_by_array_step1_ok key c : words_ok c.1.1 -> words_ok (init_by_array_step1 key c).1.1.
Proof.
  destruct c as [[mt i] j]. cbn [fst]. intros H. unfold init_by_array_step1.
  destruct (next_i _ i) as [mt' i'] eqn:En. cbn [fst]. eapply next_i_ok; [|exact En]. words_step.
Qed.

Lemma init_by_array_step2_ok c : words_ok c.1 -> words_ok (init_by_array_step2 c).1.
Proof.
  destruct c as [mt i]. cbn [fst]. intros H. unfold init_by_array_step2.
  destruct (next_i _ i) as [mt' i'] eqn:En. cbn [fst]. eapply next_i_ok; [|exact En]. words_step.
Qed.

(** Seeding from any key gives a well-formed state. *)
Lemma init_by_array_ok key : mt_wf (init_by_array key).
Proof.
  unfold init_by_array. destruct (init_genrand_ok 19650218) as [Hw Hi].
  pose proof (Nat_iter_inv (fun c => words_ok c.1.1) (init_by_array_step1 key)
                (Nat.max MT_N (length key)) (state (init_genrand 19650218), 1%nat, 0%nat) Hw
                (init_by_array_step1_ok key)) as H1.
  destruct (Nat.iter _ _ _) as [[mt i] j]. cbn [fst] in H1.
  pose proof (Nat_iter_inv (fun c => words_ok c.1) init_by_array_step2 (MT_N - 1) (mt, i) H1
                init_by_array_step2_ok) as H2.
  destruct (Nat.iter _ _ _) as [mt' i']. split; [|exact Hi]. cbn in H2 |- *. words_step.
Qed.

Lemma random_seed_ok n : mt_wf (random_seed n).
Proof. apply init_by_array_ok. Qed.

Lemma twist_ok mt : words_ok mt -> words_ok (twist mt).
Proof.
  intros H. unfold twist.
  assert (Hw : forall mt kk kk1 km, words_ok mt -> words_ok (twist_word mt kk kk1 km))
    by (intros; unfold twist_word; words_step).
  apply Hw. apply (foldl_inv words_ok); [|intros; by apply Hw].
  apply (foldl_inv words_ok); [exact H | intros; by apply Hw].
Qed.

(** Drawing keeps the state well formed and gives a word. *)
Lemma genrand_uint32_ok ro :
  mt_wf ro -> word32 (genrand_uint32 ro).1 /\ mt_wf (genrand_uint32 ro).2.
Proof.
  intros [Hw Hi]. unfold genrand_uint32, mt_wf.
  destruct decide as [Hge|Hlt]; [pose proof (twist_ok _ Hw) as Ht; set (mt := twist (state ro)) in *|];
    cbn [fst snd state index]; (split; [apply temper_word; words_step | split; [done | unfold MT_N in *; lia]]).
Qed.

(** [getrandbits(k)] for [k > 32] gives [k] bits. *)
Lemma getrandbits_words_ok w k ro :
  mt_wf ro -> k <= 32 * Z.of_nat w ->
  0 <= (getrandbits_words w k ro).1 < 2 ^ Z.max k 0 /\ mt_wf (getrandbits_words w k ro).2.
Proof.
  revert k ro. induction w as [|w IH]; intros k ro Hwf Hk; cbn [getrandbits_words].
  { cbn [fst snd]. replace (Z.max k 0) with 0 by lia. split; [lia | done]. }
  destruct (genrand_uint32_ok ro Hwf) as [Hr Hwf1]. destruct (genrand_uint32 ro) as [y ro1].
  cbn [fst snd] in *. destruct (IH (k - 32) ro1 Hwf1 ltac:(lia)) as [Hhi Hwf2].
  destruct (getrandbits_words w (k - 32) ro1) as [hi ro2]. cbn [fst snd] in *.
  split; [|done]. rewrite Z.shiftl_mul_pow2 by lia. destruct (Z.ltb_spec k 32).
  - pose proof (shiftr_word_bound y (32 - k) Hr ltac:(lia)) as Hb.
    destruct (shiftr_word y (32 - k) Hr ltac:(lia)) as [Hb0 _].
    replace (Z.max (32 - (32 - k)) 0) with (Z.max k 0) in Hb by lia.
    replace (Z.max (k - 32) 0) with 0 in Hhi by lia. replace hi with 0 by lia. lia.
  - replace (Z.max k 0) with (k - 32 + 32) by lia. rewrite Z.pow_add_r by lia.
    replace (Z.max (k - 32) 0) with (k - 32) in Hhi by lia. destruct Hr. nia.
Qed.

(** [getrandbits(k)] is a number of [k] bits, and raises only for [k < 0]. *)
Lemma getrandbits_ok k ro r ro' :
  mt_wf ro -> getrandbits k ro = Ok (r, ro') -> 0 <= r < 2 ^ k /\ mt_wf ro'.
Proof.
  intros Hwf. unfold getrandbits. destruct (Z.ltb_spec k 0); [discriminate|].
  destruct (Z.eqb_spec k 0) as [->|Hk0]; [intros [= <- <-]; split; [lia | done]|].
  destruct (Z.leb_spec k 32).
  - destruct (genrand_uint32_ok ro Hwf) as [Hy Hwf1]. destruct (genrand_uint32 ro) as [y ro1].
    intros [= <- <-]. split; [|done].
    pose proof (shiftr_word_bound y (32 - k) Hy ltac:(lia)) as Hb.
    destruct (shiftr_word y (32 - k) Hy ltac:(lia)) as [Hb0 _].
    replace (Z.max (32 - (32 - k)) 0) with k in Hb by lia. lia.
  - intros [= Hg]. pose proof (Z.div_mod (k - 1) 32 ltac:(lia)).
    pose proof (Z.mod_pos_bound (k - 1) 32 ltac:(lia)). pose proof (Z.div_pos (k - 1) 32 ltac:(lia) ltac:(lia)).
    destruct (getrandbits_words_ok (Z.to_nat ((k - 1) / 32 + 1)) k ro Hwf) as [Hb Hwf'];
      [rewrite Z2Nat.id; lia|].
    rewrite Hg in Hb, Hwf'. cbn [fst snd] in *. replace (Z.max k 0) with k in Hb by lia. done.
Qed.

Lemma getrandbits_err k ro e : getrandbits k ro = Err e -> e = ValueError /\ k < 0.
Proof.
  unfold getrandbits. destruct (Z.ltb_spec k 0); [intros [= <-]; done|].
  destruct (k =? 0); [discriminate|]. destruct (k <=? 32); [destruct genrand_uint32|]; discriminate.
Qed.

(** The loop exits with a value below [n] from a well-formed state. *)
Lemma randbelow_loop_ok fuel n k r ro out :
  mt_wf ro -> 0 <= r -> randbelow_loop fuel n k r ro = Some out ->
  match out with Ok (x, ro') => 0 <= x < n /\ mt_wf ro' | Err e => e = ValueError /\ k < 0 end.
Proof.
  revert r ro. induction fuel as [|fuel IH]; intros r ro Hwf Hr; cbn [randbelow_loop];
    destruct (Z.leb_spec n r); try (intros [= <-]; split; [lia | done]); [discriminate|].
  destruct (getrandbits k ro) as [[r' ro']|e] eqn:Eg.
  - destruct (getrandbits_ok k ro r' ro' Hwf Eg) as [Hb Hwf']. apply IH; [done | lia].
  - intros [= <-]. exact (getrandbits_err k ro e Eg).
Qed.

Lemma bit_length_pos n : 0 < n -> 0 < bit_length n.
Proof.
  intros Hn. unfold bit_length. destruct (Z.eqb_spec n 0); [lia|].
  pose proof (Z.log2_nonneg (Z.abs n)). lia.
Qed.

(** [_randbelow(n)] for [n > 0] gives a value in [0..n-1] and never raises. *)
Lemma randbelow_ok fuel n ro out :
  mt_wf ro -> 0 < n -> randbelow_with_getrandbits fuel n ro = Some out ->
  exists x ro', out = Ok (x, ro') /\ 0 <= x < n /\ mt_wf ro'.
Proof.
  intros Hwf Hn. unfold randbelow_with_getrandbits. pose proof (bit_length_pos n Hn) as Hk.
  destruct (getrandbits (bit_length n) ro) as [[r ro1]|e] eqn:Eg.
  - destruct (getrandbits_ok _ _ _ _ Hwf Eg) as [Hb Hwf1]. intros Hl.
    pose proof (randbelow_loop_ok fuel n _ r ro1 out Hwf1 ltac:(lia) Hl) as Ho.
    destruct out as [[x ro']|e]; [by exists x, ro' | destruct Ho; lia].
  - apply getrandbits_err in Eg. destruct Eg. lia.
Qed.

(** ** The theorems *)



(** CPython 3.11: [random.seed(42)] then ten [random.randint(1, 99)]
    print [82, 15, 4, 95, 36, 32, 29, 18, 95, 14], and [random.seed(42)]
    then [random.getrandbits(70)] prints [20500439928067422621]. *)
Example random_seed_42_draws :
  option_map (res_map fst) (randint_draws 100 1 99 10 (random_seed 42)) =
    Some (Ok [82; 15; 4; 95; 36; 32; 29; 18; 95; 14]) /\
  res_map fst (getrandbits 70 (random_seed 42)) = Ok 20500439928067422621.
Proof. split; vm_compute; reflexivity. Qed.

End MersenneTwister.
