(* ===== verification/SimulationRunner.v ===== *)
(** * Simulation Runner: [run_simulations] (src/app.py, lines 43-68)

    Two nested loops draw [num_simulations * jobs_per_simulation] random
    numbers, resolve each to a job with [get_job_from_random], increment
    that job's running count ([job_counts[job] += 1], a [KeyError] when the
    resolver answered [None]) and record the draw with the running total
    [sum(count / total_draws)].  After the loops, [probabilities] divides
    each final count by the number of draws and [cumulative_prob] takes
    prefix sums of those probabilities in table order.

    The state threaded through the loops is [loop_state]: the counts dict
    and the random generator.  The runner is generic in the generator
    ([RandomSource]) and in the arithmetic on probabilities ([ProbArith]);
    the section variables are the function's parameters. *)

From Stdlib Require Import ZArith QArith Lia.
From stdpp Require Import base list strings decidable.
From S2P Require Import Prelude PyDict PyFloat Probability RangeAllocator DrawResolver RandomSource.

Open Scope Z_scope.

Module SimulationRunner.
Import RangeAllocator DrawResolver.

(** A draw record [(rand_num, job, cumulative_prob)]. *)
Definition detail (R : Type) : Type := (Z * string * R)%type.

(** The state the loops mutate: [job_counts] and the global generator. *)
Record loop_state (G : Type) := LoopState {
  job_counts : dict string Z;
  rng : G
}.
Arguments LoopState {G} _ _.
Arguments job_counts {G} _.
Arguments rng {G} _.

(** [job_counts[job]] where [job] may be [None]: [None] is never a key. *)
Definition as_key (job : option string) : res string :=
  match job with
  | Some j => Ok j
  | None => Err KeyError
  end.

Section Runner.
Context {G : Type} `{RandomSource G} {R : Type} `{ProbArith R}.
Variables (ranges : dict string (Z * Z))
          (total_range num_simulations jobs_per_simulation : Z).

Definition total_draws : Z := num_simulations * jobs_per_simulation.

(** [sum(job_counts[j] / total_draws for j in job_counts)] *)
Fixpoint sum_ratios (acc : R) (counts : list Z) : res R :=
  match counts with
  | [] => Ok acc
  | c :: rest => let! p := prob_div c total_draws in sum_ratios (prob_add acc p) rest
  end.

Definition running_cumulative (counts : dict string Z) : res R :=
  sum_ratios prob_zero (dict_values counts).

(** One iteration of the inner loop (lines 52-57). *)
Definition draw_once (st : loop_state G) : res (loop_state G * detail R) :=
  let! '(rand_num, g) := randint 1 total_range (rng st) in
  let! job := as_key (get_job_from_random ranges rand_num) in
  let! count := dict_getitem (job_counts st) job in
  let counts := dict_set (job_counts st) job (count + 1) in
  let! cumulative_prob := running_cumulative counts in
  Ok (LoopState counts g, (rand_num, job, cumulative_prob)).

(** [for _ in range(jobs_per_simulation)] with [sequence] and [sim_details]. *)
Fixpoint inner_loop (k : nat) (st : loop_state G) (sequence : list string)
    (sim_details : list (detail R)) : res (loop_state G * list string * list (detail R)) :=
  match k with
  | O => Ok (st, sequence, sim_details)
  | S k' =>
      let! '(st', d) := draw_once st in
      inner_loop k' st' (sequence ++ [d.1.2]) (sim_details ++ [d])
  end.

(** [for sim in range(num_simulations)] with [simulations] and
    [simulation_details]. *)
Fixpoint outer_loop (k : nat) (st : loop_state G) (simulations : list (list string))
    (simulation_details : list (list (detail R)))
    : res (loop_state G * list (list string) * list (list (detail R))) :=
  match k with
  | O => Ok (st, simulations, simulation_details)
  | S k' =>
      let! '(st', sequence, sim_details) :=
        inner_loop (Z.to_nat jobs_per_simulation) st [] [] in
      outer_loop k' st' (simulations ++ [sequence]) (simulation_details ++ [sim_details])
  end.

(** [{job: count / total_draws for job, count in job_counts.items()}] *)
Definition probabilities_of (counts : dict string Z) : res (dict string R) :=
  let! items := res_traverse
    (fun '(job, count) => let! p := prob_div count total_draws in Ok (job, p)) counts in
  Ok (dict_of_items items).

(** [for job, prob in probabilities.items(): cumulative_sum += prob; ...] *)
Fixpoint cumulative_loop (items : dict string R) (cumulative_sum : R)
    (cumulative_prob : dict string R) : dict string R :=
  match items with
  | [] => cumulative_prob
  | (job, prob) :: rest =>
      let s := prob_add cumulative_sum prob in
      cumulative_loop rest s (dict_set cumulative_prob job s)
  end.

(** The whole function; the generator's final state is returned too,
    since the program mutates the global generator. *)
Definition run_simulations (g : G)
    : res (list (list string) * dict string R * dict string R
           * list (list (detail R)) * G) :=
  let job_counts0 := dict_of_items (map (fun job => (job, 0)) (dict_keys ranges)) in
  let! '(st, simulations, simulation_details) :=
    outer_loop (Z.to_nat num_simulations) (LoopState job_counts0 g) [] [] in
  let! probabilities := probabilities_of (job_counts st) in
  let cumulative_prob := cumulative_loop probabilities prob_zero [] in
  Ok (simulations, probabilities, cumulative_prob, simulation_details, rng st).
End Runner.

(** ** The counts as a tally of the draws

    The loop invariant: after the jobs [drawn] have been drawn, the
    counts dict is [tally keys drawn], one entry per job of the ranges, in
    order, holding how often that job occurs in [drawn]. *)

Definition occurrences (drawn : list string) (j : string) : Z :=
  Z.of_nat (count_occ String.string_dec drawn j).

Definition tally (keys drawn : list string) : dict string Z :=
  map (fun j => (j, occurrences drawn j)) keys.

Lemma dict_keys_tally keys drawn : dict_keys (tally keys drawn) = keys.
Proof. unfold dict_keys, tally. rewrite map_map. apply map_id. Qed.

Lemma tally_init keys :
  NoDup keys -> dict_of_items (map (fun job => (job, 0)) keys) = tally keys [].
Proof.
  intros Hnd. rewrite dict_of_items_NoDup; [reflexivity|].
  unfold dict_keys. rewrite map_map. simpl. rewrite map_id. exact Hnd.
Qed.

Lemma tally_get keys drawn j :
  NoDup keys -> In j keys -> dict_get (tally keys drawn) j = Some (occurrences drawn j).
Proof.
  intros Hnd Hin. apply dict_get_NoDup_In.
  - rewrite dict_keys_tally. exact Hnd.
  - apply in_map_iff. eauto.
Qed.

Lemma occurrences_snoc_ne drawn j k :
  j <> k -> occurrences (drawn ++ [j]) k = occurrences drawn k.
Proof.
  intros Hne. unfold occurrences. rewrite count_occ_app. simpl.
  destruct (String.string_dec j k); [congruence | lia].
Qed.

Lemma occurrences_snoc_eq drawn j :
  occurrences (drawn ++ [j]) j = occurrences drawn j + 1.
Proof.
  unfold occurrences. rewrite count_occ_app. simpl.
  destruct (String.string_dec j j); [lia | congruence].
Qed.

Lemma tally_notin_snoc keys drawn j :
  ~ In j keys -> tally keys (drawn ++ [j]) = tally keys drawn.
Proof.
  intros Hnin. apply map_ext_in. intros k Hk.
  rewrite occurrences_snoc_ne; [reflexivity|]. intros ->. contradiction.
Qed.

(** [job_counts[job] += 1] moves the tally one draw forward. *)
Lemma tally_incr keys drawn j :
  NoDup keys -> In j keys ->
  dict_set (tally keys drawn) j (occurrences drawn j + 1) = tally keys (drawn ++ [j]).
Proof.
  induction keys as [|k keys IH]; intros Hnd Hin; [destruct Hin|].
  inversion Hnd as [|? ? Hk Hnd']; subst. simpl.
  case_decide as Hjk.
  - subst. rewrite occurrences_snoc_eq, tally_notin_snoc; [reflexivity|].
    intros Hin'. apply Hk, list_elem_of_In, Hin'.
  - rewrite occurrences_snoc_ne by congruence. f_equal.
    apply IH; [exact Hnd'|]. destruct Hin; [congruence | assumption].
Qed.

Lemma sum_indicator keys x :
  NoDup keys -> In x keys ->
  sum_Z (map (fun j => if String.string_dec x j then 1 else 0) keys) = 1.
Proof.
  induction keys as [|k keys IH]; intros Hnd Hin; [destruct Hin|].
  inversion Hnd as [|? ? Hk Hnd']; subst. simpl.
  destruct (String.string_dec x k) as [->|Hne].
  - rewrite (map_ext_in _ (fun _ => 0)).
    + clear. induction keys; simpl; lia.
    + intros j Hj. destruct (String.string_dec k j); [|reflexivity].
      subst. exfalso. apply Hk, list_elem_of_In, Hj.
  - destruct Hin as [->|Hin]; [congruence|]. rewrite IH by assumption. lia.
Qed.

(** Count conservation for the tally: when every drawn job is a key, the
    counts add up to the number of draws. *)
Lemma dict_values_tally keys drawn :
  dict_values (tally keys drawn) = map (occurrences drawn) keys.
Proof. unfold dict_values, tally. rewrite map_map. reflexivity. Qed.

Lemma tally_sum keys drawn :
  NoDup keys -> Forall (fun j => In j keys) drawn ->
  sum_Z (dict_values (tally keys drawn)) = Z.of_nat (length drawn).
Proof.
  intros Hnd Hall. rewrite dict_values_tally.
  induction Hall as [|x drawn Hx Hall IH].
  - clear. induction keys as [|k keys IHk]; simpl; [reflexivity|]. exact IHk.
  - rewrite (map_ext _ (fun j => occurrences drawn j + (if String.string_dec x j then 1 else 0))).
    + rewrite sum_Z_map_add, IH, sum_indicator by assumption. simpl. lia.
    + intros j. unfold occurrences. simpl. destruct (String.string_dec x j); lia.
Qed.

(** ** The loops, by their invariant *)

Definition detail_job {R : Type} (d : detail R) : string := d.1.2.
Definition detail_number {R : Type} (d : detail R) : Z := d.1.1.

Section RunnerProofs.
Context {G : Type} `{RandomSource G} {R : Type} `{ProbArith R}.
Variables (ranges : dict string (Z * Z))
          (total_range num_simulations jobs_per_simulation : Z).
Hypothesis Hnd : NoDup (dict_keys ranges).

Local Abbreviation keys := (dict_keys ranges).
Local Abbreviation running := (running_cumulative num_simulations jobs_per_simulation).
Local Abbreviation draw := (draw_once ranges total_range num_simulations jobs_per_simulation).
Local Abbreviation inner := (inner_loop ranges total_range num_simulations jobs_per_simulation).
Local Abbreviation outer := (outer_loop ranges total_range num_simulations jobs_per_simulation).

(** What each draw record says, given the jobs drawn before it: its job
    is the resolver's answer for its number, and its running total is
    the [sum] over the counts just after it. *)
Fixpoint records_ok (drawn : list string) (ds : list (detail R)) : Prop :=
  match ds with
  | [] => True
  | d :: ds' =>
      get_job_from_random ranges (detail_number d) = Some (detail_job d) /\
      running (tally keys (drawn ++ [detail_job d])) = Ok d.2 /\
      records_ok (drawn ++ [detail_job d]) ds'
  end.

Lemma records_ok_app drawn ds1 ds2 :
  records_ok drawn (ds1 ++ ds2) <->
  records_ok drawn ds1 /\ records_ok (drawn ++ map detail_job ds1) ds2.
Proof.
  revert drawn. induction ds1 as [|d ds1 IH]; intros drawn; simpl.
  - rewrite app_nil_r. tauto.
  - rewrite IH, <- app_assoc. simpl. tauto.
Qed.

Lemma draw_once_inv st st' d drawn :
  job_counts st = tally keys drawn -> draw st = Ok (st', d) ->
  get_job_from_random ranges (detail_number d) = Some (detail_job d) /\
  In (detail_job d) keys /\
  running (tally keys (drawn ++ [detail_job d])) = Ok d.2 /\
  job_counts st' = tally keys (drawn ++ [detail_job d]).
Proof.
  intros Hst Hrun0. unfold draw_once in Hrun0.
  apply res_bind_Ok in Hrun0 as ([n g] & _ & Hrun0).
  apply res_bind_Ok in Hrun0 as (j & Hj & Hrun0).
  apply res_bind_Ok in Hrun0 as (c & Hc & Hrun0).
  apply res_bind_Ok in Hrun0 as (cp & Hcp & [= <- <-]).
  destruct (get_job_from_random ranges n) as [j'|] eqn:Hget; [|discriminate].
  injection Hj as ->. unfold dict_getitem in Hc. rewrite Hst in Hc.
  destruct (dict_get (tally keys drawn) j) as [c'|] eqn:Hc'; [|discriminate].
  injection Hc as <-.
  assert (In j keys) as Hin.
  { rewrite <- (dict_keys_tally keys drawn). apply dict_get_keys. eauto. }
  rewrite tally_get in Hc' by assumption. injection Hc' as <-.
  rewrite Hst, tally_incr in * by assumption.
  unfold detail_job, detail_number. simpl. auto.
Qed.

Lemma inner_loop_inv k st sequence sim_details st' sequence' sim_details' drawn :
  job_counts st = tally keys drawn ->
  inner k st sequence sim_details = Ok (st', sequence', sim_details') ->
  exists ds, sim_details' = sim_details ++ ds /\
             sequence' = sequence ++ map detail_job ds /\
             length ds = k /\ records_ok drawn ds /\
             job_counts st' = tally keys (drawn ++ map detail_job ds).
Proof.
  revert st sequence sim_details drawn.
  induction k as [|k IH]; simpl; intros st sequence sim_details drawn Hst Hrun0.
  - injection Hrun0 as <- <- <-. exists []. simpl. rewrite !app_nil_r. auto.
  - apply res_bind_Ok in Hrun0 as ([st1 d] & Hd & Hrun0).
    destruct (draw_once_inv _ _ _ _ Hst Hd) as (Hget & _ & Hrun & Hst1).
    destruct (IH _ _ _ _ Hst1 Hrun0) as (ds & -> & -> & Hlen & Hrec & Hst').
    exists (d :: ds). rewrite <- !app_assoc. simpl.
    split; [reflexivity|]. split; [reflexivity|]. split; [lia|].
    split; [auto|]. rewrite Hst', <- app_assoc. reflexivity.
Qed.

Lemma outer_loop_inv k st sims dets st' sims' dets' drawn :
  job_counts st = tally keys drawn ->
  outer k st sims dets = Ok (st', sims', dets') ->
  exists dss, dets' = dets ++ dss /\
              sims' = sims ++ map (map detail_job) dss /\
              length dss = k /\
              Forall (fun ds => length ds = Z.to_nat jobs_per_simulation) dss /\
              records_ok drawn (concat dss) /\
              job_counts st' = tally keys (drawn ++ map detail_job (concat dss)).
Proof.
  revert st sims dets drawn.
  induction k as [|k IH]; simpl; intros st sims dets drawn Hst Hrun0.
  - injection Hrun0 as <- <- <-. exists []. simpl. rewrite !app_nil_r.
    repeat split; auto using Forall_nil.
  - apply res_bind_Ok in Hrun0 as ([[st1 sequence] sim_details] & Hin & Hrun0).
    destruct (inner_loop_inv _ _ _ _ _ _ _ _ Hst Hin)
      as (ds & -> & -> & Hlen & Hrec & Hst1).
    destruct (IH _ _ _ _ Hst1 Hrun0) as (dss & -> & -> & Hlen' & Hall & Hrec' & Hst').
    exists (ds :: dss). rewrite <- !app_assoc. simpl.
    split; [reflexivity|]. split; [reflexivity|]. split; [lia|].
    split; [constructor; assumption|]. split.
    + apply records_ok_app. split; assumption.
    + rewrite Hst', map_app, app_assoc. reflexivity.
Qed.

Lemma records_ok_keys drawn ds :
  records_ok drawn ds -> Forall (fun j => In j keys) (map detail_job ds).
Proof.
  revert drawn. induction ds as [|d ds IH]; simpl; intros drawn Hrec; [constructor|].
  destruct Hrec as (Hget & _ & Hrec). constructor; [|exact (IH _ Hrec)].
  destruct (get_job_from_random_sound _ _ _ Hget) as (s & e & Hin & _).
  apply in_map_iff. exists (detail_job d, (s, e)). auto.
Qed.

(** The whole function, by the loops' invariant: the job sequences are
    the jobs of the draw records, one list of [jobs_per_simulation]
    records per simulation, every record is right about its draw, the
    final counts are the tally of the sequences, and the two tables are
    computed from those counts. *)
Lemma run_simulations_inv g sims probs cum dets g' :
  run_simulations ranges total_range num_simulations jobs_per_simulation g
    = Ok (sims, probs, cum, dets, g') ->
  sims = map (map detail_job) dets /\
  length dets = Z.to_nat num_simulations /\
  Forall (fun ds => length ds = Z.to_nat jobs_per_simulation) dets /\
  records_ok [] (concat dets) /\
  probabilities_of num_simulations jobs_per_simulation (tally keys (concat sims)) = Ok probs /\
  cum = cumulative_loop probs prob_zero [].
Proof.
  intros Hrun0. unfold run_simulations in Hrun0.
  apply res_bind_Ok in Hrun0 as ([[st sims1] dets1] & Hout & Hrun0).
  apply res_bind_Ok in Hrun0 as (probs1 & Hprobs & [= <- <- <- <- <-]).
  rewrite tally_init in Hout by exact Hnd.
  destruct (outer_loop_inv _ (LoopState (tally keys []) g) _ _ _ _ _ [] eq_refl Hout)
    as (dss & -> & -> & Hlen & Hall & Hrec & Hst). simpl in *.
  rewrite Hst in Hprobs. rewrite <- concat_map. auto 10.
Qed.
End RunnerProofs.

Lemma run_simulations_draws {G : Type} `{RandomSource G} {R : Type} `{ProbArith R}
    ranges total_range num_simulations jobs_per_simulation g sims probs cum dets g' :
  NoDup (dict_keys ranges) ->
  run_simulations ranges total_range num_simulations jobs_per_simulation g
    = Ok (sims, probs, cum, dets, g') ->
  Forall (fun j => In j (dict_keys ranges)) (concat sims) /\
  length (concat sims) = (Z.to_nat num_simulations * Z.to_nat jobs_per_simulation)%nat.
Proof.
  intros Hnd Hrun.
  destruct (run_simulations_inv _ _ _ _ Hnd _ _ _ _ _ _ Hrun) as (-> & Hlen & Hall & Hrec & _).
  rewrite <- concat_map. split; [exact (records_ok_keys _ _ _ _ _ Hrec)|].
  rewrite length_map, (length_concat_uniform _ _ Hall), Hlen. reflexivity.
Qed.

Lemma records_ok_owned {R : Type} `{ProbArith R} ranges total_range N M drawn ds :
  tiles 1 total_range ranges ->
  records_ok ranges N M drawn ds ->
  Forall (fun d : detail R => 1 <= detail_number d <= total_range /\
                              owns ranges (detail_job d) (detail_number d)) ds.
Proof.
  intros Ht. revert drawn. induction ds as [|d ds IH]; intros drawn Hrec; [constructor|].
  destruct Hrec as (Hget & _ & Hrec). constructor; [|exact (IH _ Hrec)].
  destruct (get_job_from_random_sound _ _ _ Hget) as (s & e & Hin & Hse).
  pose proof (tiles_in_bounds _ _ _ _ _ _ Ht Hin).
  split; [lia | exists s, e; auto].
Qed.

(** C5 (trace of a run).  A successful run over ranges that tile
    [1..total_range] returns [num_simulations] job sequences of
    [jobs_per_simulation] jobs each; each sequence lists the jobs of the
    matching list of draw records, and every record's random number lies
    on the scale and belongs to the range of the job recorded with it. *)
Theorem run_simulations_trace {G : Type} `{RandomSource G} {R : Type} `{ProbArith R}
    ranges total_range num_simulations jobs_per_simulation g sims probs cum dets g' :
  NoDup (dict_keys ranges) -> tiles 1 total_range ranges ->
  run_simulations ranges total_range num_simulations jobs_per_simulation g
    = Ok (sims, probs, cum, dets, g') ->
  length sims = Z.to_nat num_simulations /\
  Forall (fun sequence => length sequence = Z.to_nat jobs_per_simulation) sims /\
  sims = map (map detail_job) dets /\
  Forall (fun d : detail R => 1 <= detail_number d <= total_range /\
                              owns ranges (detail_job d) (detail_number d)) (concat dets).
Proof.
  intros Hnd Ht Hrun.
  destruct (run_simulations_inv _ _ _ _ Hnd _ _ _ _ _ _ Hrun) as (-> & Hlen & Hall & Hrec & _).
  rewrite length_map. split; [exact Hlen|]. split.
  - apply Forall_map. eapply Forall_impl; [|exact Hall]. intros ds Hds. rewrite length_map. exact Hds.
  - split; [reflexivity|]. exact (records_ok_owned _ _ _ _ _ _ Ht Hrec).
Qed.

Lemma run_simulations_trace_witness :
  exists sims probs cum dets g',
    @run_simulations replay _ float _ [("J1", (1, 10)); ("J2", (11, 30)); ("J3", (31, 99))]%string
      99 1 5 (Replay [5; 15; 25; 50; 95]) = Ok (sims, probs, cum, dets, g') /\
    length sims = 1%nat.
Proof.
  do 5 eexists. split; [vm_compute; reflexivity|].
  refine (proj1 (run_simulations_trace
                   [("J1", (1, 10)); ("J2", (11, 30)); ("J3", (31, 99))]%string 99 1 5
                   (Replay [5; 15; 25; 50; 95]) _ _ _ _ _ _ _ _)).
  - apply (bool_decide_unpack _). vm_compute. reflexivity.
  - simpl. lia.
  - vm_compute. reflexivity.
Defined.

(** ** Absence of exceptions *)

Lemma occurrences_bounds drawn j :
  0 <= occurrences drawn j <= Z.of_nat (length drawn).
Proof. unfold occurrences. pose proof (count_occ_bound String.string_dec j drawn). lia. Qed.

Section RunnerSafety.
Context {G : Type} `{RandomSourceLaws G} {R : Type} `{ProbArithLaws R}.
Variables (ranges : dict string (Z * Z))
          (total_range num_simulations jobs_per_simulation : Z).
Hypothesis Hnd : NoDup (dict_keys ranges).
Hypothesis Htiles : tiles 1 total_range ranges.
Hypothesis Htotal : 1 <= total_range.
Hypothesis HT : 0 < num_simulations * jobs_per_simulation.

Local Abbreviation keys := (dict_keys ranges).
Local Abbreviation T := (num_simulations * jobs_per_simulation).
Local Abbreviation draw := (draw_once ranges total_range num_simulations jobs_per_simulation).
Local Abbreviation inner := (inner_loop ranges total_range num_simulations jobs_per_simulation).
Local Abbreviation outer := (outer_loop ranges total_range num_simulations jobs_per_simulation).

Lemma sum_ratios_ok acc (counts : list Z) :
  Forall (fun c => 0 <= c <= T) counts ->
  exists r, sum_ratios num_simulations jobs_per_simulation acc counts = Ok r.
Proof.
  intros Hall. revert acc. induction Hall as [|c counts Hc Hall IH]; intros acc; simpl; eauto.
  destruct (prob_div_ok c T Hc HT) as [p Hp]. unfold total_draws. rewrite Hp. apply IH.
Qed.

Lemma tally_values_bounded drawn :
  Z.of_nat (length drawn) <= T ->
  Forall (fun c => 0 <= c <= T) (dict_values (tally keys drawn)).
Proof.
  intros Hlen. rewrite dict_values_tally. apply Forall_forall.
  intros c Hc. apply in_map_iff in Hc as (j & <- & _).
  pose proof (occurrences_bounds drawn j). lia.
Qed.

Lemma draw_once_ok st drawn :
  job_counts st = tally keys drawn -> Z.of_nat (length drawn) < T ->
  exists st' d, draw st = Ok (st', d).
Proof.
  intros Hst Hlen. unfold draw_once.
  rewrite randint_ok by exact Htotal.
  destruct (rng_draw 1 total_range (rng st)) as [n g] eqn:Hdraw.
  pose proof (rng_draw_range 1 total_range (rng st) Htotal) as Hn. rewrite Hdraw in Hn.
  simpl in Hn |- *.
  destruct (get_job_from_random_total _ _ _ n Htiles Hn) as [j Hj]. rewrite Hj. simpl.
  destruct (get_job_from_random_sound _ _ _ Hj) as (s & e & Hin & _).
  assert (Hk : In j keys) by (apply in_map_iff; exists (j, (s, e)); auto).
  unfold dict_getitem. rewrite Hst, tally_get by assumption. simpl.
  rewrite tally_incr by assumption.
  destruct (sum_ratios_ok prob_zero (dict_values (tally keys (drawn ++ [j])))) as [r Hr].
  { apply tally_values_bounded. rewrite length_app. simpl. lia. }
  unfold running_cumulative. rewrite Hr. simpl. eauto.
Qed.

Lemma inner_loop_ok k st sequence sim_details drawn :
  job_counts st = tally keys drawn -> Z.of_nat (length drawn + k) <= T ->
  exists r, inner k st sequence sim_details = Ok r.
Proof.
  revert st sequence sim_details drawn.
  induction k as [|k IH]; intros st sequence sim_details drawn Hst Hlen; simpl; eauto.
  destruct (draw_once_ok st drawn Hst ltac:(lia)) as (st1 & d & Hd). rewrite Hd. simpl.
  destruct (draw_once_inv _ _ _ _ Hnd _ _ _ _ Hst Hd) as (_ & _ & _ & Hst1).
  apply (IH _ _ _ _ Hst1). rewrite length_app. simpl. lia.
Qed.

Lemma outer_loop_ok k st sims dets drawn :
  0 <= jobs_per_simulation ->
  job_counts st = tally keys drawn ->
  Z.of_nat (length drawn) + Z.of_nat k * jobs_per_simulation <= T ->
  exists r, outer k st sims dets = Ok r.
Proof.
  intros HM. revert st sims dets drawn.
  induction k as [|k IH]; intros st sims dets drawn Hst Hlen; simpl; eauto.
  destruct (inner_loop_ok (Z.to_nat jobs_per_simulation) st [] [] drawn Hst ltac:(lia))
    as ([[st1 sequence] sim_details] & Hin).
  rewrite Hin. simpl.
  destruct (inner_loop_inv _ _ _ _ Hnd _ _ _ _ _ _ _ _ Hst Hin) as (ds & _ & _ & Hds & _ & Hst1).
  apply (IH _ _ _ _ Hst1). rewrite length_app, length_map, Hds. lia.
Qed.

Lemma probabilities_of_ok drawn :
  Z.of_nat (length drawn) <= T ->
  exists probs, probabilities_of num_simulations jobs_per_simulation (tally keys drawn) = Ok probs.
Proof.
  intros Hlen. pose proof (tally_values_bounded drawn Hlen) as Hb.
  unfold probabilities_of. unfold dict_values in Hb.
  induction (tally keys drawn) as [|[j c] counts IH]; simpl; [eauto|].
  inversion Hb as [|? ? Hc Hb']; subst.
  destruct (prob_div_ok c T Hc HT) as [p Hp]. unfold total_draws. rewrite Hp. simpl.
  destruct (IH Hb') as [probs Hprobs].
  destruct (res_traverse _ counts) as [items|e]; simpl in *; [eauto | discriminate].
Qed.
End RunnerSafety.

(** The run raises nothing on valid input, by the loops' success lemmas. *)
Lemma run_simulations_no_exception {G : Type} `{RandomSourceLaws G} {R : Type} `{ProbArithLaws R}
    ranges total_range num_simulations jobs_per_simulation g :
  NoDup (dict_keys ranges) -> tiles 1 total_range ranges -> 1 <= total_range ->
  1 <= num_simulations -> 1 <= jobs_per_simulation ->
  exists out, run_simulations ranges total_range num_simulations jobs_per_simulation g = Ok out.
Proof.
  intros Hnd Htiles Htotal HN HM. unfold run_simulations.
  rewrite tally_init by exact Hnd.
  assert (HT : 0 < num_simulations * jobs_per_simulation) by lia.
  destruct (outer_loop_ok _ _ _ _ Hnd Htiles Htotal HT (Z.to_nat num_simulations)
              (LoopState (tally (dict_keys ranges) []) g) [] [] [] ltac:(lia) eq_refl
              ltac:(simpl; lia)) as ([[st sims] dets] & Hout).
  rewrite Hout. simpl.
  apply outer_loop_inv with (drawn := []) in Hout; [|exact Hnd|reflexivity].
  destruct Hout as (dss & _ & _ & Hlen & Hall & _ & Hst).
  edestruct probabilities_of_ok with (drawn := map detail_job (concat dss)) as [probs Hp];
    [exact HT| |].
  { rewrite length_map, (length_concat_uniform _ _ Hall), Hlen. lia. }
  simpl in Hst. rewrite Hst, Hp. simpl. eauto.
Qed.

(** C4 (no exception on valid input).  With a generator that draws in
    range and an arithmetic whose divisions of a count by the number of
    draws succeed, [run_simulations] raises nothing when the ranges have
    distinct jobs and tile [1..total_range] (as [create_ranges] produces
    them), [1 <= total_range], and there is at least one simulation and
    one draw per simulation: no [KeyError] from [job_counts[job]], no
    [ValueError] from [randint], no [ZeroDivisionError]. *)
Theorem run_simulations_ok {G : Type} `{RandomSourceLaws G} {R : Type} `{ProbArithLaws R}
    ranges total_range num_simulations jobs_per_simulation g :
  NoDup (dict_keys ranges) -> tiles 1 total_range ranges -> 1 <= total_range ->
  1 <= num_simulations -> 1 <= jobs_per_simulation ->
  exists out, run_simulations ranges total_range num_simulations jobs_per_simulation g = Ok out.
Proof.
  intros Hnd Ht Htot HN HM.
  destruct (run_simulations_no_exception ranges total_range num_simulations jobs_per_simulation g
              Hnd Ht Htot HN HM) as [out Hout].
  exists out. exact Hout.
Qed.

Lemma run_simulations_ok_witness :
  exists out, @run_simulations lcg _ float _ [("J1", (1, 10)); ("J2", (11, 30)); ("J3", (31, 99))]%string
                99 2 3 (Lcg 42) = Ok out.
Proof.
  apply run_simulations_ok.
  - apply (bool_decide_unpack _). vm_compute. reflexivity.
  - simpl. lia.
  - lia.
  - lia.
  - lia.
Defined.

(** ** Count conservation *)

(** C3 (count conservation).  Running the two loops from the zeroed
    counts [{job: 0 for job in ranges}], the final [job_counts] is the
    tally of the job sequences produced, and the counts add up to exactly
    [num_simulations * jobs_per_simulation]. *)
Theorem outer_loop_count_conservation {G : Type} `{RandomSource G} {R : Type} `{ProbArith R}
    ranges total_range num_simulations jobs_per_simulation g st sims dets :
  NoDup (dict_keys ranges) -> 0 <= num_simulations -> 0 <= jobs_per_simulation ->
  outer_loop ranges total_range num_simulations jobs_per_simulation
    (Z.to_nat num_simulations)
    (LoopState (dict_of_items (map (fun job => (job, 0)) (dict_keys ranges))) g) [] []
    = Ok (st, sims, dets) ->
  job_counts st = tally (dict_keys ranges) (concat sims) /\
  sum_Z (dict_values (job_counts st)) = num_simulations * jobs_per_simulation.
Proof.
  intros Hnd HN HM Hout. rewrite tally_init in Hout by exact Hnd.
  apply outer_loop_inv with (drawn := []) in Hout; [|exact Hnd|reflexivity].
  destruct Hout as (dss & -> & -> & Hlen & Hall & Hrec & Hst). simpl in *.
  rewrite <- concat_map, Hst. split; [reflexivity|].
  rewrite tally_sum; [|exact Hnd|exact (records_ok_keys _ _ _ _ _ Hrec)].
  rewrite length_map, (length_concat_uniform _ _ Hall), Hlen. lia.
Qed.

Lemma outer_loop_count_conservation_witness :
  exists st sims dets,
    @outer_loop replay _ float _ [("J1", (1, 10)); ("J2", (11, 30)); ("J3", (31, 99))]%string
      99 1 5 1 (LoopState [("J1", 0); ("J2", 0); ("J3", 0)]%string (Replay [5; 15; 25; 50; 95]))
      [] [] = Ok (st, sims, dets) /\
    sum_Z (dict_values (job_counts st)) = 1 * 5.
Proof.
  do 3 eexists. split; [vm_compute; reflexivity|].
  refine (proj2 (outer_loop_count_conservation
                   [("J1", (1, 10)); ("J2", (11, 30)); ("J3", (31, 99))]%string 99 1 5
                   (Replay [5; 15; 25; 50; 95]) _ _ _ _ _ _ _)).
  - apply (bool_decide_unpack _). vm_compute. reflexivity.
  - lia.
  - lia.
  - vm_compute. reflexivity.
Defined.
End SimulationRunner.
