(* ===== verification/RunnerSpec.v ===== *)
(** * A declarative specification of [run_simulations]
    (src/app.py, lines 43-68)

    The code interleaves everything: per draw it calls the generator,
    resolves the number, bumps the shared [job_counts] and sums the
    running total, inside two nested loops.  The specification [run_spec]
    states the same result without shared state: draw all
    [num_simulations * jobs_per_simulation] numbers, resolve each, let
    the running total after the [i]-th draw be the mass of the first [i]
    jobs, cut the draws into simulations of [jobs_per_simulation], and
    build the tables from the tally of all jobs.

    The refinement theorem [run_simulations_refines] proves the code equal
    to the specification, results and exceptions alike, for every
    generator and every lawful arithmetic.  The proof goes through
    [flat_loop], the two loops flattened into one loop of draws. *)

From Stdlib Require Import ZArith Lia.
From stdpp Require Import base list strings decidable.
From S2P Require Import Prelude PyDict PyFloat Probability RangeAllocator DrawResolver RandomSource SimulationRunner.

Open Scope Z_scope.

Module RunnerSpec.
Import RangeAllocator DrawResolver SimulationRunner.

(** The list cut into [k] consecutive blocks of [m]. *)
Fixpoint chunks {A : Type} (m k : nat) (l : list A) : list (list A) :=
  match k with
  | O => []
  | S k' => take m l :: chunks m k' (drop m l)
  end.

Section Spec.
Context {G : Type} `{RandomSource G} {R : Type} `{ProbArith R}.
Variables (ranges : dict string (Z * Z))
          (total_range num_simulations jobs_per_simulation : Z).

Local Abbreviation keys := (dict_keys ranges).
Local Abbreviation running := (running_cumulative num_simulations jobs_per_simulation).
Local Abbreviation draw := (draw_once ranges total_range num_simulations jobs_per_simulation).

(** [n] successive calls [random.randint(1, total_range)]. *)
Fixpoint draw_numbers (n : nat) (g : G) : res (list Z * G) :=
  match n with
  | O => Ok ([], g)
  | S n' =>
      let! '(x, g1) := randint 1 total_range g in
      let! '(xs, g2) := draw_numbers n' g1 in
      Ok (x :: xs, g2)
  end.

(** The specification: the numbers, then their jobs, then the running
    totals of the prefixes, then the simulations and the tables. *)
Definition run_spec (g : G)
    : res (list (list string) * dict string R * dict string R * list (list (detail R)) * G) :=
  let m := Z.to_nat jobs_per_simulation in
  let k := Z.to_nat num_simulations in
  let! '(numbers, g') := draw_numbers (k * m) g in
  let! jobs := res_traverse (fun x => as_key (get_job_from_random ranges x)) numbers in
  let! totals := res_traverse (fun i => running (tally keys (take (S i) jobs))) (seq 0 (k * m)) in
  let details := combine (combine numbers jobs) totals in
  let! probabilities := probabilities_of num_simulations jobs_per_simulation (tally keys jobs) in
  Ok (chunks m k jobs, probabilities, cumulative_loop probabilities prob_zero [],
      chunks m k details, g').

(** The two loops as one loop of [n] draws. *)
Fixpoint flat_loop (n : nat) (st : loop_state G) : res (loop_state G * list (detail R)) :=
  match n with
  | O => Ok (st, [])
  | S n' =>
      let! '(st1, d) := draw st in
      let! '(st2, ds) := flat_loop n' st1 in
      Ok (st2, d :: ds)
  end.

Lemma flat_loop_length n st st' ds : flat_loop n st = Ok (st', ds) -> length ds = n.
Proof.
  revert st st' ds. induction n as [|n IH]; intros st st' ds; cbn [flat_loop];
    [by intros [= _ <-]|].
  destruct (draw st) as [[st1 d]|e]; cbn; [|discriminate].
  destruct (flat_loop n st1) as [[st2 ds']|e] eqn:Hf; cbn; [|discriminate].
  intros [= _ <-]. cbn. by rewrite (IH _ _ _ Hf).
Qed.

Lemma flat_loop_add a b st :
  flat_loop (a + b) st
  = let! '(st1, ds1) := flat_loop a st in
    let! '(st2, ds2) := flat_loop b st1 in
    Ok (st2, ds1 ++ ds2).
Proof.
  revert st. induction a as [|a IH]; intros st; cbn [flat_loop Nat.add].
  - cbn. by destruct (flat_loop b st) as [[??]|].
  - destruct (draw st) as [[st1 d]|e]; cbn; [|reflexivity].
    rewrite IH. destruct (flat_loop a st1) as [[st2 ds1]|e]; cbn; [|reflexivity].
    by destruct (flat_loop b st2) as [[??]|].
Qed.

(** The inner loop is [jobs_per_simulation] draws of the flat loop. *)
Lemma inner_loop_flat k st sequence sim_details :
  inner_loop ranges total_range num_simulations jobs_per_simulation k st sequence sim_details
  = res_map (fun '(st', ds) => (st', sequence ++ map detail_job ds, sim_details ++ ds))
            (flat_loop k st).
Proof.
  revert st sequence sim_details.
  induction k as [|k IH]; intros st sequence sim_details; cbn [inner_loop flat_loop].
  - cbn. by rewrite !app_nil_r.
  - destruct (draw st) as [[st1 d]|e]; cbn; [|reflexivity].
    rewrite IH. destruct (flat_loop k st1) as [[st2 ds]|e]; cbn; [|reflexivity].
    by rewrite <- !app_assoc.
Qed.

(** The outer loop is [k * jobs_per_simulation] draws, cut into blocks. *)
Lemma outer_loop_flat k st sims dets :
  outer_loop ranges total_range num_simulations jobs_per_simulation k st sims dets
  = res_map (fun '(st', ds) =>
               (st', sims ++ chunks (Z.to_nat jobs_per_simulation) k (map detail_job ds),
                dets ++ chunks (Z.to_nat jobs_per_simulation) k ds))
            (flat_loop (k * Z.to_nat jobs_per_simulation) st).
Proof.
  revert st sims dets.
  induction k as [|k IH]; intros st sims dets; cbn [outer_loop].
  - cbn. by rewrite !app_nil_r.
  - rewrite inner_loop_flat. cbn [Nat.mul]. rewrite flat_loop_add.
    destruct (flat_loop (Z.to_nat jobs_per_simulation) st) as [[st1 ds1]|e] eqn:H1;
      cbn; [|reflexivity].
    rewrite IH.
    destruct (flat_loop (k * Z.to_nat jobs_per_simulation) st1) as [[st2 ds2]|e]; cbn;
      [|reflexivity].
    pose proof (flat_loop_length _ _ _ _ H1) as Hlen.
    rewrite map_app, !take_app_length', !drop_app_length'
      by (rewrite ?length_map; symmetry; exact Hlen).
    by rewrite <- !app_assoc.
Qed.
End Spec.

Lemma map_detail_job_combine {R : Type} (ns : list Z) (js : list string) (ts : list R) :
  length ns = length js -> length ts = length js ->
  map detail_job (combine (combine ns js) ts) = js.
Proof.
  revert ns ts. induction js as [|j js IH]; intros [|n ns] [|t ts] Hn Ht; try discriminate;
    [reflexivity|]. cbn. f_equal. apply IH; cbn in *; lia.
Qed.

Lemma draws_count (N M : Z) :
  (0 < Z.to_nat N * Z.to_nat M)%nat -> Z.of_nat (Z.to_nat N * Z.to_nat M) = N * M.
Proof.
  intros Hpos.
  destruct (Z_lt_le_dec 0 N); [|rewrite (Z2Nat.nonpos N) in Hpos by lia; simpl in Hpos; lia].
  destruct (Z_lt_le_dec 0 M); [|rewrite (Z2Nat.nonpos M), Nat.mul_0_r in Hpos by lia; lia].
  rewrite Nat2Z.inj_mul, !Z2Nat.id by lia. reflexivity.
Qed.

Section SpecProofs.
Context {G : Type} `{RandomSource G} {R : Type} `{ProbArithLaws R}.
Variables (ranges : dict string (Z * Z))
          (total_range num_simulations jobs_per_simulation : Z).
Hypothesis Hnd : NoDup (dict_keys ranges).

Local Abbreviation keys := (dict_keys ranges).
Local Abbreviation T := (num_simulations * jobs_per_simulation).
Local Abbreviation running := (running_cumulative num_simulations jobs_per_simulation).
Local Abbreviation resolve := (fun x => as_key (get_job_from_random ranges x)).
Local Abbreviation numbers := (draw_numbers (G := G) total_range).
Local Abbreviation flat := (flat_loop (R := R) ranges total_range num_simulations jobs_per_simulation).

Lemma draw_numbers_length n g xs g' : numbers n g = Ok (xs, g') -> length xs = n.
Proof.
  revert g xs g'. induction n as [|n IH]; intros g xs g'; cbn [draw_numbers];
    [by intros [= <- _]|].
  destruct (randint 1 total_range g) as [[x g1]|e]; cbn [res_bind]; [|discriminate].
  destruct (numbers n g1) as [[xs' g2]|e] eqn:Hn; cbn [res_bind]; [|discriminate].
  intros [= <- _]. cbn. by rewrite (IH _ _ _ Hn).
Qed.

Lemma draw_numbers_ok n g :
  1 <= total_range -> exists xs g', numbers n g = Ok (xs, g') /\ length xs = n.
Proof.
  intros Ht. revert g. induction n as [|n IH]; intros g; [by exists [], g|].
  cbn [draw_numbers]. rewrite randint_ok by exact Ht.
  destruct (rng_draw 1 total_range g) as [x g1]. cbn [res_bind].
  destruct (IH g1) as (xs & g2 & -> & Hlen). exists (x :: xs), g2. cbn. by rewrite Hlen.
Qed.

Lemma running_ok drawn :
  0 < T -> Z.of_nat (length drawn) <= T -> exists t, running (tally keys drawn) = Ok t.
Proof.
  intros HT Hlen. exact (sum_ratios_ok _ _ HT prob_zero _ (tally_values_bounded ranges _ _ _ Hlen)).
Qed.

(** The flat loop from the counts of [drawn] is the specification of
    [n] further draws. *)
Lemma flat_loop_spec n drawn g :
  ((0 < n)%nat -> Z.of_nat (length drawn + n) <= T) ->
  flat n (LoopState (tally keys drawn) g)
  = let! '(ns, g') := numbers n g in
    let! jobs := res_traverse resolve ns in
    let! totals := res_traverse (fun i => running (tally keys (drawn ++ take (S i) jobs)))
                                (seq 0 n) in
    Ok (LoopState (tally keys (drawn ++ jobs)) g', combine (combine ns jobs) totals).
Proof.
  revert drawn g. induction n as [|n IH]; intros drawn g Hbound.
  - cbn. by rewrite app_nil_r.
  - cbn [flat_loop draw_numbers]. unfold draw_once. cbn [rng job_counts].
    destruct (randint 1 total_range g) as [[x g1]|e] eqn:Hr; cbn [res_bind]; [|reflexivity].
    assert (Ht : 1 <= total_range)
      by (unfold randint in Hr; destruct (Z.ltb_spec total_range 1); [discriminate | lia]).
    destruct (draw_numbers_ok n g1 Ht) as (xs & g2 & Hxs & _). rewrite Hxs. cbn [res_bind].
    cbn [res_traverse]. destruct (get_job_from_random ranges x) as [j|] eqn:Hj;
      cbn [as_key res_bind]; [|reflexivity].
    assert (Hin : In j keys).
    { destruct (get_job_from_random_sound _ _ _ Hj) as (s & e & Hse & _).
      apply in_map_iff. by exists (j, (s, e)). }
    unfold dict_getitem. rewrite tally_get by assumption. cbn [res_bind].
    rewrite tally_incr by assumption.
    destruct (running_ok (drawn ++ [j])) as [t Ht'];
      [specialize (Hbound ltac:(lia)); lia | rewrite length_app; cbn; specialize (Hbound ltac:(lia)); lia|].
    rewrite Ht'. cbn [res_bind].
    rewrite IH by (intros; rewrite length_app; cbn; specialize (Hbound ltac:(lia)); lia).
    rewrite Hxs. cbn [res_bind].
    destruct (res_traverse resolve xs) as [js|e]; cbn [res_bind]; [|reflexivity].
    cbn [seq res_traverse firstn]. rewrite (firstn_O js). rewrite Ht'. cbn [res_bind].
    rewrite <- seq_shift, res_traverse_map.
    rewrite (res_traverse_ext (fun i => running (tally keys (drawn ++ j :: take (S i) js)))
               (fun i => running (tally keys ((drawn ++ [j]) ++ take (S i) js))))
      by (intros i _; cbn; by rewrite <- app_assoc).
    destruct (res_traverse _ (seq 0 n)) as [ts|e]; cbn [res_bind]; [|reflexivity].
    by rewrite <- app_assoc.
Qed.

(** C20 (refinement).  [run_simulations] is its declarative
    specification: for every generator and every lawful arithmetic, on
    ranges with distinct jobs, the nested loops with the shared counts
    return exactly what [run_spec] computes, namely the numbers drawn, their jobs,
    the running total of every prefix of the draws, the draws cut into
    simulations, the tables of the final tally and the generator's final
    state, and raise the same exception when they raise one. *)
Theorem run_simulations_refines g :
  run_simulations ranges total_range num_simulations jobs_per_simulation g
  = run_spec ranges total_range num_simulations jobs_per_simulation g.
Proof.
  unfold run_simulations, run_spec. rewrite tally_init by exact Hnd.
  rewrite outer_loop_flat.
  rewrite (flat_loop_spec _ [] g) by (intros Hpos; cbn; rewrite draws_count by exact Hpos; lia).
  cbn [app].
  destruct (numbers _ g) as [[ns g']|e] eqn:Hns; cbn [res_bind res_map]; [|reflexivity].
  destruct (res_traverse resolve ns) as [js|e] eqn:Hjs; cbn [res_bind res_map]; [|reflexivity].
  destruct (res_traverse _ (seq 0 _)) as [ts|e] eqn:Hts; cbn [res_bind res_map job_counts rng];
    [|reflexivity].
  destruct (probabilities_of _ _ _) as [probs|e]; cbn [res_bind]; [|reflexivity].
  rewrite map_detail_job_combine; [reflexivity| |].
  - rewrite (res_traverse_length _ _ _ Hjs). reflexivity.
  - rewrite (res_traverse_length _ _ _ Hts), (res_traverse_length _ _ _ Hjs), length_seq.
    symmetry. exact (draw_numbers_length _ _ _ _ Hns).
Qed.
End SpecProofs.

Lemma run_simulations_refines_witness :
  @run_simulations replay _ float _ [("J1", (1, 10)); ("J2", (11, 30)); ("J3", (31, 99))]%string
    99 2 3 (Replay [5; 15; 25; 50; 95; 7])
  = @run_spec replay _ float _ [("J1", (1, 10)); ("J2", (11, 30)); ("J3", (31, 99))]%string
    99 2 3 (Replay [5; 15; 25; 50; 95; 7]).
Proof.
  apply run_simulations_refines. apply (bool_decide_unpack _). vm_compute. reflexivity.
Defined.

End RunnerSpec.
