(* ===== verification/SimulationStats.v ===== *)
(** * The statistics of [run_simulations] (src/app.py, lines 55 and 61-66)

    The per-draw running total [sum(count / total_draws)] and the two final
    tables: [probabilities] (count / total_draws per job) and
    [cumulative_prob] (prefix sums of the probabilities in table order).
    [prefix_sums] is the specification of the cumulative table, a scan of
    the probability table; the dict-building loop [cumulative_loop] is
    shown to compute it at every arithmetic.  At every arithmetic, the
    running total and the probability table are left folds of the same
    quotients ([sum_ratios_fold], [probabilities_of_values]), and both
    tables are keyed by the jobs of [ranges].  [drawn_mass N M i] is the
    exact share [i / (N * M)] the running total approximates; the binary64
    bounds are in [FloatStats]. *)

From Stdlib Require Import ZArith QArith Qfield Lia Lqa Sorted.
From stdpp Require Import base list strings decidable.
From S2P Require Import Prelude PyDict PyFloat Probability RangeAllocator DrawResolver RandomSource SimulationRunner.

Open Scope Z_scope.

Module SimulationStats.
Import RangeAllocator DrawResolver SimulationRunner.

(** The cumulative distribution of a probability table, in table order. *)
Fixpoint prefix_sums {R : Type} `{ProbArith R} (acc : R) (items : dict string R) : dict string R :=
  match items with
  | [] => []
  | (job, p) :: rest => (job, prob_add acc p) :: prefix_sums (prob_add acc p) rest
  end.

Lemma dict_keys_prefix_sums {R : Type} `{ProbArith R} acc (items : dict string R) :
  dict_keys (prefix_sums acc items) = dict_keys items.
Proof.
  revert acc. induction items as [|[j p] items IH]; intros acc; simpl; [reflexivity|].
  unfold dict_keys in *. simpl. f_equal. apply IH.
Qed.

Lemma cumulative_loop_prefix_sums {R : Type} `{ProbArith R} (items : dict string R) acc out :
  NoDup (dict_keys out ++ dict_keys items) ->
  cumulative_loop items acc out = out ++ prefix_sums acc items.
Proof.
  revert acc out. induction items as [|[j p] items IH]; intros acc out Hnd; simpl.
  - by rewrite app_nil_r.
  - rewrite dict_set_notin by exact (NoDup_app_cons_notin _ _ _ Hnd).
    rewrite IH, <- app_assoc; [reflexivity|].
    rewrite dict_keys_app, <- app_assoc. exact Hnd.
Qed.

Section Totals.
Context {R : Type} `{ProbArith R}.

Lemma sum_ratios_fold N M acc counts :
  sum_ratios N M acc counts
  = res_map (fun ps => fold_left prob_add ps acc)
            (res_traverse (fun c => prob_div c (N * M)) counts).
Proof.
  revert acc. induction counts as [|c counts IH]; intros acc; [reflexivity|].
  cbn [sum_ratios res_traverse]. unfold total_draws.
  destruct (prob_div c (N * M)) as [p|e]; cbn [res_bind]; [|reflexivity].
  rewrite IH. by destruct (res_traverse _ counts).
Qed.

Lemma probabilities_of_values N M (counts : dict string Z) probs :
  NoDup (dict_keys counts) -> probabilities_of N M counts = Ok probs ->
  dict_keys probs = dict_keys counts /\
  res_traverse (fun c => prob_div c (N * M)) (dict_values counts) = Ok (dict_values probs).
Proof.
  intros Hnd Hp. unfold probabilities_of in Hp.
  apply res_bind_Ok in Hp as (items & Hitems & [= <-]).
  enough (Hk : dict_keys items = dict_keys counts /\
               res_traverse (fun c => prob_div c (N * M)) (dict_values counts)
               = Ok (dict_values items)).
  { rewrite dict_of_items_NoDup by (rewrite (proj1 Hk); exact Hnd). exact Hk. }
  clear Hnd. revert items Hitems.
  induction counts as [|[j c] counts IH]; intros items Hitems; cbn in Hitems.
  - by injection Hitems as <-.
  - unfold total_draws in Hitems.
    destruct (prob_div c (N * M)) as [p|e] eqn:Hc; cbn in Hitems; [|discriminate].
    destruct (res_traverse _ counts) as [items'|e] eqn:Hrest; cbn in Hitems; [|discriminate].
    injection Hitems as <-. destruct (IH _ eq_refl) as [Hk Hv].
    unfold dict_keys, dict_values in *. cbn. rewrite Hk, Hc. cbn. rewrite Hv. done.
Qed.

Lemma prefix_sums_snoc acc (items : dict string R) j p :
  prefix_sums acc (items ++ [(j, p)])
  = prefix_sums acc items ++ [(j, prob_add (fold_left prob_add (dict_values items) acc) p)].
Proof.
  revert acc. induction items as [|[j' p'] items IH]; intros acc; [reflexivity|].
  cbn [prefix_sums app]. rewrite IH. reflexivity.
Qed.

Lemma prefix_sums_last acc (items : dict string R) :
  items <> [] ->
  option_map snd (list.last (prefix_sums acc items)) = Some (fold_left prob_add (dict_values items) acc).
Proof.
  revert acc. induction items as [|[j p] items IH]; intros acc Hne; [congruence|].
  destruct items as [|[j' p'] items]; [reflexivity|].
  cbn [prefix_sums]. rewrite last_cons.
  specialize (IH (prob_add acc p) ltac:(discriminate)). cbn [prefix_sums] in IH.
  destruct (list.last _) as [x|] eqn:Hl; [exact IH|].
  by apply last_None in Hl.
Qed.
End Totals.

(** C17 (type).  The two tables a run returns are keyed by exactly the
    jobs of [ranges], in their order, as [display_results] puts them side
    by side in one DataFrame, and the cumulative table is the prefix sums
    of the probability table. *)
Theorem run_simulations_tables_keys {G : Type} `{RandomSource G} {R : Type} `{ProbArith R}
    ranges total_range N M g sims probs cum dets g' :
  NoDup (dict_keys ranges) ->
  run_simulations ranges total_range N M g = Ok (sims, probs, cum, dets, g') ->
  dict_keys probs = dict_keys ranges /\ cum = prefix_sums prob_zero probs /\
  dict_keys cum = dict_keys ranges.
Proof.
  intros Hnd Hrun.
  destruct (run_simulations_inv _ _ _ _ Hnd _ _ _ _ _ _ Hrun) as (_ & _ & _ & _ & Hprobs & ->).
  assert (Hndc : NoDup (dict_keys (tally (dict_keys ranges) (concat sims))))
    by (rewrite dict_keys_tally; exact Hnd).
  destruct (probabilities_of_values _ _ _ _ Hndc Hprobs) as [Hk _].
  rewrite dict_keys_tally in Hk.
  rewrite cumulative_loop_prefix_sums, app_nil_l by (cbn; rewrite Hk; exact Hnd).
  split; [exact Hk|]. split; [reflexivity|]. by rewrite dict_keys_prefix_sums, Hk.
Qed.

(** What a successful run with [N, M >= 1] returns, at any arithmetic:
    the probability table holds [prob_div] of every job's count, in the
    order of [ranges]; the cumulative table is its prefix sums; the
    [N * M] drawn jobs are jobs of [ranges]. *)
Lemma run_simulations_probs {G : Type} `{RandomSource G} {R : Type} `{ProbArith R}
    ranges total_range N M g sims probs cum dets g' :
  NoDup (dict_keys ranges) -> (1 <= N)%Z -> (1 <= M)%Z ->
  run_simulations ranges total_range N M g = Ok (sims, probs, cum, dets, g') ->
  dict_keys probs = dict_keys ranges /\
  res_traverse (fun c => prob_div c (N * M)) (map (occurrences (concat sims)) (dict_keys ranges))
    = Ok (dict_values probs) /\
  cum = prefix_sums prob_zero probs /\
  Forall (fun j => In j (dict_keys ranges)) (concat sims) /\
  Z.of_nat (length (concat sims)) = (N * M)%Z.
Proof.
  intros Hnd HN HM Hrun.
  destruct (run_simulations_draws _ _ _ _ _ _ _ _ _ _ Hnd Hrun) as [Hsub Hlen].
  destruct (run_simulations_inv _ _ _ _ Hnd _ _ _ _ _ _ Hrun) as (_ & _ & _ & _ & Hprobs & ->).
  assert (Hndc : NoDup (dict_keys (tally (dict_keys ranges) (concat sims))))
    by (rewrite dict_keys_tally; exact Hnd).
  destruct (probabilities_of_values _ _ _ _ Hndc Hprobs) as [Hk Hv].
  rewrite dict_keys_tally in Hk. rewrite dict_values_tally in Hv.
  rewrite cumulative_loop_prefix_sums, app_nil_l by (cbn; rewrite Hk; exact Hnd).
  split_and!; [exact Hk | exact Hv | reflexivity | exact Hsub|].
  rewrite Hlen, Nat2Z.inj_mul, !Z2Nat.id by lia. reflexivity.
Qed.

(** ** The exact share of the draws *)

Open Scope Q_scope.

(** The share of a batch of [N * M] draws accounted for after [i] draws:
    the value the spec expects of the per-draw running total. *)
Definition drawn_mass (N M : Z) (i : nat) : Q := inject_Z (Z.of_nat i) / inject_Z (N * M).

Open Scope Z_scope.

Lemma run_simulations_tables_keys_witness :
  exists sims probs cum dets g',
    @run_simulations lcg _ float _ [("J1", (1, 50)); ("J2", (51, 99))]%string
      99 2 2 (Lcg 3) = Ok (sims, probs, cum, dets, g') /\
    dict_keys probs = ["J1"; "J2"]%string /\ cum = prefix_sums prob_zero probs /\
    dict_keys cum = ["J1"; "J2"]%string.
Proof.
  do 5 eexists. split; [vm_compute; reflexivity|].
  refine (run_simulations_tables_keys [("J1", (1, 50)); ("J2", (51, 99))]%string 99 2 2
            (Lcg 3) _ _ _ _ _ _ _).
  - apply (bool_decide_unpack _). vm_compute. reflexivity.
  - vm_compute. reflexivity.
Defined.

End SimulationStats.
