(* ===== verification/FloatStats.v ===== *)
(** * The two totals of [run_simulations] and Python's [sum]
    (src/app.py, lines 55 and 61-66)

    [run_simulations] computes the probability mass twice: per draw, as
    [sum(job_counts[j] / total_draws for j in job_counts)] (line 55), and
    at the end, as the last entry of the cumulative table (lines 62-66).
    Both add the same quotients in the same order from [0], so at every
    arithmetic the running total recorded with the last draw is the last
    cumulative probability ([run_simulations_final_total]); in binary64
    this is an equality of doubles, not only of reals.

    That rests on [sum] adding left to right, which CPython does up to
    3.11.  From 3.12 on, [sum] of floats compensates its rounding errors
    (Neumaier's variant of Kahan summation); [py_sum_compensated] models
    that loop (CPython's [builtin_sum_impl]) and the example at the end
    of the file shows the two readings of line 55 apart.

    With the rounding-error analysis of [FloatError], the float run meets
    the spec's normalisation: the probabilities add up to within
    [sum_error_bound n = n * 3 * 2^-51] of 1 for [n] jobs, and the
    running total of the [i]-th draw is within as much of [i / (N * M)]. *)

From Stdlib Require Import ZArith QArith Qabs Lqa Lia SpecFloat.
From stdpp Require Import base list strings decidable.
From S2P Require Import Prelude PyDict PyFloat FloatError Probability RangeAllocator DrawResolver RandomSource SimulationRunner SimulationStats.

Open Scope Z_scope.

Module FloatStats.
Import RangeAllocator DrawResolver SimulationRunner SimulationStats.
Open Scope Z_scope.

(** A double [m * 2^e]. *)
Definition dbl (m : positive) (e : Z) : float := S754_finite false m e.

(** The spec's [cumulativeProbabilities[lastJobInOrder]]: the value of
    the last entry of the cumulative table. *)
Definition final_cumulative {R : Type} (cum : dict string R) : option R :=
  option_map snd (list.last cum).

(** The error bound of a left-to-right float sum of [n] quotients:
    [n * 3 * 2^-51]. *)
Definition sum_error_bound (n : nat) : Q := (inject_Z (Z.of_nat n) * (3 * 2 ^ (-51)))%Q.

(** The running total recorded with the last draw of the batch. *)
Definition final_running_total {R : Type} (dets : list (list (detail R))) : option R :=
  option_map snd (list.last (concat dets)).

Lemma records_ok_last {G : Type} `{RandomSource G} {R : Type} `{ProbArith R}
    ranges N M ds (d : detail R) :
  records_ok ranges N M [] (ds ++ [d]) ->
  running_cumulative N M (tally (dict_keys ranges) (map detail_job (ds ++ [d]))) = Ok d.2 /\
  In (detail_job d) (dict_keys ranges).
Proof.
  intros Hrec. pose proof (records_ok_keys _ _ _ _ _ Hrec) as Hkeys.
  apply records_ok_app in Hrec as [_ Hrec]. cbn in Hrec. destruct Hrec as (_ & Hrun & _).
  rewrite map_app. split; [exact Hrun|].
  rewrite map_app in Hkeys. apply Forall_app in Hkeys as [_ Hk]. by inversion Hk.
Qed.

(** C16 (equivalence, for [sum] as CPython up to 3.11 runs it).  The
    runner reads [sum(job_counts[j] / total_draws for j in job_counts)]
    at line 55 as CPython up to 3.11 evaluates it: the quotients added left
    to right from [0] ([sum_ratios]).  Under that reading, at every
    arithmetic, the running total recorded with the last draw of a run is
    the last entry of the cumulative table: both add the same quotients in
    the same order from [0].  From CPython 3.12, [sum] of floats is
    compensated and the two can differ ([allocate_and_run_sum_versions]
    below: 1.0 against 0.9999999999999999). *)
Theorem run_simulations_final_total {G : Type} `{RandomSource G} {R : Type} `{ProbArith R}
    ranges total_range N M g sims probs cum dets g' :
  NoDup (dict_keys ranges) ->
  run_simulations ranges total_range N M g = Ok (sims, probs, cum, dets, g') ->
  concat dets <> [] ->
  final_cumulative cum = final_running_total dets.
Proof.
  intros Hnd Hrun Hne. unfold final_running_total.
  destruct (list.last (concat dets)) as [d|] eqn:Hlast; [|by apply last_None in Hlast].
  cbn [option_map]. unfold final_cumulative.
  destruct (run_simulations_inv _ _ _ _ Hnd _ _ _ _ _ _ Hrun) as (-> & _ & _ & Hrec & Hprobs & ->).
  apply last_Some in Hlast as [ds Hds]. rewrite Hds in Hrec.
  destruct (records_ok_last _ _ _ _ _ Hrec) as [Hrun' Hin].
  rewrite <- concat_map, Hds in Hprobs.
  assert (Hndc : NoDup (dict_keys (tally (dict_keys ranges) (map detail_job (ds ++ [d])))))
    by (rewrite dict_keys_tally; exact Hnd).
  destruct (probabilities_of_values _ _ _ _ Hndc Hprobs) as [Hk Hv].
  unfold running_cumulative in Hrun'. rewrite sum_ratios_fold, Hv in Hrun'.
  injection Hrun' as Hd.
  rewrite cumulative_loop_prefix_sums, app_nil_l by (cbn; rewrite Hk; exact Hndc).
  rewrite prefix_sums_last; [by rewrite Hd|].
  intros Hp. rewrite dict_keys_tally in Hk. rewrite <- Hk, Hp in Hin. destruct Hin.
Qed.

Lemma run_simulations_final_total_witness :
  exists sims probs cum dets g',
    @run_simulations replay _ float _ [("J1", (1, 10)); ("J2", (11, 30)); ("J3", (31, 99))]%string
      99 1 6 (Replay [5; 15; 16; 17; 18; 50]) = Ok (sims, probs, cum, dets, g') /\
    concat dets <> [] /\ final_cumulative cum = final_running_total dets.
Proof.
  do 5 eexists. split; [vm_compute; reflexivity|]. split; [intros Hc; vm_compute in Hc; discriminate Hc|].
  refine (run_simulations_final_total
            [("J1", (1, 10)); ("J2", (11, 30)); ("J3", (31, 99))]%string 99 1 6
            (Replay [5; 15; 16; 17; 18; 50]) _ _ _ _ _ _ _ _).
  - apply (bool_decide_unpack _). vm_compute. reflexivity.
  - vm_compute. reflexivity.
  - intros Hc. vm_compute in Hc. discriminate Hc.
Defined.

(** ** Python's [sum] of floats *)

(** [x - y] on doubles. *)
Definition py_float_sub (x y : float) : float := SFsub prec emax x y.

(** [sum(xs)] up to CPython 3.11: [0 + x0 + x1 + ...], left to right. *)
Definition py_sum_left (xs : list float) : float :=
  fold_left py_float_add xs (S754_zero false).

(** One iteration of CPython 3.12's float loop in [sum]:
    [t = f + x; c += (f - t) + x] when [|f| >= |x|], else
    [c += (x - t) + f]; [f = t]. *)
Definition neumaier_step (st : float * float) (x : float) : float * float :=
  let '(f, c) := st in
  let t := py_float_add f x in
  let c := if SFleb (SFabs x) (SFabs f)
           then py_float_add c (py_float_add (py_float_sub f t) x)
           else py_float_add c (py_float_add (py_float_sub x t) f) in
  (t, c).

(** [sum(xs)] from CPython 3.12 on: the int start [0] plus the first item,
    the compensated loop over the others, and the compensation added at
    the end when it is non-zero and finite.  (On an empty list [sum]
    returns the int [0], read here as [0.0].) *)
Definition py_sum_compensated (xs : list float) : float :=
  match xs with
  | [] => S754_zero false
  | x :: rest =>
      let '(f, c) := fold_left neumaier_step rest (py_float_add (S754_zero false) x,
                                                   S754_zero false) in
      match c with
      | S754_finite _ _ _ => py_float_add f c
      | _ => f
      end
  end.

(** The running total of line 55 at the float instance is [py_sum_left]
    of the quotients. *)
Lemma running_cumulative_float N M (counts : dict string Z) :
  @running_cumulative float _ N M counts
  = res_map py_sum_left (res_traverse (fun c => py_int_truediv c (N * M)) (dict_values counts)).
Proof. unfold running_cumulative. rewrite sum_ratios_fold. reflexivity. Qed.

(** ** Probability normalisation in binary64 *)

(** The counts of a run are between 0 and the number of draws. *)
Lemma tally_values_range keys drawn :
  Forall (fun c => 0 <= c <= Z.of_nat (length drawn)) (dict_values (tally keys drawn)).
Proof.
  rewrite dict_values_tally. apply Forall_forall. intros c Hc.
  apply in_map_iff in Hc as (j & <- & _). apply occurrences_bounds.
Qed.

Lemma sum_error_bound_small n : Z.of_nat n <= 2 ^ 40 -> (0 + sum_error_bound n <= 1 # 2)%Q.
Proof.
  intros Hn. unfold sum_error_bound.
  assert (Hn' : (inject_Z (Z.of_nat n) <= inject_Z (2 ^ 40))%Q) by (rewrite <- Zle_Qle; exact Hn).
  change (inject_Z (2 ^ 40)) with (1099511627776 # 1) in Hn'.
  change (2 ^ (-51))%Q with (1 # 2251799813685248). lra.
Qed.

(** The float sum of a run's probabilities: the cumulative table is the
    prefix sums of a non-empty probability table, and the sum of its
    values is a finite non-negative double within [n * 3 * 2^-51] of 1. *)
Lemma run_simulations_float_sum {G : Type} `{RandomSource G}
    ranges total_range N M g sims probs cum dets g' :
  NoDup (dict_keys ranges) -> 1 <= N -> 1 <= M -> Z.of_nat (length ranges) <= 2 ^ 40 ->
  @run_simulations G _ float _ ranges total_range N M g = Ok (sims, probs, cum, dets, g') ->
  cum = prefix_sums prob_zero probs /\ probs <> [] /\ dict_keys probs = dict_keys ranges /\
  is_finite (py_sum_left (dict_values probs)) = true /\
  sign_nonneg (py_sum_left (dict_values probs)) = true /\
  (Qabs (float_Q (py_sum_left (dict_values probs)) - 1)
   <= sum_error_bound (length ranges))%Q.
Proof.
  intros Hnd HN HM Hn Hrun.
  destruct (run_simulations_probs _ _ _ _ _ _ _ _ _ _ Hnd HN HM Hrun)
    as (Hk & Hv & Hcum & Hsub & HNM).
  set (drawn := concat sims) in *.
  assert (Hne : probs <> []).
  { intros ->. cbn in Hk. destruct drawn as [|j drawn']; [cbn in HNM; lia|].
    inversion Hsub as [|? ? Hin]. rewrite <- Hk in Hin. destruct Hin. }
  assert (Hb : Forall (fun c => 0 <= c <= N * M) (map (occurrences drawn) (dict_keys ranges))).
  { rewrite <- HNM, <- dict_values_tally. apply tally_values_range. }
  assert (Hsum : sum_Z (map (occurrences drawn) (dict_keys ranges)) = N * M).
  { rewrite <- dict_values_tally, tally_sum; [exact HNM | exact Hnd | exact Hsub]. }
  assert (Hlenc : length (map (occurrences drawn) (dict_keys ranges)) = length ranges).
  { rewrite length_map. unfold dict_keys. apply length_map. }
  assert (HTq : ~ (inject_Z (N * M) == 0)%Q) by (apply inject_Z_neq0; lia).
  assert (Hone : (0 + inject_Z (N * M) / inject_Z (N * M) == 1)%Q) by (field; exact HTq).
  destruct (fold_add_quotients_error _ (N * M) _ (S754_zero false) 0 0 ltac:(lia) Hb Hv
              eq_refl eq_refl ltac:(lra) ltac:(apply Qle_bool_imp_le; reflexivity))
    as (Hf & Hs & Herr).
  - rewrite Hsum, Hone. lra.
  - rewrite Hlenc. exact (sum_error_bound_small _ Hn).
  - rewrite Hsum, Hlenc, Hone, Qplus_0_l in Herr. split_and!; assumption.
Qed.

(** C24 (bounds).  The spec's probability normalisation, in CPython's
    arithmetic: with at least one simulation and one draw each and at
    most [2^40] jobs, [sum(probabilities.values())] (left to right, as
    CPython up to 3.11 adds) is the last cumulative value, and it is
    within [n * 3 * 2^-51] of 1 for [n] jobs: for the form's 50 jobs,
    within [7 * 10^-14], far inside the spec's tolerance [1e-9]. *)
Theorem run_simulations_float_normalised {G : Type} `{RandomSource G}
    ranges total_range N M g sims probs cum dets g' :
  NoDup (dict_keys ranges) -> 1 <= N -> 1 <= M -> Z.of_nat (length ranges) <= 2 ^ 40 ->
  @run_simulations G _ float _ ranges total_range N M g = Ok (sims, probs, cum, dets, g') ->
  final_cumulative cum = Some (py_sum_left (dict_values probs)) /\
  (Qabs (float_Q (py_sum_left (dict_values probs)) - 1)
   <= sum_error_bound (length ranges))%Q.
Proof.
  intros Hnd HN HM Hn Hrun.
  destruct (run_simulations_float_sum _ _ _ _ _ _ _ _ _ _ Hnd HN HM Hn Hrun)
    as (-> & Hne & _ & _ & _ & Herr).
  split; [exact (prefix_sums_last _ _ Hne) | exact Herr].
Qed.

(** The running total recorded with the [i]-th record is the running sum
    over the tally of the jobs drawn up to and including it. *)
Lemma records_ok_running {R : Type} `{ProbArith R} ranges N M drawn (ds : list (detail R)) :
  records_ok ranges N M drawn ds ->
  forall i d, nth_error ds i = Some d ->
  running_cumulative N M (tally (dict_keys ranges) (drawn ++ map detail_job (firstn (S i) ds)))
  = Ok d.2.
Proof.
  revert drawn. induction ds as [|d0 ds IH]; intros drawn Hrec i d Hi; [destruct i; discriminate|].
  destruct Hrec as (_ & Hrun & Hrec). destruct i as [|i]; cbn in Hi.
  - injection Hi as <-. exact Hrun.
  - replace (drawn ++ map detail_job (firstn (S (S i)) (d0 :: ds)))
      with ((drawn ++ [detail_job d0]) ++ map detail_job (firstn (S i) ds))
      by (cbn; rewrite <- app_assoc; reflexivity).
    exact (IH _ Hrec i d Hi).
Qed.

(** The running total over the tally of [pre], a sequence of at most
    [N * M] drawn jobs, is within [n * 3 * 2^-51] of its exact value
    [len(pre) / (N * M)]. *)
Lemma running_cumulative_float_error (ranges : dict string (Z * Z)) N M pre x :
  NoDup (dict_keys ranges) -> Z.of_nat (length ranges) <= 2 ^ 40 ->
  0 < N * M -> Z.of_nat (length pre) <= N * M ->
  Forall (fun j => In j (dict_keys ranges)) pre ->
  @running_cumulative float _ N M (tally (dict_keys ranges) pre) = Ok x ->
  (Qabs (float_Q x - drawn_mass N M (length pre)) <= sum_error_bound (length ranges))%Q.
Proof.
  intros Hnd Hn HT Hlen Hsub Hd. rewrite running_cumulative_float in Hd.
  destruct (res_traverse _ _) as [ps|e] eqn:Hps; cbn in Hd; [|discriminate]. injection Hd as <-.
  rewrite dict_values_tally in Hps.
  assert (Hb : Forall (fun c => 0 <= c <= N * M) (map (occurrences pre) (dict_keys ranges))).
  { rewrite <- dict_values_tally. eapply Forall_impl; [|apply tally_values_range]. cbn. lia. }
  assert (Hsum : sum_Z (map (occurrences pre) (dict_keys ranges)) = Z.of_nat (length pre)).
  { rewrite <- dict_values_tally, tally_sum; [reflexivity | exact Hnd | exact Hsub]. }
  assert (Hlenc : length (map (occurrences pre) (dict_keys ranges)) = length ranges).
  { rewrite length_map. unfold dict_keys. apply length_map. }
  assert (Hmass : (drawn_mass N M (length pre) <= 1)%Q).
  { unfold drawn_mass. apply Qle_shift_div_r; [change 0%Q with (inject_Z 0); rewrite <- Zlt_Qlt; lia|].
    rewrite Qmult_1_l, <- Zle_Qle. lia. }
  destruct (fold_add_quotients_error _ (N * M) _ (S754_zero false) 0 0 HT Hb Hps
              eq_refl eq_refl ltac:(lra) ltac:(apply Qle_bool_imp_le; reflexivity))
    as (_ & _ & Herr).
  - rewrite Hsum, Qplus_0_l. exact Hmass.
  - rewrite Hlenc. exact (sum_error_bound_small _ Hn).
  - rewrite Hsum, Hlenc, !Qplus_0_l in Herr. exact Herr.
Qed.

(** C26 (bounds).  The per-draw running total in CPython's arithmetic:
    with at most [2^40] jobs, the value [sum(job_counts[j] / total_draws
    ...)] recorded with the [i]-th draw of the batch (from 1) is within
    [n * 3 * 2^-51] of [i / (N * M)] for [n] jobs, the value the running total has
    in exact arithmetic; the last one is within that of 1. *)
Theorem run_simulations_float_running_total {G : Type} `{RandomSource G}
    ranges total_range N M g sims probs cum dets g' :
  NoDup (dict_keys ranges) -> Z.of_nat (length ranges) <= 2 ^ 40 ->
  @run_simulations G _ float _ ranges total_range N M g = Ok (sims, probs, cum, dets, g') ->
  forall i d, nth_error (concat dets) i = Some d ->
  (Qabs (float_Q d.2 - drawn_mass N M (S i))
   <= sum_error_bound (length ranges))%Q.
Proof.
  intros Hnd Hn Hrun i d Hi.
  destruct (run_simulations_inv _ _ _ _ Hnd _ _ _ _ _ _ Hrun) as (_ & Hlen & Hall & Hrec & _).
  assert (Hi' : (i < length (concat dets))%nat) by (apply nth_error_Some; congruence).
  rewrite (length_concat_uniform _ _ Hall), Hlen in Hi'.
  pose proof (records_ok_running _ _ _ [] _ Hrec i d Hi) as Hd. cbn [app] in Hd.
  set (pre := map detail_job (firstn (S i) (concat dets))) in *.
  assert (Hpre : length pre = S i).
  { subst pre. rewrite length_map, length_firstn. rewrite (length_concat_uniform _ _ Hall), Hlen. lia. }
  assert (Hsub : Forall (fun j => In j (dict_keys ranges)) pre).
  { pose proof (records_ok_keys _ _ _ _ _ Hrec) as Hk. subst pre.
    rewrite <- firstn_map. apply Forall_take. exact Hk. }
  rewrite <- Hpre.
  apply (running_cumulative_float_error ranges N M pre d.2 Hnd Hn); [nia | lia | exact Hsub | exact Hd].
Qed.

Lemma run_simulations_float_running_total_witness :
  exists sims probs cum dets g' d,
    @run_simulations replay _ float _ [("J1", (1, 10)); ("J2", (11, 30)); ("J3", (31, 99))]%string
      99 2 3 (Replay [5; 15; 16; 17; 18; 50]) = Ok (sims, probs, cum, dets, g') /\
    nth_error (concat dets) 4 = Some d /\
    (Qabs (float_Q d.2 - drawn_mass 2 3 (S 4)) <= sum_error_bound 3)%Q.
Proof.
  do 6 eexists. split; [vm_compute; reflexivity|]. split; [vm_compute; reflexivity|].
  refine (run_simulations_float_running_total
            [("J1", (1, 10)); ("J2", (11, 30)); ("J3", (31, 99))]%string 99 2 3
            (Replay [5; 15; 16; 17; 18; 50]) _ _ _ _ _ _ _ _ _ _ _).
  - apply (bool_decide_unpack _). vm_compute. reflexivity.
  - cbn. lia.
  - vm_compute. reflexivity.
  - vm_compute. reflexivity.
Defined.

Lemma run_simulations_float_normalised_witness :
  exists sims probs cum dets g',
    @run_simulations replay _ float _ [("J1", (1, 10)); ("J2", (11, 30)); ("J3", (31, 99))]%string
      99 1 6 (Replay [5; 15; 16; 17; 18; 50]) = Ok (sims, probs, cum, dets, g') /\
    final_cumulative cum = Some (py_sum_left (dict_values probs)) /\
    (Qabs (float_Q (py_sum_left (dict_values probs)) - 1)
     <= sum_error_bound 3)%Q.
Proof.
  do 5 eexists. split; [vm_compute; reflexivity|].
  refine (run_simulations_float_normalised
            [("J1", (1, 10)); ("J2", (11, 30)); ("J3", (31, 99))]%string 99 1 6
            (Replay [5; 15; 16; 17; 18; 50]) _ _ _ _ _ _ _ _ _ _).
  - apply (bool_decide_unpack _). vm_compute. reflexivity.
  - lia.
  - lia.
  - cbn. lia.
  - vm_compute. reflexivity.
Defined.

(** ** The spec's scenarios in binary64 *)

(** The spec's frequency table [{J1: 10, J2: 20, J3: 70}]. *)
Definition spec_table : dict string Z := [("J1", 10); ("J2", 20); ("J3", 70)]%string.

(** [create_ranges] then [run_simulations] on a replayed sequence of draws. *)
Definition allocate_and_run (job_data : dict string Z) (N M : Z) (draws : list Z) :=
  let! '(ranges, total_range) := create_ranges job_data in
  @run_simulations replay _ float _ ranges total_range N M (Replay draws).

(** ** Example behind the findings

    Which [sum] runs matters: with final counts
    [J1: 1, J2: 4, J3: 1] over six draws, the cumulative table ends at
    0.9999999999999999, as does the running total of the last draw with
    the left-to-right [sum] of CPython 3.11; CPython 3.12's compensated
    [sum] of the same probabilities is exactly 1.0, so the spec's
    [cumulative[last] == sum(probabilities.values())] fails there. *)
Example allocate_and_run_sum_versions :
  exists sims probs cum dets g',
    allocate_and_run spec_table 1 6 [5; 15; 16; 17; 18; 50] = Ok (sims, probs, cum, dets, g') /\
    dict_values probs = [dbl 6004799503160661 (-55); dbl 6004799503160661 (-53);
                         dbl 6004799503160661 (-55)] /\
    final_cumulative cum = Some (dbl 9007199254740991 (-53)) /\
    final_running_total dets = Some (dbl 9007199254740991 (-53)) /\
    py_sum_left (dict_values probs) = dbl 9007199254740991 (-53) /\
    py_sum_compensated (dict_values probs) = dbl 4503599627370496 (-52).
Proof. do 5 eexists. split; [vm_compute; reflexivity|]. vm_compute. repeat split. Qed.

End FloatStats.
