(* ===== verification/App.v ===== *)
(** * The app around the core: the input form and the session flow
    (src/app.py, lines 6-13 and 71-136)

    Streamlit reruns [main] from the top on every interaction; values that
    must survive a rerun live in [st.session_state].  A rerun is modelled
    as the function [main_run] from the session state, the values the
    widgets return ([form]) and the generator's state, to the new session
    state, generator state and the exception the rerun raised, if any.
    [get_job_data_ui] builds the frequency table [{"J1": f1, ...}] from the
    form; [generate] and [run] are the two button branches; the only
    computation of [display_results] that can fail is the [Range] column,
    [ranges[j]] for every recorded job ([range_column]).  The widgets'
    bounds ([min_value], [max_value]) are Streamlit's contract, [form_ok]. *)

From Stdlib Require Import ZArith Lia.
From stdpp Require Import base list strings pretty decidable.
From S2P Require Import Prelude PyDict PyFloat Probability RangeAllocator DrawResolver RandomSource SimulationRunner.

Open Scope Z_scope.

Module App.
Import RangeAllocator DrawResolver SimulationRunner.

(** What the widgets return on one rerun. *)
Record form := Form {
  num_jobs : Z;                 (* st.number_input("Enter number of jobs", 1..50) *)
  freq_input : Z -> Z;          (* st.number_input(f"Frequency for J{i}", min 1) *)
  generate_clicked : bool;      (* st.button("Generate Ranges") *)
  num_simulations_input : Z;    (* st.number_input("Number of simulations", min 1) *)
  jobs_per_simulation_input : Z;(* st.number_input("Jobs per simulation", min 1) *)
  run_clicked : bool            (* st.button("Run Simulations") *)
}.

(** The widgets' bounds, enforced by Streamlit. *)
Definition form_ok (f : form) : Prop :=
  1 <= num_jobs f <= 50 /\ (forall i, 1 <= freq_input f i) /\
  1 <= num_simulations_input f /\ 1 <= jobs_per_simulation_input f.

(** [f"J{i}"] *)
Definition job_name (i : Z) : string := "J" +:+ pretty i.

(** [for i in range(1, num_jobs + 1): job_data[f"J{i}"] = freq] *)
Fixpoint job_data_loop (freq : Z -> Z) (i : Z) (k : nat) (job_data : dict string Z)
    : dict string Z :=
  match k with
  | O => job_data
  | S k' => job_data_loop freq (i + 1) k' (dict_set job_data (job_name i) (freq i))
  end.

Definition get_job_data_ui (f : form) : dict string Z :=
  job_data_loop (freq_input f) 1 (Z.to_nat (num_jobs f)) [].

Lemma job_name_inj i j : job_name i = job_name j -> i = j.
Proof. unfold job_name. intros H. injection H as H. exact (pretty_Z_inj _ _ H). Qed.

Lemma job_data_loop_items freq i k acc :
  (forall z, i <= z -> ~ In (job_name z) (dict_keys acc)) ->
  job_data_loop freq i k acc
  = acc ++ map (fun z => (job_name z, freq z)) (seqZ i (Z.of_nat k)).
Proof.
  revert i acc. induction k as [|k IH]; intros i acc Hfresh; simpl.
  - by rewrite app_nil_r.
  - rewrite dict_set_notin by (apply Hfresh; lia).
    rewrite IH.
    + rewrite (seqZ_cons i (Z.of_nat (S k))) by lia.
      rewrite <- app_assoc. simpl.
      replace (Z.succ i) with (i + 1) by lia.
      replace (Z.pred (Z.of_nat (S k))) with (Z.of_nat k) by lia. reflexivity.
    + intros z Hz. rewrite dict_keys_app. simpl. rewrite in_app_iff. intros [Hin|[Heq|[]]].
      * exact (Hfresh z ltac:(lia) Hin).
      * apply job_name_inj in Heq. lia.
Qed.

(** The table the form builds: the jobs [J1 .. Jn] with the widgets'
    values, in that order. *)
Lemma get_job_data_ui_items f :
  0 <= num_jobs f ->
  get_job_data_ui f = map (fun z => (job_name z, freq_input f z)) (seqZ 1 (num_jobs f)).
Proof.
  intros Hn. unfold get_job_data_ui. rewrite job_data_loop_items by (intros; simpl; tauto).
  rewrite Z2Nat.id by exact Hn. reflexivity.
Qed.

Lemma get_job_data_ui_keys f :
  0 <= num_jobs f -> dict_keys (get_job_data_ui f) = map job_name (seqZ 1 (num_jobs f)).
Proof. intros Hn. rewrite get_job_data_ui_items by exact Hn. unfold dict_keys. by rewrite map_map. Qed.

(** On a valid form the table has distinct jobs, frequencies at least 1,
    and at least one job. *)
Lemma get_job_data_ui_valid f :
  form_ok f ->
  NoDup (dict_keys (get_job_data_ui f)) /\
  Forall (fun v => 1 <= v) (dict_values (get_job_data_ui f)) /\
  dict_values (get_job_data_ui f) <> [].
Proof.
  intros (Hn & Hfreq & _). split; [|split].
  - rewrite get_job_data_ui_keys by lia.
    change (NoDup (job_name <$> seqZ 1 (num_jobs f))).
    apply NoDup_fmap_2; [intros ?? ; apply job_name_inj | apply NoDup_seqZ].
  - rewrite get_job_data_ui_items by lia. unfold dict_values. rewrite map_map.
    apply Forall_forall. intros v (z & <- & _)%in_map_iff. apply Hfreq.
  - rewrite get_job_data_ui_items by lia. unfold dict_values. rewrite map_map.
    rewrite (seqZ_cons 1 (num_jobs f)) by lia. discriminate.
Qed.

Lemma dict_get_job_names (h : Z -> Z) l i :
  dict_get (map (fun z => (job_name z, h z)) l) (job_name i)
  = if decide (i ∈ l) then Some (h i) else None.
Proof.
  induction l as [|z l IH]; cbn; [reflexivity|].
  destruct (decide (job_name i = job_name z)) as [Hz|Hz].
  - apply job_name_inj in Hz as ->. by rewrite decide_True by (apply elem_of_cons; left; done).
  - rewrite IH. assert (i <> z) by (intros ->; contradiction).
    destruct (decide (i ∈ l)) as [Hi|Hi], (decide (i ∈ z :: l)) as [Hi'|Hi']; try done.
    + exfalso. apply Hi'. apply elem_of_cons. by right.
    + exfalso. apply elem_of_cons in Hi' as [->|?]; contradiction.
Qed.

(** C18 (round trip).  Looking up [f"J{i}"] in the table the form builds
    returns the frequency entered for job [i] when [1 <= i <= num_jobs],
    and nothing otherwise: the names [J1 .. Jn] are written once each and
    read back unchanged. *)
Theorem get_job_data_ui_lookup f i :
  0 <= num_jobs f ->
  dict_get (get_job_data_ui f) (job_name i)
  = if decide (1 <= i <= num_jobs f) then Some (freq_input f i) else None.
Proof.
  intros Hn. rewrite get_job_data_ui_items by exact Hn. rewrite dict_get_job_names.
  destruct (decide (i ∈ seqZ 1 (num_jobs f))) as [Hi|Hi], (decide (1 <= i <= num_jobs f));
    try done; rewrite elem_of_seqZ in Hi; lia.
Qed.

(** ** The session state *)

(** [st.session_state], one field per key the program writes. *)
Record session (R : Type) := Session {
  ss_job_data : option (dict string Z);
  ss_ranges : option (dict string (Z * Z));
  ss_total_range : option Z;
  ss_show_range : option bool;
  ss_simulations_ran : option bool;
  ss_simulations : option (list (list string));
  ss_probabilities : option (dict string R);
  ss_cumulative_prob : option (dict string R);
  ss_simulation_details : option (list (list (detail R)))
}.
Arguments Session {R} _ _ _ _ _ _ _ _ _.
Arguments ss_job_data {R} _.
Arguments ss_ranges {R} _.
Arguments ss_total_range {R} _.
Arguments ss_show_range {R} _.
Arguments ss_simulations_ran {R} _.
Arguments ss_simulations {R} _.
Arguments ss_probabilities {R} _.
Arguments ss_cumulative_prob {R} _.
Arguments ss_simulation_details {R} _.

(** The state of a fresh browser session: no key set. *)
Definition session_init {R : Type} : session R :=
  Session None None None None None None None None None.

(** [st.session_state.key]: [AttributeError] when the key was never set. *)
Definition attr {A : Type} (o : option A) : res A :=
  match o with
  | Some a => Ok a
  | None => Err AttributeError
  end.

(** [st.session_state.get(key, False)] *)
Definition get_flag (o : option bool) : bool :=
  match o with
  | Some b => b
  | None => false
  end.

(** [if 'job_data' not in st.session_state: st.session_state.job_data = {}] *)
Definition init_job_data {R : Type} (ss : session R) : session R :=
  match ss_job_data ss with
  | Some _ => ss
  | None => Session (Some []) (ss_ranges ss) (ss_total_range ss) (ss_show_range ss)
              (ss_simulations_ran ss) (ss_simulations ss) (ss_probabilities ss)
              (ss_cumulative_prob ss) (ss_simulation_details ss)
  end.

(** The "Generate Ranges" branch (lines 101-107). *)
Definition generate {R : Type} (ss : session R) (job_data : dict string Z) : res (session R) :=
  let! '(ranges, total_range) := create_ranges job_data in
  Ok (Session (Some job_data) (Some ranges) (Some total_range) (Some true) (Some false)
              (ss_simulations ss) (ss_probabilities ss) (ss_cumulative_prob ss)
              (ss_simulation_details ss)).

(** The "Run Simulations" branch (lines 118-126). *)
Definition run {G : Type} `{RandomSource G} {R : Type} `{ProbArith R}
    (ss : session R) (num_simulations jobs_per_simulation : Z) (g : G)
    : res (session R * G) :=
  let! ranges := attr (ss_ranges ss) in
  let! total_range := attr (ss_total_range ss) in
  let! '(simulations, probabilities, cumulative_prob, simulation_details, g') :=
    run_simulations ranges total_range num_simulations jobs_per_simulation g in
  Ok (Session (ss_job_data ss) (ss_ranges ss) (ss_total_range ss) (ss_show_range ss) (Some true)
              (Some simulations) (Some probabilities) (Some cumulative_prob)
              (Some simulation_details), g').

(** The [Range] column of one simulation's table (line 83):
    [ranges[j]] for the job of every draw record. *)
Definition range_column {R : Type} (ranges : dict string (Z * Z)) (details : list (detail R))
    : res (list (Z * Z)) :=
  res_traverse (fun d => dict_getitem ranges (detail_job d)) details.

(** [display_results] (lines 71-89): the tables are formatting, except the
    [Range] column of every simulation. *)
Definition display_results {R : Type} (simulations : list (list string))
    (probabilities cumulative_prob : dict string R)
    (simulation_details : list (list (detail R))) (ranges : dict string (Z * Z))
    : res (list (list (Z * Z))) :=
  res_traverse (range_column ranges) simulation_details.

(** Step 2 of [main] (lines 109-126): when [show_range] is set, the
    ranges are listed and the "Run Simulations" button is offered. *)
Definition show_step {G : Type} `{RandomSource G} {R : Type} `{ProbArith R}
    (ss : session R) (f : form) (g : G) : res (session R * G) :=
  if get_flag (ss_show_range ss) then
    let! _ := attr (ss_ranges ss) in
    if run_clicked f
    then run ss (num_simulations_input f) (jobs_per_simulation_input f) g
    else Ok (ss, g)
  else Ok (ss, g).

(** Step 3 of [main] (lines 128-136): [display_results] on the values
    read back from the session state. *)
Definition display_session {R : Type} (ss : session R) : res (list (list (Z * Z))) :=
  let! simulations := attr (ss_simulations ss) in
  let! probabilities := attr (ss_probabilities ss) in
  let! cumulative_prob := attr (ss_cumulative_prob ss) in
  let! simulation_details := attr (ss_simulation_details ss) in
  let! ranges := attr (ss_ranges ss) in
  display_results simulations probabilities cumulative_prob simulation_details ranges.

(** One rerun of [main] (lines 92-136).  On an exception the rerun stops
    with the session state as it was when the exception was raised. *)
Definition main_run {G : Type} `{RandomSource G} {R : Type} `{ProbArith R}
    (ss : session R) (f : form) (g : G) : session R * G * option py_exc :=
  let ss := init_job_data ss in
  let job_data := get_job_data_ui f in
  match (if generate_clicked f then generate ss job_data else Ok ss) with
  | Err e => (ss, g, Some e)
  | Ok ss =>
      match show_step ss f g with
      | Err e => (ss, g, Some e)
      | Ok (ss, g) =>
          if get_flag (ss_simulations_ran ss) then
            match display_session ss with
            | Err e => (ss, g, Some e)
            | Ok _ => (ss, g, None)
            end
          else (ss, g, None)
      end
  end.

(** The states a browser session reaches: the fresh state, then any
    number of reruns with widget values inside their bounds. *)
Section Reachable.
Context {G : Type} `{RandomSource G} {R : Type} `{ProbArith R}.

Inductive reachable : session R * G -> Prop :=
| reachable_init g : reachable (session_init, g)
| reachable_rerun ss g f ss' g' e :
    reachable (ss, g) -> form_ok f -> main_run ss f g = (ss', g', e) -> reachable (ss', g').
End Reachable.

(** ** The invariant of the session state *)

Lemma records_ok_resolved {R : Type} `{ProbArith R} ranges num_simulations
    jobs_per_simulation drawn (ds : list (detail R)) :
  records_ok ranges num_simulations jobs_per_simulation drawn ds ->
  Forall (fun d => get_job_from_random ranges (detail_number d) = Some (detail_job d)) ds.
Proof.
  revert drawn. induction ds as [|d ds IH]; simpl; intros drawn; [constructor|].
  intros (Hget & _ & Hrec). constructor; [exact Hget | exact (IH _ Hrec)].
Qed.

Section Invariant.
Context {R : Type}.

(** The ranges stored in the session are a tiling of [1 .. 99] with
    distinct jobs, and [total_range] is 99. *)
Definition ranges_inv (ss : session R) (ranges : dict string (Z * Z)) : Prop :=
  ss_ranges ss = Some ranges /\ ss_total_range ss = Some TOTAL_RANGE /\
  NoDup (dict_keys ranges) /\ tiles 1 TOTAL_RANGE ranges.

(** A draw record is right about the stored ranges: its job is the one
    [get_job_from_random] resolves its number to. *)
Definition resolved (ranges : dict string (Z * Z)) (d : detail R) : Prop :=
  get_job_from_random ranges (detail_number d) = Some (detail_job d).

(** When [show_range] is set, the ranges are stored and valid; when
    [simulations_ran] is set, every value [display_results] reads is stored
    and every draw record was resolved against the stored ranges. *)
Definition session_inv (ss : session R) : Prop :=
  (get_flag (ss_show_range ss) = true -> exists ranges, ranges_inv ss ranges) /\
  (get_flag (ss_simulations_ran ss) = true ->
     exists ranges sims probs cum details,
       ranges_inv ss ranges /\ ss_simulations ss = Some sims /\
       ss_probabilities ss = Some probs /\ ss_cumulative_prob ss = Some cum /\
       ss_simulation_details ss = Some details /\
       Forall (resolved ranges) (concat details)).

(** The [Range] shown beside a draw record contains its number. *)
Definition shows_range (d : detail R) (r : Z * Z) : Prop := r.1 <= detail_number d <= r.2.

Lemma session_init_inv : session_inv session_init.
Proof. split; discriminate. Qed.

Lemma init_job_data_inv ss : session_inv ss -> session_inv (init_job_data ss).
Proof. unfold init_job_data. by destruct (ss_job_data ss). Qed.

Lemma resolved_getitem ranges d :
  NoDup (dict_keys ranges) -> resolved ranges d ->
  exists r, dict_getitem ranges (detail_job d) = Ok r /\ shows_range d r.
Proof.
  intros Hnd Hres. destruct (get_job_from_random_sound _ _ _ Hres) as (s & e & Hin & Hse).
  exists (s, e). unfold dict_getitem. by rewrite (dict_get_NoDup_In _ _ _ Hnd Hin).
Qed.

Lemma range_column_spec ranges (details : list (detail R)) :
  NoDup (dict_keys ranges) -> Forall (resolved ranges) details ->
  exists col, range_column ranges details = Ok col /\ Forall2 shows_range details col.
Proof.
  intros Hnd. induction 1 as [|d ds Hd _ (col & IH & Hcol)]; [by eexists|].
  destruct (resolved_getitem _ _ Hnd Hd) as (r & Hr & Hshow).
  unfold range_column in *; cbn [res_traverse]. rewrite Hr. cbn [res_bind].
  rewrite IH. eexists. split; [reflexivity | by constructor].
Qed.

Lemma display_results_spec sims probs cum ranges (details : list (list (detail R))) :
  NoDup (dict_keys ranges) -> Forall (resolved ranges) (concat details) ->
  exists cols, display_results sims probs cum details ranges = Ok cols /\
    Forall2 (Forall2 shows_range) details cols.
Proof.
  intros Hnd. unfold display_results.
  induction details as [|ds details IH]; simpl; [by eexists|].
  intros [Hds Hrest]%Forall_app.
  destruct (range_column_spec _ _ Hnd Hds) as (col & -> & Hcol).
  destruct (IH Hrest) as (cols & -> & Hcols). eexists. split; [reflexivity | by constructor].
Qed.

(** Step 3 on a state satisfying the invariant displays every draw
    record with the range that contains its number. *)
Lemma display_session_spec ss :
  session_inv ss -> get_flag (ss_simulations_ran ss) = true ->
  exists details cols, ss_simulation_details ss = Some details /\
    display_session ss = Ok cols /\ Forall2 (Forall2 shows_range) details cols.
Proof.
  intros [_ Hran] Hflag.
  destruct (Hran Hflag) as (ranges & sims & probs & cum & details &
                            (Hr & _ & Hnd & _) & Hs & Hp & Hc & Hd & Hall).
  unfold display_session. rewrite Hs, Hp, Hc, Hd, Hr. cbn [attr res_bind].
  destruct (display_results_spec sims probs cum _ _ Hnd Hall) as (cols & -> & Hcols).
  eauto.
Qed.


(** The "Generate Ranges" branch on a table with distinct jobs and
    frequencies at least 1 stores a valid tiling and clears
    [simulations_ran]. *)
Lemma generate_inv ss job_data :
  NoDup (dict_keys job_data) -> Forall (fun f => 1 <= f) (dict_values job_data) ->
  dict_values job_data <> [] ->
  exists ss' ranges, generate ss job_data = Ok ss' /\ ranges_inv ss' ranges /\
    dict_keys ranges = dict_keys job_data /\ session_inv ss' /\
    ss_show_range ss' = Some true.
Proof.
  intros Hnd Hf Hne.
  assert (Hf0 : Forall (fun f => 0 <= f) (dict_values job_data))
    by (eapply Forall_impl; [|exact Hf]; simpl; lia).
  assert (Hpos : 0 < sum_Z (dict_values job_data)).
  { destruct (dict_values job_data) as [|v vs] eqn:Hv; [congruence|].
    inversion Hf; subst. simpl. pose proof (sum_Z_nonneg vs ltac:(by inversion Hf0)). lia. }
  destruct (create_ranges_ok _ Hnd Hf0 Hpos) as [ranges Hcr].
  destruct (create_ranges_tiles _ _ _ Hnd Hf0 Hcr) as (_ & Hkeys & Htiles).
  unfold generate. rewrite Hcr. cbn [res_bind].
  assert (Hr : ranges_inv (Session (Some job_data) (Some ranges) (Some 99) (Some true) (Some false)
              (ss_simulations ss) (ss_probabilities ss) (ss_cumulative_prob ss)
              (ss_simulation_details ss)) ranges)
    by (repeat split; [rewrite Hkeys; exact Hnd | exact Htiles]).
  eexists _, ranges. do 3 (split; [reflexivity || exact Hr || exact Hkeys|]).
  split; [split; [intros _; eauto | discriminate] | reflexivity].
Qed.

Context {G : Type} `{RandomSourceLaws G} `{ProbArithLaws R}.

(** The "Run Simulations" branch on valid stored ranges stores the
    results and sets [simulations_ran]. *)
Lemma run_inv ss ranges num_simulations jobs_per_simulation g :
  ranges_inv ss ranges -> 1 <= num_simulations -> 1 <= jobs_per_simulation ->
  exists ss' g', run ss num_simulations jobs_per_simulation g = Ok (ss', g') /\
    session_inv ss' /\ ss_ranges ss' = ss_ranges ss /\ ss_show_range ss' = ss_show_range ss /\
    ss_simulations_ran ss' = Some true /\
    exists sims, ss_simulations ss' = Some sims /\ length sims = Z.to_nat num_simulations.
Proof.
  intros (Hr & Ht & Hnd & Htiles) HN HM. unfold run. rewrite Hr, Ht. cbn [attr res_bind].
  destruct (run_simulations_no_exception ranges TOTAL_RANGE _ _ g Hnd Htiles
              ltac:(unfold TOTAL_RANGE; lia) HN HM) as ([[[[sims probs] cum] dets] g'] & Hrun).
  destruct (run_simulations_inv _ _ _ _ Hnd _ _ _ _ _ _ Hrun) as (Hsims & Hlen & _ & Hrec & _).
  rewrite Hrun. cbn [res_bind]. eexists _, g'. split; [reflexivity|].
  split; [|split; [reflexivity|split; [reflexivity|split; [reflexivity|]]]].
  2: { exists sims. split; [reflexivity|]. by rewrite Hsims, length_map. }
  assert (Hri : ranges_inv (Session (ss_job_data ss) (Some ranges) (Some TOTAL_RANGE)
     (ss_show_range ss) (Some true) (Some sims) (Some probs) (Some cum) (Some dets)) ranges)
    by (repeat split; simpl; auto).
  split; intros _; [by exists ranges|].
  exists ranges, sims, probs, cum, dets. split; [exact Hri|]. do 4 (split; [reflexivity|]).
  exact (records_ok_resolved _ _ _ _ _ Hrec).
Qed.

(** What the "Run Simulations" step leaves behind: the [show_range] flag
    unchanged, and, when the ranges are shown and the button is clicked,
    [num_simulations] stored sequences. *)
Definition ran_with (f : form) (ss : session R) : Prop :=
  ss_simulations_ran ss = Some true /\
  exists sims, ss_simulations ss = Some sims /\ length sims = Z.to_nat (num_simulations_input f).

Lemma show_step_inv ss f g :
  session_inv ss -> form_ok f ->
  exists ss' g', show_step ss f g = Ok (ss', g') /\ session_inv ss' /\
    ss_show_range ss' = ss_show_range ss /\
    (get_flag (ss_show_range ss) = true -> run_clicked f = true -> ran_with f ss').
Proof.
  intros Hinv (_ & _ & HN & HM). unfold show_step.
  destruct (get_flag (ss_show_range ss)) eqn:Hs;
    [|exists ss, g; split; [reflexivity|]; split; [exact Hinv|]; split; [reflexivity|]; intros ? ?; congruence].
  destruct (proj1 Hinv Hs) as [ranges Hr]. rewrite (proj1 Hr). cbn [attr res_bind].
  destruct (run_clicked f); [|exists ss, g; split; [reflexivity|]; split; [exact Hinv|]; split; [reflexivity|]; intros ? ?; congruence].
  destruct (run_inv ss ranges _ _ g Hr HN HM) as (ss' & g' & -> & Hinv' & _ & Hshow & Hran).
  exists ss', g'. split; [reflexivity|]. split; [exact Hinv'|]. split; [exact Hshow|].
  intros _ _. exact Hran.
Qed.

(** One rerun from a state satisfying the invariant, with widget values
    inside their bounds, raises nothing and keeps the invariant; after
    "Generate Ranges" the ranges are shown, and "Run Simulations" with
    the ranges shown stores the results. *)
Lemma main_run_inv ss f g :
  session_inv ss -> form_ok f ->
  exists ss' g', main_run ss f g = (ss', g', None) /\ session_inv ss' /\
    (generate_clicked f = true \/ get_flag (ss_show_range ss) = true ->
     get_flag (ss_show_range ss') = true /\ (run_clicked f = true -> ran_with f ss')).
Proof.
  intros Hinv Hf. unfold main_run.
  pose proof (init_job_data_inv ss Hinv) as Hinv0.
  destruct (get_job_data_ui_valid f Hf) as (Hnd & Hfr & Hne).
  assert (Hgen : exists ss1, (if generate_clicked f
                              then generate (init_job_data ss) (get_job_data_ui f)
                              else Ok (init_job_data ss)) = Ok ss1 /\ session_inv ss1 /\
                   (generate_clicked f = true \/ get_flag (ss_show_range ss) = true ->
                    get_flag (ss_show_range ss1) = true)).
  { destruct (generate_clicked f).
    - destruct (generate_inv (init_job_data ss) _ Hnd Hfr Hne)
        as (ss1 & _ & -> & _ & _ & ? & Hshow).
      exists ss1. split; [reflexivity|]. split; [assumption|]. by rewrite Hshow.
    - exists (init_job_data ss). split; [reflexivity|]. split; [exact Hinv0|].
      intros [?|Hs]; [discriminate|]. unfold init_job_data. by destruct (ss_job_data ss). }
  destruct Hgen as (ss1 & -> & Hinv1 & Hshow1).
  destruct (show_step_inv ss1 f g Hinv1 Hf) as (ss2 & g2 & -> & Hinv2 & Hshow2 & Hran2).
  exists ss2, g2. split; [|split; [exact Hinv2|]].
  - destruct (get_flag (ss_simulations_ran ss2)) eqn:Hran; [|reflexivity].
    by destruct (display_session_spec ss2 Hinv2 Hran) as (details & cols & _ & -> & _).
  - intros Hpre. specialize (Hshow1 Hpre). rewrite Hshow2. split; [exact Hshow1|].
    exact (Hran2 Hshow1).
Qed.

(** Rule induction on [reachable]: a property of the fresh state that
    every valid rerun preserves holds in every reachable state. *)
Lemma reachable_ind_inv (P : session R -> Prop) :
  P session_init ->
  (forall ss f g, P ss -> form_ok f -> P (main_run ss f g).1.1) ->
  forall ss g, reachable (ss, g) -> P ss.
Proof.
  intros Hinit Hstep ss g Hreach. remember (ss, g) as st eqn:Hst. revert ss g Hst.
  induction Hreach as [g0|ss0 g0 f ss' g' e Hreach IH Hf Hrun]; intros ss g [= <- <-].
  - exact Hinit.
  - replace ss' with (main_run ss0 f g0).1.1 by (rewrite Hrun; reflexivity).
    exact (Hstep _ _ _ (IH _ _ eq_refl) Hf).
Qed.

Lemma main_run_preserves_inv ss f g :
  session_inv ss -> form_ok f -> session_inv (main_run ss f g).1.1.
Proof. intros Hinv Hf. by destruct (main_run_inv ss f g Hinv Hf) as (ss' & g' & -> & ? & _). Qed.

(** C11 (invariant).  In every state a browser session reaches, a set
    [show_range] flag means the stored ranges tile [1 .. 99] with distinct
    jobs and [total_range] is 99, and a set [simulations_ran] flag means
    every value [display_results] reads is stored and every draw record
    was resolved against the stored ranges. *)
Theorem reachable_session_inv ss g : reachable (ss, g) -> session_inv ss.
Proof. exact (reachable_ind_inv session_inv session_init_inv main_run_preserves_inv ss g). Qed.

(** C12 (safety).  From every reachable state, a rerun with widget values
    inside their bounds raises no exception ([AttributeError], [KeyError],
    [ZeroDivisionError], [OverflowError] or [ValueError]), whatever buttons
    are clicked. *)
Theorem main_run_no_exception ss g f :
  reachable (ss, g) -> form_ok f ->
  exists ss' g', main_run ss f g = (ss', g', None) /\ reachable (ss', g').
Proof.
  intros Hreach Hf.
  pose proof (reachable_ind_inv session_inv session_init_inv main_run_preserves_inv _ _ Hreach).
  destruct (main_run_inv ss f g ltac:(assumption) Hf) as (ss' & g' & Hrun & _).
  exists ss', g'. split; [exact Hrun | exact (reachable_rerun _ _ _ _ _ _ Hreach Hf Hrun)].
Qed.

(** C13 (safety).  In every reachable state where [simulations_ran] is set,
    [display_results] succeeds and shows beside every draw record the range
    its job owns in the stored table, which contains the record's random
    number. *)
Theorem display_shows_owning_range ss g :
  reachable (ss, g) -> get_flag (ss_simulations_ran ss) = true ->
  exists details cols, ss_simulation_details ss = Some details /\
    display_session ss = Ok cols /\ Forall2 (Forall2 shows_range) details cols.
Proof.
  intros Hreach Hran. apply display_session_spec; [|exact Hran].
  exact (reachable_ind_inv session_inv session_init_inv main_run_preserves_inv _ _ Hreach).
Qed.
End Invariant.

(** C14 (functional).  On widget values inside their bounds, "Generate
    Ranges" stores ranges for exactly the jobs [J1 .. Jn] in that order,
    tiling [1 .. 99], sets [show_range] and clears [simulations_ran]. *)
Theorem generate_ranges_jobs {R : Type} (ss : session R) f :
  form_ok f ->
  exists ss' ranges, generate ss (get_job_data_ui f) = Ok ss' /\ ranges_inv ss' ranges /\
    dict_keys ranges = map job_name (seqZ 1 (num_jobs f)) /\
    ss_show_range ss' = Some true /\ ss_simulations_ran ss' = Some false.
Proof.
  intros Hf. destruct (get_job_data_ui_valid f Hf) as (Hnd & Hfr & Hne).
  destruct (generate_inv ss _ Hnd Hfr Hne) as (ss' & ranges & Hgen & Hr & Hk & _ & Hshow).
  exists ss', ranges. rewrite Hk, get_job_data_ui_keys by (destruct Hf; lia).
  do 3 (split; [assumption || reflexivity|]).
  revert Hgen. unfold generate. destruct (create_ranges _) as [[??]|]; by intros [= <-].
Qed.

(** C19 (liveness).  From every reachable state, clicking "Generate
    Ranges" on one rerun and "Run Simulations" on the next, with widget
    values inside their bounds, always reaches the results: both reruns
    raise nothing, [num_simulations] sequences are stored and
    [display_results] succeeds on them. *)
Theorem generate_then_run_displays {G : Type} `{RandomSourceLaws G} {R : Type} `{ProbArithLaws R}
    (ss : session R) (g : G) f1 f2 :
  reachable (ss, g) -> form_ok f1 -> form_ok f2 ->
  generate_clicked f1 = true -> run_clicked f2 = true ->
  exists ss1 g1 ss2 g2 sims cols,
    main_run ss f1 g = (ss1, g1, None) /\ main_run ss1 f2 g1 = (ss2, g2, None) /\
    ss_simulations ss2 = Some sims /\ length sims = Z.to_nat (num_simulations_input f2) /\
    display_session ss2 = Ok cols.
Proof.
  intros Hreach Hf1 Hf2 Hgen Hrun.
  pose proof (reachable_ind_inv session_inv session_init_inv main_run_preserves_inv _ _ Hreach)
    as Hinv.
  destruct (main_run_inv ss f1 g Hinv Hf1) as (ss1 & g1 & Hrun1 & Hinv1 & Hpost1).
  destruct (Hpost1 (or_introl Hgen)) as [Hshow1 _].
  destruct (main_run_inv ss1 f2 g1 Hinv1 Hf2) as (ss2 & g2 & Hrun2 & Hinv2 & Hpost2).
  destruct (proj2 (Hpost2 (or_intror Hshow1)) Hrun) as (Hran2 & sims & Hs & Hlen).
  destruct (display_session_spec ss2 Hinv2 ltac:(by rewrite Hran2))
    as (details & cols & _ & Hd & _).
  exists ss1, g1, ss2, g2, sims, cols. auto.
Qed.

(** ** Witnesses *)

(** A session with 3 jobs of frequency 10, 2 simulations of 3 jobs. *)
Definition demo_form (gen run_ : bool) : form :=
  Form 3 (fun _ => 10) gen 2 3 run_.

Lemma demo_form_ok gen run_ : form_ok (demo_form gen run_).
Proof. unfold form_ok; simpl; repeat split; lia. Qed.

(** The reruns that click "Generate Ranges", then "Run Simulations". *)
Definition demo_run1 : session float * lcg * option py_exc :=
  Eval vm_compute in main_run session_init (demo_form true false) (Lcg 42).

Definition demo_run2 : session float * lcg * option py_exc :=
  Eval vm_compute in main_run demo_run1.1.1 (demo_form false true) demo_run1.1.2.

Lemma demo_reachable : reachable (demo_run2.1.1, demo_run2.1.2).
Proof.
  assert (H1 : reachable (demo_run1.1.1, demo_run1.1.2)).
  { apply (reachable_rerun session_init (Lcg 42) (demo_form true false) _ _ demo_run1.2
             (reachable_init _) (demo_form_ok _ _)). vm_compute. reflexivity. }
  apply (reachable_rerun _ _ (demo_form false true) _ _ demo_run2.2 H1 (demo_form_ok _ _)).
  vm_compute. reflexivity.
Qed.

Lemma main_run_no_exception_witness :
  exists ss' g', main_run demo_run2.1.1 (demo_form true true) demo_run2.1.2
                 = (ss', g', None) /\ reachable (ss', g').
Proof. exact (main_run_no_exception _ _ _ demo_reachable (demo_form_ok _ _)). Defined.

Lemma reachable_session_inv_witness : session_inv demo_run2.1.1.
Proof. exact (reachable_session_inv _ _ demo_reachable). Defined.

Lemma display_shows_owning_range_witness :
  get_flag (ss_simulations_ran demo_run2.1.1) = true /\
  exists details cols, ss_simulation_details demo_run2.1.1 = Some details /\
    display_session demo_run2.1.1 = Ok cols /\ Forall2 (Forall2 shows_range) details cols.
Proof.
  assert (Hran : get_flag (ss_simulations_ran demo_run2.1.1) = true) by (vm_compute; reflexivity).
  split; [exact Hran|].
  exact (display_shows_owning_range _ _ demo_reachable Hran).
Defined.

Lemma generate_ranges_jobs_witness :
  exists ss' ranges,
    generate (@session_init float) (get_job_data_ui (demo_form true false)) = Ok ss' /\
    ranges_inv ss' ranges /\ dict_keys ranges = map job_name (seqZ 1 3) /\
    ss_show_range ss' = Some true /\ ss_simulations_ran ss' = Some false.
Proof. exact (generate_ranges_jobs session_init _ (demo_form_ok true false)). Defined.

Lemma get_job_data_ui_lookup_witness :
  dict_get (get_job_data_ui (demo_form true false)) (job_name 2) = Some 10 /\
  dict_get (get_job_data_ui (demo_form true false)) (job_name 4) = None.
Proof.
  split.
  - exact (get_job_data_ui_lookup (demo_form true false) 2 ltac:(simpl; lia)).
  - exact (get_job_data_ui_lookup (demo_form true false) 4 ltac:(simpl; lia)).
Defined.

Lemma generate_then_run_displays_witness :
  exists ss1 g1 ss2 g2 sims cols,
    main_run demo_run2.1.1 (demo_form true false) demo_run2.1.2 = (ss1, g1, None) /\
    main_run ss1 (demo_form false true) g1 = (ss2, g2, None) /\
    ss_simulations ss2 = Some sims /\ length sims = Z.to_nat 2 /\
    display_session ss2 = Ok cols.
Proof.
  exact (generate_then_run_displays demo_run2.1.1 demo_run2.1.2 _ _ demo_reachable
           (demo_form_ok _ _) (demo_form_ok _ _) eq_refl eq_refl).
Defined.

End App.
