(* ===== verification/Display.v ===== *)
(** * What the app prints (src/app.py, lines 71-89 and 112-113)

    [display_results] shows three tables and the session flow lists the
    ranges; every cell is a string the program builds:
    - the probability table ([prob_df], lines 73-77), each value
      formatted with ['{:.4f}'] ([format_fixed4]): the exact value of the
      double rounded half to even to four decimals, as CPython's
      correctly rounded [dtoa] does;
    - per simulation an expander ["Simulation {i+1} Details"] holding the
      draw records with the [Range] column [f"{start}–{end}"]
      ([range_label], lines 79-84, [ranges[j]] raising [KeyError]);
    - the summary of the job sequences, indexed ["Sim {i+1}"] (lines
      86-89);
    - and, in [main], one line [f"{job}: {start}–{end}"] per range
      ([range_line], line 113).
    Streamlit's rendering of these tables (layout, widgets) is not
    modelled; the table contents are.  The probability table is modelled
    row by row over the probabilities' keys, looking the cumulative value
    up by key, which is how pandas aligns two dicts with the same keys
    (the keys are the same, [run_simulations_tables_keys]).

    The theorems: a probability cell reads as a decimal within
    [0.00005 + 3 * 2^-52] of the job's exact share, and the last
    cumulative cell is [1.0000] (with [FloatError]); the listing of the
    ranges reads back (with [PyStr]); [render_session] raises exactly the
    exceptions of [App.display_session], and in every reachable state with
    results each row of a simulation's table reads back as its draw
    record beside the range its job owns, which contains its number. *)

From Stdlib Require Import ZArith QArith Qabs Lqa Lia SpecFloat Ascii.
From stdpp Require Import base list strings pretty decidable.
From S2P Require Import Prelude PyDict PyFloat PyStr FloatError Probability RangeAllocator DrawResolver RandomSource SimulationRunner SimulationStats FloatStats App.

Open Scope Z_scope.

Module Display.
Import RangeAllocator DrawResolver SimulationRunner SimulationStats FloatStats App.
Open Scope Z_scope.

(** ** Numbers as the program prints them *)

(** [f"{start}–{end}"]: Python's [str] of an int is [pretty] (a [-] for
    negative numbers), joined by an en dash. *)
Definition range_label (r : Z * Z) : string := pretty r.1 +:+ "–" +:+ pretty r.2.

(** [f"{job}: {start}–{end}"] (line 113). *)
Definition range_line (job : string) (r : Z * Z) : string := job +:+ ": " +:+ range_label r.

(** The four digits after the point, with leading zeros. *)
Definition pad4 (r : Z) : string := zeros (4 - String.length (pretty r)) +:+ pretty r.

(** The decimal [n / 10^4] written with four decimals, for [0 <= n]. *)
Definition show_fixed4 (n : Z) : string :=
  pretty (n / 10000) +:+ "." +:+ pad4 (n mod 10000).

(** [|x| * 10^4] rounded half to even, for [|x| = m * 2^e]. *)
Definition fixed4_scaled (m : positive) (e : Z) : Z :=
  if Z.leb 0 e then Zpos m * 2 ^ e * 10000
  else round_half_even_shift (Zpos m * 10000) (Z.to_pos (- e)).

Definition sign_prefix (s : bool) : string := if s then "-" else "".

(** ['{:.4f}'.format(x)]. *)
Definition format_fixed4 (x : float) : string :=
  match x with
  | S754_zero s => sign_prefix s +:+ "0.0000"
  | S754_infinity s => sign_prefix s +:+ "inf"
  | S754_nan => "nan"
  | S754_finite s m e => sign_prefix s +:+ show_fixed4 (fixed4_scaled m e)
  end.

(** ** The tables *)

(** [prob_df], formatted: one row per job, [Probability] and
    [Cumulative Probability] with ['{:.4f}'] ([nan] for a missing key). *)
Definition prob_table (probabilities cumulative_prob : dict string float)
    : list (string * string * string) :=
  map (fun '(job, p) =>
         (job, format_fixed4 p,
          match dict_get cumulative_prob job with
          | Some c => format_fixed4 c
          | None => "nan"
          end)) probabilities.

(** One simulation's [detail_df]: the record's three columns and the
    [Range] column [ranges[j]] formatted. *)
Definition detail_rows (ranges : dict string (Z * Z)) (details : list (detail float))
    : res (list (Z * string * float * string)) :=
  res_traverse (fun d => let! r := dict_getitem ranges (detail_job d) in
                         Ok (detail_number d, detail_job d, d.2, range_label r)) details.

(** The [i]-th expander's title, counting from 0. *)
Definition expander_title (i : nat) : string :=
  "Simulation " +:+ pretty (S i) +:+ " Details".

(** The summary's index, counting from 0. *)
Definition sim_label (i : nat) : string := "Sim " +:+ pretty (S i).

(** Everything [display_results] shows, in the order it is built. *)
Record rendered := Rendered {
  shown_probabilities : list (string * string * string);
  shown_details : list (string * list (Z * string * float * string));
  shown_summary : list (string * list string)
}.

Definition render_results (simulations : list (list string))
    (probabilities cumulative_prob : dict string float)
    (simulation_details : list (list (detail float))) (ranges : dict string (Z * Z))
    : res rendered :=
  let probs := prob_table probabilities cumulative_prob in
  let! tables := res_traverse (fun '(i, details) =>
                   let! rows := detail_rows ranges details in Ok (expander_title i, rows))
                 (zip (seq 0 (length simulation_details)) simulation_details) in
  Ok (Rendered probs tables
       (zip (map sim_label (seq 0 (length simulations))) simulations)).

(** The listing of the ranges in [main] (lines 112-113). *)
Definition ranges_listing (ranges : dict string (Z * Z)) : list string :=
  map (fun '(job, r) => range_line job r) ranges.

(** Step 3 of [main] (lines 128-136) with the tables rendered: the
    values read back from the session state, then [display_results]. *)
Definition render_session (ss : session float) : res rendered :=
  let! simulations := attr (ss_simulations ss) in
  let! probabilities := attr (ss_probabilities ss) in
  let! cumulative_prob := attr (ss_cumulative_prob ss) in
  let! simulation_details := attr (ss_simulation_details ss) in
  let! ranges := attr (ss_ranges ss) in
  render_results simulations probabilities cumulative_prob simulation_details ranges.

(** The rows of one simulation's table from the records and the ranges
    looked up for them. *)
Definition detail_table (details : list (detail float)) (col : list (Z * Z))
    : list (Z * string * float * string) :=
  zip_with (fun d r => (detail_number d, detail_job d, d.2, range_label r)) details col.

(** The tables of [display_results] built from the [Range] columns that
    [App.display_results] computes. *)
Definition render_with (simulations : list (list string))
    (probabilities cumulative_prob : dict string float)
    (simulation_details : list (list (detail float))) (cols : list (list (Z * Z))) : rendered :=
  Rendered (prob_table probabilities cumulative_prob)
    (zip (map expander_title (seq 0 (length simulation_details)))
         (zip_with detail_table simulation_details cols))
    (zip (map sim_label (seq 0 (length simulations))) simulations).

(** ** Reading the printed labels back *)

(** A label ["{start}–{end}"] read back. *)
Definition parse_range_label (s : string) : option (Z * Z) :=
  match read_int s with
  | Some (a, rest) =>
      match strip_prefix "–" rest with
      | Some rest' => match read_int rest' with Some (b, EmptyString) => Some (a, b) | _ => None end
      | None => None
      end
  | None => None
  end.

(** A line ["{job}: {start}–{end}"] of the listing, for a given job. *)
Definition parse_range_line (job line : string) : option (Z * Z) :=
  match strip_prefix job line with
  | Some rest => match strip_prefix ": " rest with Some l => parse_range_label l | None => None end
  | None => None
  end.

(** What a row of a simulation's table says when its cells are read
    back: the record's number, job and running total, and a [Range] cell
    that parses as the range [(a, b)] the job owns in [ranges], which
    contains the record's number. *)
Definition reads_row (ranges : dict string (Z * Z)) (d : detail float)
    (row : Z * string * float * string) : Prop :=
  row.1.1.1 = detail_number d /\ row.1.1.2 = detail_job d /\ row.1.2 = d.2 /\
  exists a b, parse_range_label row.2 = Some (a, b) /\
    dict_get ranges (detail_job d) = Some (a, b) /\ a <= detail_number d <= b.

(** ** What a formatted cell denotes *)

Lemma fixed4_scaled_nonneg m e : 0 <= fixed4_scaled m e.
Proof.
  unfold fixed4_scaled. destruct (Z.leb_spec 0 e).
  - pose proof (Z.pow_nonneg 2 e ltac:(lia)). lia.
  - apply round_half_even_shift_nonneg. lia.
Qed.

(** The scaled value is [|x| * 10^4] within half a unit. *)
Lemma fixed4_scaled_error m e :
  (Qabs (inject_Z (fixed4_scaled m e) / inject_Z 10000 - mag_Q m e) <= 1 # 20000)%Q.
Proof.
  unfold fixed4_scaled, mag_Q. destruct (Z.leb_spec 0 e) as [He|He].
  - setoid_replace (inject_Z (Zpos m * 2 ^ e * 10000) / inject_Z 10000
                    - inject_Z (Zpos m) * inject_Z (2 ^ e))%Q with 0%Q using relation Qeq
      by (rewrite !inject_Z_mult; field; discriminate).
    apply Qle_bool_imp_le. reflexivity.
  - set (k := Z.to_pos (- e)). assert (Hk : - e = Zpos k) by (unfold k; rewrite Z2Pos.id; lia).
    rewrite Hk.
    pose proof (round_half_even_shift_error (Zpos m * 10000) k ltac:(lia)) as Herr.
    rewrite <- Pos2Z.inj_pow in Herr |- *.
    set (n := round_half_even_shift (Zpos m * 10000) k) in *.
    setoid_replace (inject_Z n / inject_Z 10000 - inject_Z (Zpos m) * / inject_Z (Zpos (2 ^ k)))%Q
      with ((n * Zpos (2 ^ k) - Zpos m * 10000) # (10000 * 2 ^ k))%Q using relation Qeq
      by (unfold Qeq; cbn; rewrite ?Pos2Z.inj_mul; ring).
    unfold Qabs, Qle. cbn [Qnum Qden]. rewrite Pos2Z.inj_mul. lia.
Qed.

Lemma read_unsigned_show_fixed4 n :
  0 <= n ->
  read_unsigned (show_fixed4 n)
  = Some (inject_Z (n / 10000) + inject_Z (n mod 10000) / inject_Z 10000)%Q.
Proof.
  intros Hn. unfold show_fixed4, read_unsigned.
  change ("." +:+ pad4 (n mod 10000)) with (String "." (pad4 (n mod 10000))).
  destruct (read_nat_pretty (n / 10000) (String "." (pad4 (n mod 10000)))
              ltac:(apply Z.div_pos; lia) eq_refl) as [L ->].
  cbv iota beta. rewrite Ascii.eqb_refl.
  pose proof (read_nat_padded 4 (n mod 10000) "" ltac:(lia)
                ltac:(pose proof (Z.mod_pos_bound n 10000); cbn; lia) I) as H4.
  rewrite string_app_nil_r in H4. unfold pad4. rewrite H4.
  by rewrite !Z2N.id by (apply Z.div_pos || apply Z.mod_pos_bound; lia).
Qed.

Lemma show_fixed4_value n :
  (inject_Z (n / 10000) + inject_Z (n mod 10000) / inject_Z 10000 == inject_Z n / inject_Z 10000)%Q.
Proof.
  rewrite (Z.div_mod n 10000) at 3 by lia.
  rewrite inject_Z_plus, inject_Z_mult. field.
Qed.

(** A formatted finite number reads back as its sign times [n / 10^4]. *)
Lemma read_decimal_format s n :
  0 <= n -> exists q, read_decimal (sign_prefix s +:+ show_fixed4 n) = Some q /\
    (q == sign_Q s * (inject_Z n / inject_Z 10000))%Q.
Proof.
  intros Hn. pose proof (read_unsigned_show_fixed4 n Hn) as Hr.
  destruct s; unfold sign_Q.
  - change (sign_prefix true +:+ show_fixed4 n) with (String "-" (show_fixed4 n)).
    unfold read_decimal. change (read_unsigned (String "-" (show_fixed4 n))) with (@None Q).
    cbv iota beta. rewrite Ascii.eqb_refl, Hr. eexists. split; [reflexivity|].
    cbn [option_map]. rewrite show_fixed4_value. ring.
  - change (sign_prefix false +:+ show_fixed4 n) with (show_fixed4 n).
    unfold read_decimal. rewrite Hr. eexists. split; [reflexivity|].
    rewrite show_fixed4_value. ring.
Qed.

(** ['{:.4f}'] is accurate: for every finite double [x] (zeros
    included), the string reads as a decimal within [0.00005] (half a unit
    of the fourth decimal) of the exact value of [x]. *)
Lemma format_fixed4_within x :
  is_finite x = true ->
  exists q, read_decimal (format_fixed4 x) = Some q /\ (Qabs (q - float_Q x) <= 1 # 20000)%Q.
Proof.
  destruct x as [s|s| |s m e]; cbn [is_finite]; intros Hx; try discriminate.
  - destruct s; eexists; (split; [reflexivity|]); apply Qle_bool_imp_le; reflexivity.
  - destruct (read_decimal_format s (fixed4_scaled m e) (fixed4_scaled_nonneg m e)) as (q & Hr & Hq).
    exists q. split; [exact Hr|]. cbn [float_Q]. rewrite Hq.
    pose proof (fixed4_scaled_error m e) as Herr.
    destruct s; unfold sign_Q.
    + setoid_replace (-1 * (inject_Z (fixed4_scaled m e) / inject_Z 10000) - -1 * mag_Q m e)%Q
        with (- (inject_Z (fixed4_scaled m e) / inject_Z 10000 - mag_Q m e))%Q
        using relation Qeq by ring.
      by rewrite Qabs_opp.
    + setoid_replace (1 * (inject_Z (fixed4_scaled m e) / inject_Z 10000) - 1 * mag_Q m e)%Q
        with (inject_Z (fixed4_scaled m e) / inject_Z 10000 - mag_Q m e)%Q
        using relation Qeq by ring.
      exact Herr.
Qed.

(** The rows of a table built from [probabilities_of]: the job of each
    row, and its value computed from the job's count. *)
Lemma probabilities_rows (keys : list string) (f : string -> Z) (probs : dict string float) T :
  dict_keys probs = keys ->
  res_traverse (fun c => py_int_truediv c T) (map f keys) = Ok (dict_values probs) ->
  Forall2 (fun j jp => jp.1 = j /\ py_int_truediv (f j) T = Ok jp.2) keys probs.
Proof.
  revert keys. induction probs as [|[j p] probs IH]; intros keys Hk Hv;
    destruct keys as [|j' keys]; try discriminate; [constructor|].
  injection Hk as <- Hk. cbn [map res_traverse] in Hv.
  destruct (py_int_truediv (f j) T) as [p'|e] eqn:Hp; cbn [res_bind] in Hv; [|discriminate].
  destruct (res_traverse _ (map f keys)) as [ps|e] eqn:Hps; cbn [res_bind] in Hv; [|discriminate].
  injection Hv as <- Hps'. constructor; [done|]. apply IH; [exact Hk|]. rewrite Hps. by f_equal.
Qed.

(** C21 (bounds).  The probability column as the page prints it: after a
    run with at least one simulation and one draw, the probability table
    has one row per job of [ranges], in order, and the ['{:.4f}'] cell of
    each reads as a decimal within [0.00005 + 3 * 2^-52] of the exact
    share [count / (N * M)] of that job: half a unit of the fourth
    decimal from the formatting, the rest from the division in binary64. *)
Theorem prob_table_accuracy {G : Type} `{RandomSource G}
    ranges total_range N M g sims probs cum dets g' :
  NoDup (dict_keys ranges) -> 1 <= N -> 1 <= M ->
  @run_simulations G _ float _ ranges total_range N M g = Ok (sims, probs, cum, dets, g') ->
  Forall2 (fun j row => row.1.1 = j /\
             exists q, read_decimal row.1.2 = Some q /\
               (Qabs (q - inject_Z (occurrences (concat sims) j) / inject_Z (N * M))
                <= (1 # 20000) + 3 * 2 ^ (-52))%Q)
          (dict_keys ranges) (prob_table probs cum).
Proof.
  intros Hnd HN HM Hrun.
  destruct (run_simulations_probs _ _ _ _ _ _ _ _ _ _ Hnd HN HM Hrun) as (Hk & Hv & _ & _ & HNM).
  pose proof (probabilities_rows _ _ _ _ Hk Hv) as Hrows.
  unfold prob_table. apply Forall2_fmap_r. eapply Forall2_impl; [|exact Hrows].
  intros j [j' p] [Hj Hp]. cbn [compose fst snd] in Hj, Hp |- *. split; [exact Hj|].
  pose proof (occurrences_bounds (concat sims) j) as Hb. rewrite HNM in Hb.
  destruct (py_int_truediv_ratio _ _ Hb ltac:(lia)) as (p' & Hp' & _ & Hw).
  rewrite Hp in Hp'. injection Hp' as <-.
  destruct (format_fixed4_within p) as (q & Hq & Hfq);
    [destruct p; cbn in Hw |- *; done || contradiction|].
  exists q. split; [exact Hq|].
  pose proof (py_int_truediv_error _ _ _ Hb ltac:(lia) Hp) as Herr.
  setoid_replace (q - inject_Z (occurrences (concat sims) j) / inject_Z (N * M))%Q
    with ((q - float_Q p) + (float_Q p - inject_Z (occurrences (concat sims) j) / inject_Z (N * M)))%Q
    using relation Qeq by ring.
  eapply Qle_trans; [apply Qabs_triangle|]. apply Qplus_le_compat; assumption.
Qed.

(** A double within [1/40000] of 1 prints as [1.0000]. *)
Lemma format_fixed4_one x :
  is_finite x = true -> sign_nonneg x = true -> (Qabs (float_Q x - 1) <= 1 # 40000)%Q ->
  format_fixed4 x = "1.0000".
Proof.
  destruct x as [s|s| |s m e]; cbn [is_finite]; intros Hf Hs Hx; try discriminate.
  { exfalso. apply Qle_bool_iff in Hx. vm_compute in Hx. discriminate. }
  destruct s; [discriminate|]. cbn [format_fixed4 sign_prefix].
  pose proof (fixed4_scaled_error m e) as Herr.
  rewrite float_Q_finite_pos, <- mag_Q_pow in Hx.
  set (n := fixed4_scaled m e) in *.
  apply Qabs_Qle_condition in Hx as [Hx1 Hx2]. apply Qabs_Qle_condition in Herr as [He1 He2].
  unfold Qdiv in He1, He2. change (/ inject_Z 10000)%Q with (1 # 10000) in He1, He2.
  assert (Hlo : (inject_Z 9999 < inject_Z n)%Q) by (change (inject_Z 9999) with (9999 # 1); lra).
  assert (Hhi : (inject_Z n < inject_Z 10001)%Q) by (change (inject_Z 10001) with (10001 # 1); lra).
  rewrite <- Zlt_Qlt in Hlo, Hhi. replace n with 10000 by lia. reflexivity.
Qed.

(** C25 (bounds).  What the user sees at the end of the probability
    table: after a run with at least one simulation and one draw each
    and at most [2^30] jobs, the last row's [Cumulative Probability]
    cell is exactly [1.0000], whatever rounding the running sum went
    through (a final 0.9999999999999999 prints as 1.0000 too). *)
Theorem prob_table_ends_at_one {G : Type} `{RandomSource G}
    ranges total_range N M g sims probs cum dets g' :
  NoDup (dict_keys ranges) -> 1 <= N -> 1 <= M -> Z.of_nat (length ranges) <= 2 ^ 30 ->
  @run_simulations G _ float _ ranges total_range N M g = Ok (sims, probs, cum, dets, g') ->
  exists rows job p, prob_table probs cum = rows ++ [(job, p, "1.0000")].
Proof.
  intros Hnd HN HM Hn Hrun.
  destruct (run_simulations_float_sum _ _ _ _ _ _ _ _ _ _ Hnd HN HM ltac:(lia) Hrun)
    as (-> & Hne & Hk & Hf & Hs & Herr).
  destruct probs as [|[j p] ps _] using rev_ind; [contradiction|].
  assert (Hsum : py_sum_left (dict_values (ps ++ [(j, p)]))
                 = prob_add (fold_left prob_add (dict_values ps) prob_zero) p)
    by (unfold py_sum_left, dict_values; rewrite map_app, fold_left_app; reflexivity).
  rewrite Hsum in Hf, Hs, Herr.
  exists (prob_table ps (prefix_sums prob_zero (ps ++ [(j, p)]))), j, (format_fixed4 p).
  unfold prob_table at 1. rewrite map_app. f_equal. cbn [map]. do 2 f_equal.
  rewrite prefix_sums_snoc, dict_get_app_last.
  2: { rewrite dict_keys_prefix_sums. rewrite <- Hk, dict_keys_app in Hnd.
       exact (NoDup_app_cons_notin _ [] _ Hnd). }
  apply format_fixed4_one; [exact Hf | exact Hs|].
  eapply Qle_trans; [exact Herr|]. unfold sum_error_bound.
  assert (Hn' : (inject_Z (Z.of_nat (length ranges)) <= inject_Z (2 ^ 30))%Q)
    by (rewrite <- Zle_Qle; exact Hn).
  change (inject_Z (2 ^ 30)) with (1073741824 # 1) in Hn'.
  change (2 ^ (-51))%Q with (1 # 2251799813685248). lra.
Qed.

(** ** Labels read back *)

Lemma range_label_parse r : parse_range_label (range_label r) = Some r.
Proof.
  destruct r as [a b]. unfold parse_range_label, range_label. cbn [fst snd].
  rewrite read_int_pretty by exact eq_refl. rewrite strip_prefix_app.
  rewrite <- (string_app_nil_r (pretty b)), read_int_pretty by exact I. reflexivity.
Qed.

(** C22 (roundtrip).  The listing of the ranges in [main] is unambiguous:
    every line ["{job}: {start}–{end}"] reads back, for its job, as
    exactly the range stored for it, negative bounds included. *)
Theorem ranges_listing_roundtrip ranges :
  Forall2 (fun jr line => parse_range_line jr.1 line = Some jr.2) ranges (ranges_listing ranges).
Proof.
  induction ranges as [|[job r] ranges IH]; constructor; [|exact IH].
  unfold parse_range_line, range_line. cbn [fst snd].
  rewrite strip_prefix_app, strip_prefix_app. apply range_label_parse.
Qed.

(** ** The rendering refines [App.display_results] *)

Lemma detail_rows_range_column ranges ds :
  detail_rows ranges ds = res_map (detail_table ds) (range_column ranges ds).
Proof.
  induction ds as [|d ds IH]; [reflexivity|]. unfold detail_rows, range_column in *.
  cbn [res_traverse]. destruct (dict_getitem ranges (detail_job d)) as [r|e]; [|reflexivity].
  cbn [res_bind]. rewrite IH.
  by destruct (res_traverse (fun d0 : detail float => dict_getitem ranges (detail_job d0)) ds).
Qed.

Lemma expanders_range_columns ranges k dets :
  res_traverse (fun '(i, details) =>
                  let! rows := detail_rows ranges details in Ok (expander_title i, rows))
    (zip (seq k (length dets)) dets)
  = res_map (fun cols => zip (map expander_title (seq k (length dets)))
                             (zip_with detail_table dets cols))
            (res_traverse (range_column ranges) dets).
Proof.
  revert k. induction dets as [|ds dets IH]; intros k; [reflexivity|].
  cbn [length seq zip_with map res_traverse]. rewrite detail_rows_range_column.
  destruct (range_column ranges ds) as [col|e]; [|reflexivity]. cbn [res_map res_bind].
  rewrite IH. by destruct (res_traverse _ dets).
Qed.

Lemma render_results_display sims probs cum dets ranges :
  render_results sims probs cum dets ranges
  = res_map (render_with sims probs cum dets) (display_results sims probs cum dets ranges).
Proof.
  unfold render_results, display_results. rewrite expanders_range_columns.
  by destruct (res_traverse _ dets).
Qed.

Lemma render_session_err ss e : render_session ss = Err e <-> display_session ss = Err e.
Proof.
  unfold render_session, display_session.
  destruct (ss_simulations ss), (ss_probabilities ss), (ss_cumulative_prob ss),
    (ss_simulation_details ss), (ss_ranges ss); cbn [attr res_bind];
    try (split; intros [= <-]; reflexivity).
  rewrite render_results_display. destruct (display_results _ _ _ _ _); cbn.
  - split; intros; discriminate.
  - split; intros [= <-]; reflexivity.
Qed.

Lemma render_session_ok ss cols :
  display_session ss = Ok cols ->
  exists dets ranges rnd, ss_simulation_details ss = Some dets /\ ss_ranges ss = Some ranges /\
    render_session ss = Ok rnd /\ map snd (shown_details rnd) = zip_with detail_table dets cols /\
    Forall2 (fun ds col => range_column ranges ds = Ok col) dets cols.
Proof.
  unfold render_session, display_session.
  destruct (ss_simulations ss), (ss_probabilities ss), (ss_cumulative_prob ss),
    (ss_simulation_details ss) as [dets|], (ss_ranges ss) as [ranges|];
    cbn [attr res_bind]; try discriminate.
  intros Hd. rewrite render_results_display, Hd. exists dets, ranges.
  eexists. split_and!; [done..| |by apply res_traverse_Ok].
  cbn. apply snd_zip. rewrite length_map, length_seq, length_zip_with.
  unfold display_results in Hd. apply res_traverse_length in Hd. lia.
Qed.

Lemma detail_table_reads ranges ds col :
  range_column ranges ds = Ok col -> Forall2 shows_range ds col ->
  Forall2 (reads_row ranges) ds (detail_table ds col).
Proof.
  intros Hc%res_traverse_Ok. induction Hc as [|d r ds col Hr _ IH]; intros Hs; [constructor|].
  inversion Hs as [|? ? ? ? Hin Hrest]; subst. constructor; [|exact (IH Hrest)].
  unfold dict_getitem in Hr. destruct (dict_get ranges (detail_job d)) eqn:Hg; [|discriminate].
  injection Hr as <-. destruct p as [a b]. split_and!; [done..|].
  exists a, b. cbn [snd]. by rewrite range_label_parse.
Qed.

(** C23 (safety).  In every reachable state where [simulations_ran] is
    set (CPython's floats), [display_results] renders its tables without
    an exception, and every row of every simulation's table, read back
    cell by cell, shows its draw record's number, job and running total,
    and a [Range] cell ["{start}–{end}"] that parses back to the range
    the job owns in the stored [ranges], which contains the record's
    random number. *)
Theorem render_session_shows_ranges {G : Type} `{RandomSourceLaws G} (ss : session float) (g : G) :
  reachable (ss, g) -> get_flag (ss_simulations_ran ss) = true ->
  exists details ranges rnd, ss_simulation_details ss = Some details /\ ss_ranges ss = Some ranges /\
    render_session ss = Ok rnd /\
    Forall2 (Forall2 (reads_row ranges)) details (map snd (shown_details rnd)).
Proof.
  intros Hreach Hran.
  pose proof (reachable_ind_inv session_inv session_init_inv main_run_preserves_inv _ _ Hreach)
    as Hinv.
  destruct (display_session_spec ss Hinv Hran) as (details & cols & Hd & Hdisp & Hcols).
  destruct (render_session_ok ss cols Hdisp) as (dets & ranges & rnd & Hd' & Hr & Hrnd & Hmap & Hrc).
  rewrite Hd in Hd'. injection Hd' as <-. exists details, ranges, rnd. split_and!; [done..|].
  rewrite Hmap. clear - Hcols Hrc.
  induction Hcols as [|ds col dets cols Hc _ IH]; inversion Hrc; subst; constructor;
    [by apply detail_table_reads | by apply IH].
Qed.

(** ** Witnesses *)

Lemma prob_table_accuracy_witness :
  exists sims probs cum dets g',
    @run_simulations replay _ float _ [("J1", (1, 10)); ("J2", (11, 30)); ("J3", (31, 99))]%string
      99 1 6 (Replay [5; 15; 16; 17; 18; 50]) = Ok (sims, probs, cum, dets, g') /\
    Forall2 (fun j row => row.1.1 = j /\
               exists q, read_decimal row.1.2 = Some q /\
                 (Qabs (q - inject_Z (occurrences (concat sims) j) / inject_Z (1 * 6))
                  <= (1 # 20000) + 3 * 2 ^ (-52))%Q)
            ["J1"; "J2"; "J3"]%string (prob_table probs cum).
Proof.
  do 5 eexists. split; [vm_compute; reflexivity|].
  refine (prob_table_accuracy [("J1", (1, 10)); ("J2", (11, 30)); ("J3", (31, 99))]%string 99 1 6
            (Replay [5; 15; 16; 17; 18; 50]) _ _ _ _ _ _ _ _ _).
  - apply (bool_decide_unpack _). vm_compute. reflexivity.
  - lia.
  - lia.
  - vm_compute. reflexivity.
Defined.

Lemma prob_table_ends_at_one_witness :
  exists sims probs cum dets g',
    @run_simulations replay _ float _ [("J1", (1, 10)); ("J2", (11, 30)); ("J3", (31, 99))]%string
      99 1 6 (Replay [5; 15; 16; 17; 18; 50]) = Ok (sims, probs, cum, dets, g') /\
    exists rows job p, prob_table probs cum = rows ++ [(job, p, "1.0000")].
Proof.
  do 5 eexists. split; [vm_compute; reflexivity|].
  refine (prob_table_ends_at_one [("J1", (1, 10)); ("J2", (11, 30)); ("J3", (31, 99))]%string 99 1 6
            (Replay [5; 15; 16; 17; 18; 50]) _ _ _ _ _ _ _ _ _ _).
  - apply (bool_decide_unpack _). vm_compute. reflexivity.
  - lia.
  - lia.
  - cbn. lia.
  - vm_compute. reflexivity.
Defined.

Lemma render_session_shows_ranges_witness :
  get_flag (ss_simulations_ran demo_run2.1.1) = true /\
  exists details ranges rnd, ss_simulation_details demo_run2.1.1 = Some details /\
    ss_ranges demo_run2.1.1 = Some ranges /\ render_session demo_run2.1.1 = Ok rnd /\
    Forall2 (Forall2 (reads_row ranges)) details (map snd (shown_details rnd)).
Proof.
  assert (Hran : get_flag (ss_simulations_ran demo_run2.1.1) = true) by (vm_compute; reflexivity).
  split; [exact Hran|].
  exact (render_session_shows_ranges _ _ demo_reachable Hran).
Defined.

End Display.
